(** * woke fuzzer: a shallow embedding of [woke/testing/fuzzer.py]

    Definitions, following the source file top to bottom:
    - [PyDict]: Python dictionaries as insertion-ordered association
      lists (the order of [values()] is what the coverage merge sees);
    - [_setup]: the node launcher;
    - the worker ([_run], [_run_core], [exception_handler]) in a small
      monad carrying the worker's mutable [ctx_managers] list, the trace
      of its observable actions, Python exceptions and blocking;
    - [_compute_coverage_per_function];
    - the orchestrator [fuzz]: seed padding, the spawn loop, the attach
      prompt, the coverage drain and the poll loop, over an environment
      that says what the workers do.

    Properties, in this order: the node launcher (C8), seeds and the
    spawn loop (C3, C9), the worker's runs, tee or redirection (C10), the
    handler's teardown (C6), the attach decision (C7), the coverage drain
    (C2), coverage per function (C5), the reads of the error pipes, the
    poll loop (C4), the campaign with one failing worker and the worker
    whose test raises (C1); then further properties (X1 to X22). *)

From Stdlib Require Import List String Ascii ZArith Lia Bool Arith PeanoNat.
From Stdlib Require Import DecimalString FinFun.
From Stdlib Require Strings.Byte.
Import ListNotations.
Open Scope string_scope.
Open Scope Z_scope.
Open Scope list_scope.

(* ===================================================================== *)
(** ** Python values used by the fuzzer *)

(** [bytes] objects. *)
Definition bytes := list Byte.byte.

(** [str(n)] for a Python [int]. *)
Definition str (n : Z) : string := NilZero.string_of_int (Z.to_int n).

Definition hex_digit (n : N) : ascii :=
  match n with
  | 0%N => "0" | 1%N => "1" | 2%N => "2" | 3%N => "3" | 4%N => "4"
  | 5%N => "5" | 6%N => "6" | 7%N => "7" | 8%N => "8" | 9%N => "9"
  | 10%N => "a" | 11%N => "b" | 12%N => "c" | 13%N => "d" | 14%N => "e"
  | _ => "f"
  end%char.

(** [b.hex()]. *)
Fixpoint hex (b : bytes) : string :=
  match b with
  | [] => ""
  | x :: r =>
      let n := Byte.to_N x in
      String (hex_digit (n / 16)) (String (hex_digit (n mod 16)) (hex r))
  end.

(** The exceptions the fuzzer raises, catches or relays, and those a
    user's test may raise.  [SystemExit] and [KeyboardInterrupt] derive
    from [BaseException] only; all the others are subclasses of
    [Exception].  An exception object of the user's code may hold
    something [pickle.dumps] refuses (a lock, a local function), or
    belong to a class whose constructor [pickle.loads] cannot replay
    from [args]; [err] is what pickle raises then. *)
Inductive exn : Type :=
| ValueError (msg : string)
| TypeError (msg : string)
| PicklingError (msg : string)
| ConnectionRefusedError
| URLError
| NotImplementedError
| EOFError
| SystemExit (code : Z)
| KeyboardInterrupt
| TestException (cls msg : string)
| UnpicklableException (cls : string) (err : exn)
| UnloadableException (cls : string) (err : exn).

(** [isinstance(e, Exception)]: what [except Exception] catches. *)
Definition is_exception (e : exn) : bool :=
  match e with
  | SystemExit _ | KeyboardInterrupt => false
  | _ => true
  end.

(** The bytes [pickle.dumps(sys.exc_info())] yields for an exception. *)
Inductive pickled : Type := Pickle (e : exn).

(** [pickle.dumps(sys.exc_info())] while [e] is being handled: the
    bytes sent over the error pipe, or the exception pickle raises. *)
Definition pickle_dumps (e : exn) : exn + pickled :=
  match e with
  | UnpicklableException _ err => inl err
  | _ => inr (Pickle e)
  end.

(** [pickle.loads(exception_info)]: the exception, or the exception
    pickle raises while it rebuilds it. *)
Definition pickle_loads (p : pickled) : exn + exn :=
  match p with
  | Pickle (UnloadableException _ err) => inl err
  | Pickle e => inr e
  end.

(* ===================================================================== *)
(** ** Python dictionaries *)

Module PyDict.
Section Dict.
Context {K V : Type}.
Variable eqb : K -> K -> bool.

Definition t := list (K * V).

Definition empty : t := [].

(** [d[k]], as [d.get(k)]. *)
Fixpoint get (k : K) (d : t) : option V :=
  match d with
  | [] => None
  | (k', v) :: r => if eqb k k' then Some v else get k r
  end.

(** [d[k] = v]: an existing key keeps its position, a new key goes last. *)
Fixpoint set (k : K) (v : V) (d : t) : t :=
  match d with
  | [] => [(k, v)]
  | (k', v') :: r => if eqb k k' then (k', v) :: r else (k', v') :: set k v r
  end.

(** [d.pop(k)]. *)
Fixpoint pop (k : K) (d : t) : t :=
  match d with
  | [] => []
  | (k', v') :: r => if eqb k k' then r else (k', v') :: pop k r
  end.

Definition keys (d : t) : list K := map fst d.
Definition values (d : t) : list V := map snd d.
Definition len (d : t) : nat := List.length d.

(** [d = {}; for (k, v) in kvs: d[k] = v], continued from [d]. *)
Definition set_all (kvs : list (K * V)) (d : t) : t :=
  fold_left (fun acc kv => set (fst kv) (snd kv) acc) kvs d.
End Dict.
End PyDict.

(* ===================================================================== *)
(** ** [_setup]: launching the development node *)

(** The argument vector [_setup] builds for [subprocess.Popen], or the
    exception it raises instead. *)
Definition _setup_args (port : Z) (network_id : string) : exn + list string :=
  if (network_id =? "anvil")%string then
    inr ["anvil"; "--port"; str port; "--prune-history"; "--gas-price"; "0";
         "--base-fee"; "0"; "--steps-tracing"]
  else if (network_id =? "ganache")%string then
    inr ["ganache-cli"; "--port"; str port; "-g"; "0"; "-k"; "istanbul"]
  else if (network_id =? "hardhat")%string then
    inr ["npx"; "hardhat"; "node"; "--port"; str port]
  else
    inl (ValueError ("Unknown network ID '" ++ network_id ++ "'")%string).

(* ===================================================================== *)
(** ** Effects: state, Python exceptions, blocking *)

(** How a computation ends: a value, a Python exception, or the process
    blocked for good. *)
Inductive outcome (A : Type) : Type :=
| Ok (a : A)
| Raise (e : exn)
| Hang.
Arguments Ok {A} a.
Arguments Raise {A} e.
Arguments Hang {A}.

(** Computations over a state [St]; the worker and the orchestrator each
    have their own state. *)
Definition M (St A : Type) : Type := St -> outcome A * St.

Definition ret {St A} (a : A) : M St A := fun s => (Ok a, s).

Definition bind {St A B} (m : M St A) (k : A -> M St B) : M St B :=
  fun s =>
    match m s with
    | (Ok a, s') => k a s'
    | (Raise e, s') => (Raise e, s')
    | (Hang, s') => (Hang, s')
    end.

Declare Scope py_scope.
Delimit Scope py_scope with py.
Notation "x <- m ;; k" := (bind m (fun x => k))
  (at level 61, m at next level, right associativity) : py_scope.
Notation "m ;; k" := (bind m (fun _ => k))
  (at level 61, right associativity) : py_scope.
Open Scope py_scope.

Definition raise {St A} (e : exn) : M St A := fun s => (Raise e, s).
Definition hang {St A} : M St A := fun s => (Hang, s).

(** [try: body  except Exception: pass]: an exception that is not an
    [Exception] is not caught. *)
Definition try_except_pass {St} (body : M St unit) : M St unit :=
  fun s =>
    match body s with
    | (Raise e, s') => if is_exception e then (Ok tt, s') else (Raise e, s')
    | r => r
    end.

(** [try: body  finally: fin].  A blocked body never reaches [fin]; an
    exception raised by [fin] replaces the body's. *)
Definition try_finally {St A} (body : M St A) (fin : M St unit) : M St A :=
  fun s =>
    match body s with
    | (Hang, s') => (Hang, s')
    | (r, s') =>
        match fin s' with
        | (Ok _, s'') => (r, s'')
        | (Raise e, s'') => (Raise e, s'')
        | (Hang, s'') => (Hang, s'')
        end
    end.

(** [for x in l: f(x)] *)
Fixpoint for_each {St A} (l : list A) (f : A -> M St unit) : M St unit :=
  match l with
  | [] => ret tt
  | x :: r => f x ;; for_each r f
  end.

(* ===================================================================== *)
(** ** The worker process *)

(** The scoped resources a worker keeps in its [ctx_managers] list. *)
Inductive ctx_manager : Type :=
| StdoutTee (log_file : string)
| StderrTee (log_file : string)
| LogFile (log_file : string)
| RedirectStdout (log_file : string)
| RedirectStderr (log_file : string).

(** The observable actions of a worker, in the order it performs them. *)
Inductive wevent : Type :=
| PicklingSupportInstall
| RandomSeed (seed : bytes)
| Popen (args : list string)
| SetExceptionHandler
| ChainEnter (url : string) (connected : bool)
| ChainExit
| Sleep
| LoggingBasicConfig (log_file : string)
| OpenFile (log_file : string) (mode : string)
| Enter (c : ctx_manager)
| Exit (c : ctx_manager)
| Print (s : string)
| ChainReset (supported : bool)
| LoggingWarning (msg : string)
| CallTest (name : string)
| ErrSend (msg : option pickled)
| ErrRecv (attach : bool)
| FinishedSet
| ReopenStdin
| AttachDebugger (e : exn)
| Kill.

(** The two exceptions the connect loop of [_run] catches. *)
Inductive refusal : Type :=
| Refused
| Unreachable.

Definition refusal_exn (r : refusal) : exn :=
  match r with
  | Refused => ConnectionRefusedError
  | Unreachable => URLError
  end.

(** What the worker meets outside its own code. *)
Record worker_env : Type := {
  (** connection attempts the node refuses before it accepts one *)
  refusals : nat;
  (** which of the two exceptions refused attempt number [k] raises *)
  refused_with : nat -> refusal;
  (** number of refused attempts after which
      [time.perf_counter() - start > 10] first holds *)
  budget : nat;
  (** whether [default_chain.reset()] is implemented *)
  reset_supported : bool;
  (** [default_chain.chain_interface.get_block_number()] *)
  block_number : Z;
  (** what [err_child_conn.recv()] yields; [None]: nothing ever arrives *)
  attach_reply : option bool;
  (** how [attach_debugger] ends: it returns, or raises *)
  debugger_exit : option exn
}.

(** The worker's mutable state: the [ctx_managers] list shared by [_run]
    and its nested [exception_handler], the handler registered with
    [set_exception_handler], and the actions performed so far. *)
Record wstate : Type := {
  ctx_managers : list ctx_manager;
  handler_set : bool;
  trace : list wevent
}.

Definition wstate0 : wstate :=
  {| ctx_managers := []; handler_set := false; trace := [] |}.

Definition W (A : Type) : Type := M wstate A.

Definition emit (e : wevent) : W unit :=
  fun s => (Ok tt, {| ctx_managers := ctx_managers s;
                      handler_set := handler_set s;
                      trace := trace s ++ [e] |}).

Definition get_ctx_managers : W (list ctx_manager) :=
  fun s => (Ok (ctx_managers s), s).

Definition put_ctx_managers (l : list ctx_manager) : W unit :=
  fun s => (Ok tt, {| ctx_managers := l;
                      handler_set := handler_set s;
                      trace := trace s |}).

(** [ctx_managers.append(c)] *)
Definition append_ctx_manager (c : ctx_manager) : W unit :=
  l <- get_ctx_managers ;; put_ctx_managers (l ++ [c]).

(** [set_exception_handler(exception_handler)] *)
Definition set_exception_handler : W unit :=
  fun s => (Ok tt, {| ctx_managers := ctx_managers s;
                      handler_set := true;
                      trace := trace s ++ [SetExceptionHandler] |}).

Definition get_exception_handler : W bool :=
  fun s => (Ok (handler_set s), s).

(** [subprocess.Popen(args, ...)] after the argument vector was chosen. *)
Definition _setup (port : Z) (network_id : string) : W unit :=
  match _setup_args port network_id with
  | inl e => raise e
  | inr args => emit (Popen args)
  end.

Section Worker.
(** [woke.testing.coverage.Coverage] objects are opaque to the fuzzer. *)
Variable Coverage : Type.
Variable env : worker_env.

(** One positional argument of the test: [None], or the pair of a
    [CoverageProvider(coverage, block_number)] and the coverage queue. *)
Definition test_arg : Type := option (Coverage * Z).

(** The user's test, an opaque callable: its names, its declared
    parameters ([inspect.getfullargspec(fuzz_test).args]) and how a call
    ends: [Ok tt] when it returns, [Raise e] when [e] escapes its body,
    [Hang] when it never returns. *)
Record fuzz_fn : Type := {
  fn_module : string;
  fn_name : string;
  fn_args : list string;
  fn_body : list test_arg -> outcome unit
}.

(** [err_child_conn.recv()] *)
Definition err_recv : W bool :=
  match attach_reply env with
  | Some b => emit (ErrRecv b) ;; ret b
  | None => hang
  end.

(** [attach_debugger(e)] *)
Definition attach_debugger (e : exn) : W unit :=
  emit (AttachDebugger e) ;;
  match debugger_exit env with
  | Some e' => raise e'
  | None => ret tt
  end.

(** The handler nested in [_run].  The argument of
    [err_child_conn.send] is evaluated first: when [pickle.dumps]
    raises, nothing is sent and the event is not set. *)
Definition exception_handler (e : exn) : W unit :=
  cms <- get_ctx_managers ;;
  for_each cms (fun c => emit (Exit c)) ;;
  put_ctx_managers [] ;;
  match pickle_dumps e with
  | inl err => raise err
  | inr p =>
      emit (ErrSend (Some p)) ;;
      emit FinishedSet ;;
      try_finally
        (attach <- err_recv ;;
         if (attach : bool) then emit ReopenStdin ;; attach_debugger e
         else ret tt)
        (emit FinishedSet)
  end.

(** Modelled from the spec: the call of the test function.  The code
    that invokes the handler registered with [set_exception_handler]
    lives in [woke.testing.globals] and its callers, which are not part
    of the sources at hand.  Following the error-handling design, an
    exception raised inside the test body is captured by the handshake
    and reported exactly once: the registered handler runs once, while
    the exception is being handled, and the exception then leaves the
    test function; an exception the handler itself raises leaves the
    test function in its place.  The handler takes an [Exception]
    (line 117), so it is run for subclasses of [Exception] only. *)
Definition call_fuzz_test (f : fuzz_fn) (args : list test_arg) : W unit :=
  emit (CallTest (fn_name f)) ;;
  match fn_body f args with
  | Ok _ => ret tt
  | Raise e =>
      h <- get_exception_handler ;;
      (if (h : bool) && is_exception e then exception_handler e
       else ret tt) ;;
      raise e
  | Hang => hang
  end.

(** The argument loop of [_run_core]. *)
Fixpoint build_args (f : fuzz_fn) (coverage : option Coverage)
         (names : list string) (args : list test_arg)
  : exn + list test_arg :=
  match names with
  | [] => inr args
  | arg :: r =>
      if (arg =? "coverage")%string then
        match coverage with
        | Some c => build_args f coverage r (args ++ [Some (c, block_number env)])
        | None => build_args f coverage r (args ++ [None])
        end
      else
        inl (ValueError ("Unable to set value for '" ++ arg
                         ++ "' argument in '" ++ fn_name f
                         ++ "' function.")%string)
  end.

Definition _run_core (f : fuzz_fn) (index : Z) (random_seed : bytes)
           (coverage : option Coverage) : W unit :=
  emit (Print ("Using seed '" ++ hex random_seed
               ++ "' for process #" ++ str index)%string) ;;
  emit (ChainReset (reset_supported env)) ;;
  (if reset_supported env then ret tt
   else emit (LoggingWarning "Development chain does not support resetting")) ;;
  match build_args f coverage (fn_args f) [] with
  | inl e => raise e
  | inr args =>
      call_fuzz_test f args ;;
      emit (ErrSend None) ;;
      emit FinishedSet
  end.

(** The connect loop of [_run]: [refused] attempts are still going to
    be refused, [k] attempts were made so far.  The bare [raise] raises
    again the exception just caught. *)
Fixpoint connect_loop (url : string) (refused k : nat) : W unit :=
  match refused with
  | O => emit (ChainEnter url true)
  | S r =>
      emit (ChainEnter url false) ;;
      emit ChainExit ;;
      emit Sleep ;;
      if (budget env <=? k)%nat then raise (refusal_exn (refused_with env k))
      else connect_loop url r (S k)
  end.

(** The branch of [_run] that fills [ctx_managers]. *)
Definition acquire_log (tee : bool) (log_file : string) : W unit :=
  if tee then
    append_ctx_manager (StdoutTee log_file) ;;
    append_ctx_manager (StderrTee log_file)
  else
    emit (LoggingBasicConfig log_file) ;;
    emit (OpenFile log_file "w") ;;
    append_ctx_manager (LogFile log_file) ;;
    append_ctx_manager (RedirectStdout log_file) ;;
    append_ctx_manager (RedirectStderr log_file).

(** [with log_file.open("a") as f, redirect_stdout(f), redirect_stderr(f):
      chain_process.kill()] *)
Definition kill_node (log_file : string) : W unit :=
  emit (OpenFile log_file "a") ;;
  emit (Enter (LogFile log_file)) ;;
  emit (Enter (RedirectStdout log_file)) ;;
  emit (Enter (RedirectStderr log_file)) ;;
  emit Kill ;;
  emit (Exit (RedirectStderr log_file)) ;;
  emit (Exit (RedirectStdout log_file)) ;;
  emit (Exit (LogFile log_file)).

Definition _run (f : fuzz_fn) (index port : Z) (random_seed : bytes)
           (log_file : string) (tee : bool) (network_id : string)
           (coverage : option Coverage) : W unit :=
  put_ctx_managers [] ;;
  emit PicklingSupportInstall ;;
  emit (RandomSeed random_seed) ;;
  _setup port network_id ;;
  set_exception_handler ;;
  connect_loop ("http://localhost:" ++ str port)%string (refusals env) 0 ;;
  try_finally
    (try_except_pass
       (acquire_log tee log_file ;;
        cms <- get_ctx_managers ;;
        for_each cms (fun c => emit (Enter c)) ;;
        _run_core f index random_seed coverage))
    (cms <- get_ctx_managers ;;
     for_each cms (fun c => emit (Exit c)) ;;
     emit ChainExit ;;
     kill_node log_file).
End Worker.

Arguments fn_module {Coverage} _.
Arguments fn_name {Coverage} _.
Arguments fn_args {Coverage} _.
Arguments fn_body {Coverage} _ _.

(** *** Observations on a worker's trace *)

(** The scoped log resources [_run] acquires, in the order it acquires
    them. *)
Definition log_resources (tee : bool) (log_file : string) : list ctx_manager :=
  if tee then [StdoutTee log_file; StderrTee log_file]
  else [LogFile log_file; RedirectStdout log_file; RedirectStderr log_file].

(** The actions of a connect loop that is refused [n] times, then accepted. *)
Fixpoint connect_trace (url : string) (n : nat) : list wevent :=
  match n with
  | O => [ChainEnter url true]
  | S n' => ChainEnter url false :: ChainExit :: Sleep :: connect_trace url n'
  end.

(** The actions of [kill_node]. *)
Definition kill_trace (log_file : string) : list wevent :=
  [OpenFile log_file "a"; Enter (LogFile log_file);
   Enter (RedirectStdout log_file); Enter (RedirectStderr log_file);
   Kill;
   Exit (RedirectStderr log_file); Exit (RedirectStdout log_file);
   Exit (LogFile log_file)].

(** The actions of a worker whose test raises an exception pickled as
    [p], up to the first signal to the orchestrator: start-up, [n]
    refused connections, the log resources, [_run_core] up to the call,
    the handler's first half. *)
Definition failing_prefix (index port : Z) (random_seed : bytes)
           (log_file : string) (tee : bool) (popen_args : list string)
           (n : nat) (reset : bool) (test_name : string) (p : pickled)
  : list wevent :=
  [PicklingSupportInstall; RandomSeed random_seed; Popen popen_args;
   SetExceptionHandler]
  ++ connect_trace ("http://localhost:" ++ str port)%string n
  ++ (if tee then []
      else [LoggingBasicConfig log_file; OpenFile log_file "w"])
  ++ map Enter (log_resources tee log_file)
  ++ [Print ("Using seed '" ++ hex random_seed ++ "' for process #"
             ++ str index)%string;
      ChainReset reset]
  ++ (if reset then []
      else [LoggingWarning "Development chain does not support resetting"])
  ++ [CallTest test_name]
  ++ map Exit (log_resources tee log_file)
  ++ [ErrSend (Some p); FinishedSet].

Definition is_err_send (e : wevent) : bool :=
  match e with ErrSend _ => true | _ => false end.

Definition is_kill (e : wevent) : bool :=
  match e with Kill => true | _ => false end.

(** The resources entered, and those exited, before the first write to
    the error pipe. *)
Fixpoint enters_before_send (tr : list wevent) : list ctx_manager :=
  match tr with
  | [] => []
  | ErrSend _ :: _ => []
  | Enter c :: r => c :: enters_before_send r
  | _ :: r => enters_before_send r
  end.

Fixpoint exits_before_send (tr : list wevent) : list ctx_manager :=
  match tr with
  | [] => []
  | ErrSend _ :: _ => []
  | Exit c :: r => c :: exits_before_send r
  | _ :: r => exits_before_send r
  end.

(* ===================================================================== *)
(** ** [_compute_coverage_per_function] *)

(** A function record of the merged IDE coverage: [rec["name"]] and
    [rec["coverageHits"]]. *)
Record fn_rec : Type := {
  name : string;
  coverageHits : Z
}.

(** The merged coverage: file path -> function records. *)
Definition ide_cov_t : Type := PyDict.t (K := string) (V := list fn_rec).

(** [l.count(x)] *)
Definition count (l : list string) (x : string) : nat :=
  count_occ string_dec l x.

(** First loop: the names of all records with a positive hit count. *)
Definition fn_names (ide_cov : ide_cov_t) : list string :=
  fold_left
    (fun acc path_rec =>
       acc ++ map name (filter (fun rec => 0 <? coverageHits rec) path_rec))
    (PyDict.values ide_cov) [].

(** The body of the inner loop. *)
Definition add_fn_rec (names : list string) (fn_path : string)
           (funcs_cov : PyDict.t (K := string) (V := Z)) (rec : fn_rec)
  : PyDict.t (K := string) (V := Z) :=
  if coverageHits rec =? 0 then funcs_cov
  else if (1 <? count names (name rec))%nat then
    PyDict.set String.eqb (fn_path ++ ":" ++ name rec)%string
               (coverageHits rec) funcs_cov
  else
    PyDict.set String.eqb (name rec) (coverageHits rec) funcs_cov.

Definition _compute_coverage_per_function (ide_cov : ide_cov_t)
  : PyDict.t (K := string) (V := Z) :=
  let names := fn_names ide_cov in
  fold_left
    (fun funcs_cov (item : string * list fn_rec) =>
       fold_left (add_fn_rec names (fst item)) (snd item) funcs_cov)
    ide_cov PyDict.empty.

(** The key the inner loop stores a record under, and the assignments
    [funcs_cov[key] = hits] the two loops perform, in order. *)
Definition entry_key (names : list string) (fn_path : string) (rec : fn_rec)
  : string :=
  if (1 <? count names (name rec))%nat
  then (fn_path ++ ":" ++ name rec)%string
  else name rec.

Definition writes (ide_cov : ide_cov_t) : list (string * Z) :=
  flat_map
    (fun item : string * list fn_rec =>
       flat_map
         (fun rec =>
            if coverageHits rec =? 0 then []
            else [(entry_key (fn_names ide_cov) (fst item) rec,
                   coverageHits rec)])
         (snd item))
    ide_cov.

(** A merged coverage in which a function is named like the qualified key
    of another one. *)
Definition clashing_cov : ide_cov_t :=
  [("a.sol", [ {| name := "a.sol:f"; coverageHits := 5 |};
               {| name := "f"; coverageHits := 1 |} ]);
   ("b.sol", [ {| name := "f"; coverageHits := 2 |} ])].

(** A merged coverage with a name shared by two files, a record without
    hits and a name of its own. *)
Definition sample_cov : ide_cov_t :=
  [("a.sol", [ {| name := "f"; coverageHits := 3 |};
               {| name := "g"; coverageHits := 0 |};
               {| name := "h"; coverageHits := 1 |} ]);
   ("b.sol", [ {| name := "f"; coverageHits := 2 |} ])].

(* ===================================================================== *)
(** ** The orchestrator: [fuzz] *)

(** [len(l)] and [range(n)] *)
Definition len {A} (l : list A) : Z := Z.of_nat (List.length l).
Definition range (n : Z) : list Z := map Z.of_nat (seq 0 (Z.to_nat n)).

Definition newline : string := String (ascii_of_nat 10) "".

(** [sep.join(l)] *)
Fixpoint join (sep : string) (l : list string) : string :=
  match l with
  | [] => ""
  | [x] => x
  | x :: r => (x ++ sep ++ join sep r)%string
  end.

(** [sorted(items, key=lambda x: x[1], reverse=True)]: a stable sort, so
    items with equal counts keep their order. *)
Fixpoint insert_desc (x : string * Z) (l : list (string * Z))
  : list (string * Z) :=
  match l with
  | [] => [x]
  | y :: r => if snd y <? snd x then x :: y :: r else y :: insert_desc x r
  end.

Definition sorted_desc (l : list (string * Z)) : list (string * Z) :=
  fold_left (fun acc x => insert_desc x acc) l [].

(** The observable actions of the orchestrator. *)
Inductive oevent : Type :=
| OPrint (s : string)
| OPrintTraceback (e : exn)
| OProcessStart (i : Z)
| OProgressStop
| OProgressStart
| OProgressAddTask (thr_rem : Z)
| OProgressRemaining (thr_rem : Z)
| OProgressCoverage (coverage_info : string)
| OProgressFinished
| OEventWait (i : Z) (finished : bool)
| OErrRecv (i : Z) (msg : option pickled)
| OInput (response : string)
| OEventClear (i : Z)
| OErrSend (i : Z) (attach : bool)
| OEventWaitSet (i : Z)
| OWriteFile (file : string) (content : ide_cov_t)
| OQueueClose (i : Z).

(** The attach prompt:
    [while attach is None: response = input(...)], reading the lines left
    on the terminal; [input] raises [EOFError] when there is none. *)
Fixpoint ask_attach (lines : list string)
  : outcome bool * list string * list oevent :=
  match lines with
  | [] => (Raise EOFError, [], [])
  | response :: rest =>
      if (response =? "y")%string then (Ok true, rest, [OInput response])
      else if (response =? "n")%string then (Ok false, rest, [OInput response])
      else
        let '(r, rest', evs) := ask_attach rest in
        (r, rest', OInput response :: evs)
  end.

Section Orchestrator.
(** What [woke.testing.coverage] provides: the [Coverage] class, the
    per-worker exported coverage and the merge of exported coverages. *)
Variable Coverage : Type.
Variable new_Coverage : Coverage.
Variable Snapshot : Type.
Variable export_merged_ide_coverage : list Snapshot -> ide_cov_t.
(** [pathvalidate.sanitize_filename] *)
Variable sanitize_filename : string -> string.
(** The bytes the operating system's random source hands out. *)
Variable entropy : nat -> Byte.byte.

(** [os.urandom(n)], reading the random source from position [pos]. *)
Definition os_urandom (n pos : nat) : bytes * nat :=
  (map entropy (seq pos n), (pos + n)%nat).

(** The arguments [fuzz] passes to [_run] for one worker (the event and
    the two channels are identified by the worker's index). *)
Record run_args : Type := {
  a_index : Z;
  a_port : Z;
  a_seed : bytes;
  a_log_path : string;
  a_tee : bool;
  a_network_id : string;
  a_coverage : option Coverage
}.

(** What the workers do, as the orchestrator observes it. *)
Record campaign_env : Type := {
  (** the result of [e.wait(0.125)] on worker [i] in poll round [k] *)
  ev_wait : Z -> nat -> bool;
  (** the message in worker [i]'s error pipe; [None]: never written *)
  err_pipe : Z -> option (option pickled);
  (** whether worker [i] sets its event again after the decision *)
  ev_ack : Z -> bool;
  (** the results of the successive [cov_queue.get()] calls on worker
      [i]'s queue in poll round [k]; [None] stands for [EOFError] *)
  cov_queue : Z -> nat -> list (option (Snapshot * Snapshot))
}.

Variable cenv : campaign_env.

(** The orchestrator's mutable state besides the process table. *)
Record ostate : Type := {
  exported_coverages : PyDict.t (K := Z) (V := Snapshot);
  exported_coverages_per_trans : PyDict.t (K := Z) (V := Snapshot);
  stdin : list string;
  olog : list oevent
}.

Definition Orc (A : Type) : Type := M ostate A.

Definition oemit (e : oevent) : Orc unit :=
  fun s => (Ok tt, {| exported_coverages := exported_coverages s;
                      exported_coverages_per_trans :=
                        exported_coverages_per_trans s;
                      stdin := stdin s;
                      olog := olog s ++ [e] |}).

(** Lines 221-224: the seed list, padded from [os.urandom(8)]. *)
Fixpoint pad_seeds (k : nat) (random_seeds : list bytes) (pos : nat)
  : list bytes * nat :=
  match k with
  | O => (random_seeds, pos)
  | S k' =>
      let (seed, pos') := os_urandom 8 pos in
      pad_seeds k' (random_seeds ++ [seed]) pos'
  end.

Definition make_random_seeds (process_count : Z) (seeds : list bytes)
  : list bytes :=
  let random_seeds := seeds in
  if len random_seeds <? process_count then
    fst (pad_seeds (Z.to_nat (process_count - len random_seeds))
                   random_seeds 0)
  else random_seeds.

(** The seeds [os.urandom(8)] hands to the [k] workers that have none,
    read from the start of the random source. *)
Definition generated_seeds (k : nat) : list bytes :=
  map (fun j => map entropy (seq (8 * j) 8)) (seq 0 k).

Section Campaign.
Variable fuzz_test : fuzz_fn Coverage.
Variable logs_dir : string.
Variable passive : bool.
Variable network_id : string.
Variable cov_proc_num : Z.
Variable verbose_coverage : bool.

(** The [args] tuple built in the spawn loop. *)
Definition worker_args (i : Z) (seed : bytes) : run_args :=
  let empty_coverage :=
    if negb (cov_proc_num =? 0) then Some new_Coverage else None in
  let log_path :=
    (logs_dir ++ "/"
     ++ sanitize_filename (fn_module fuzz_test ++ "." ++ fn_name fuzz_test
                           ++ "_" ++ str i ++ ".ansi"))%string in
  let proc_cov := if i <? cov_proc_num then empty_coverage else None in
  {| a_index := i;
     a_port := 8545 + i;
     a_seed := seed;
     a_log_path := log_path;
     a_tee := passive && (i =? 0);
     a_network_id := network_id;
     a_coverage := proc_cov |}.

(** The process table the spawn loop builds from fresh [(i, seed)] pairs:
    one entry per pair, in order. *)
Definition spawned (items : list (Z * bytes))
  : PyDict.t (K := Z) (V := run_args) :=
  map (fun item => (fst item, worker_args (fst item) (snd item))) items.

(** Lines 231-260: the spawn loop over [zip(range(process_count),
    random_seeds)]. *)
Fixpoint spawn_loop (items : list (Z * bytes))
         (processes : PyDict.t (K := Z) (V := run_args))
  : Orc (PyDict.t (K := Z) (V := run_args)) :=
  match items with
  | [] => ret processes
  | (i, seed) :: r =>
      oemit (OPrint ("Using seed '" ++ hex seed ++ "' for process #"
                     ++ str i)%string) ;;
      let p := worker_args i seed in
      let processes' := PyDict.set Z.eqb i p processes in
      oemit (OProcessStart i) ;;
      spawn_loop r processes'
  end.

Definition spawn (process_count : Z) (seeds : list bytes)
  : Orc (PyDict.t (K := Z) (V := run_args)) :=
  let random_seeds := make_random_seeds process_count seeds in
  spawn_loop (combine (range process_count) random_seeds) PyDict.empty.

(** [err_parent_conn.recv()] *)
Definition err_parent_recv (i : Z) : Orc (option pickled) :=
  match err_pipe cenv i with
  | Some msg => oemit (OErrRecv i msg) ;; ret msg
  | None => hang
  end.

(** Lines 306-314: the prompt loop on the terminal. *)
Definition prompt_attach : Orc bool :=
  fun s =>
    let '(r, rest, evs) := ask_attach (stdin s) in
    (r, {| exported_coverages := exported_coverages s;
           exported_coverages_per_trans := exported_coverages_per_trans s;
           stdin := rest;
           olog := olog s ++ evs |}).

(** Lines 293-316: the attach decision for a worker that failed
    with [e]. *)
Definition attach_decision (i : Z) (e : exn) : Orc bool :=
  if negb passive || (i =? 0) then
    (if negb passive then oemit OProgressStop else ret tt) ;;
    oemit (OPrintTraceback e) ;;
    oemit (OPrint ("Process #" ++ str i
                   ++ " failed with an exception above.")%string) ;;
    prompt_attach
  else ret false.

(** [e.wait()] after the decision was sent. *)
Definition event_wait_set (i : Z) : Orc unit :=
  if ev_ack cenv i then oemit (OEventWaitSet i) else hang.

(** Lines 288-322.  When [pickle.loads] raises, the exception leaves
    [fuzz] before anything is shown, asked or sent. *)
Definition handshake (i : Z) : Orc unit :=
  exception_info <- err_parent_recv i ;;
  match exception_info with
  | Some p =>
      match pickle_loads p with
      | inl err => raise err
      | inr exception_info =>
          attach <- attach_decision i exception_info ;;
          oemit (OEventClear i) ;;
          oemit (OErrSend i attach) ;;
          event_wait_set i ;;
          if negb passive then oemit OProgressStart else ret tt
      end
  | None => ret tt
  end.

(** Lines 347-358. *)
Definition coverage_info (res : ide_cov_t) : string :=
  if negb passive && verbose_coverage then
    (newline ++ "[dark_goldenrod]"
     ++ join newline
          (map (fun x => fst x ++ ": [green]" ++ str (snd x)
                         ++ "[dark_goldenrod]")
               (sorted_desc (_compute_coverage_per_function res))))%string
  else "".

(** Lines 338-359: merge what is stored, write the two files, update
    the progress line. *)
Definition merge_and_report : Orc unit :=
  fun s =>
    let res :=
      export_merged_ide_coverage (PyDict.values (exported_coverages s)) in
    let res_per_trans :=
      export_merged_ide_coverage
        (PyDict.values (exported_coverages_per_trans s)) in
    ((match res with
      | [] => ret tt
      | _ :: _ =>
          oemit (OWriteFile "woke-coverage.cov" res) ;;
          oemit (OWriteFile "woke-coverage-per-trans.cov" res_per_trans)
      end) ;;
     oemit (OProgressCoverage (coverage_info res))) s.

(** The two aggregates a state stands for, and what [merge_and_report]
    writes and shows for them. *)
Definition merged_full (s : ostate) : ide_cov_t :=
  export_merged_ide_coverage (PyDict.values (exported_coverages s)).

Definition merged_per_trans (s : ostate) : ide_cov_t :=
  export_merged_ide_coverage (PyDict.values (exported_coverages_per_trans s)).

Definition report (s : ostate) : list oevent :=
  (match merged_full s with
   | [] => []
   | _ :: _ =>
       [OWriteFile "woke-coverage.cov" (merged_full s);
        OWriteFile "woke-coverage-per-trans.cov" (merged_per_trans s)]
   end)
  ++ [OProgressCoverage (coverage_info (merged_full s))].

(** Lines 332-335: the tuple assignment into the two dictionaries. *)
Definition store_coverage (i : Z) (exported_coverage : Snapshot * Snapshot)
  : Orc unit :=
  fun s =>
    (Ok tt,
     {| exported_coverages :=
          PyDict.set Z.eqb i (fst exported_coverage) (exported_coverages s);
        exported_coverages_per_trans :=
          PyDict.set Z.eqb i (snd exported_coverage)
                     (exported_coverages_per_trans s);
        stdin := stdin s;
        olog := olog s |}).

(** Lines 327-359: the drain of worker [i]'s coverage queue, on the
    results its [get()] calls are going to have. *)
Fixpoint drain (i : Z) (queue : list (option (Snapshot * Snapshot)))
  : Orc unit :=
  match queue with
  | [] => ret tt
  | got :: rest =>
      match got, rest with
      | Some _, _ :: _ => drain i rest
      | Some exported_coverage, [] =>
          store_coverage i exported_coverage ;;
          merge_and_report ;;
          drain i rest
      | None, _ =>
          merge_and_report ;;
          drain i rest
      end
  end.

(** Lines 284-361: the body of the [for] loop, for worker [i] in poll
    round [round]. *)
Definition poll_worker (round : nat) (n_processes : Z)
           (to_be_removed : list Z) (i : Z) : Orc (list Z) :=
  let finished := ev_wait cenv i round in
  oemit (OEventWait i finished) ;;
  to_be_removed' <-
    (if finished then
       let to_be_removed' := to_be_removed ++ [i] in
       handshake i ;;
       oemit (OProgressRemaining (n_processes - len to_be_removed')) ;;
       (if i =? 0 then oemit OProgressStart else ret tt) ;;
       ret to_be_removed'
     else ret to_be_removed) ;;
  drain i (cov_queue cenv i round) ;;
  (if finished then oemit (OQueueClose i) else ret tt) ;;
  ret to_be_removed'.

Fixpoint poll_processes (round : nat) (n_processes : Z)
         (items : list (Z * run_args)) (to_be_removed : list Z)
  : Orc (list Z) :=
  match items with
  | [] => ret to_be_removed
  | (i, _) :: r =>
      to_be_removed' <- poll_worker round n_processes to_be_removed i ;;
      poll_processes round n_processes r to_be_removed'
  end.

(** Lines 363-364. *)
Definition pop_all (to_be_removed : list Z)
           (processes : PyDict.t (K := Z) (V := run_args))
  : PyDict.t (K := Z) (V := run_args) :=
  fold_left (fun d i => PyDict.pop Z.eqb i d) to_be_removed processes.

(** Lines 281-364: [while len(processes)], cut off after [fuel] rounds.
    [None]: the loop was left; [Some processes]: it is still polling
    these workers. *)
Fixpoint poll_loop (fuel round : nat)
         (processes : PyDict.t (K := Z) (V := run_args))
  : Orc (option (PyDict.t (K := Z) (V := run_args))) :=
  match processes with
  | [] => ret None
  | _ :: _ =>
      match fuel with
      | O => ret (Some processes)
      | S fuel' =>
          to_be_removed <-
            poll_processes round (len processes) processes [] ;;
          poll_loop fuel' (S round) (pop_all to_be_removed processes)
      end
  end.

Definition fuzz (fuel : nat) (process_count : Z) (seeds : list bytes)
  : Orc (option (PyDict.t (K := Z) (V := run_args))) :=
  processes <- spawn process_count seeds ;;
  (if passive then oemit OProgressStop else ret tt) ;;
  oemit (OProgressAddTask (len processes)) ;;
  r <- poll_loop fuel 0 processes ;;
  match r with
  | None => oemit OProgressFinished ;; ret None
  | Some still => ret (Some still)
  end.
End Campaign.
End Orchestrator.

Arguments a_index {Coverage} _.
Arguments a_port {Coverage} _.
Arguments a_seed {Coverage} _.
Arguments a_log_path {Coverage} _.
Arguments a_tee {Coverage} _.
Arguments a_network_id {Coverage} _.
Arguments a_coverage {Coverage} _.
Arguments exported_coverages {Snapshot} _.
Arguments exported_coverages_per_trans {Snapshot} _.
Arguments stdin {Snapshot} _.
Arguments olog {Snapshot} _.

(** *** Observations on the orchestrator's log *)

Definition is_oerr_recv (e : oevent) : bool :=
  match e with OErrRecv _ _ => true | _ => false end.


(** The state [s] after the orchestrator performed [evs]. *)
Definition add_log {Snapshot} (evs : list oevent) (s : ostate Snapshot)
  : ostate Snapshot :=
  {| exported_coverages := exported_coverages s;
     exported_coverages_per_trans := exported_coverages_per_trans s;
     stdin := stdin s;
     olog := olog s ++ evs |}.

(** What the spawn loop prints and starts for fresh [(i, seed)] pairs:
    the seed line, then [p.start()], pair after pair. *)
Definition spawn_events (items : list (Z * bytes)) : list oevent :=
  flat_map
    (fun item : Z * bytes =>
       [OPrint ("Using seed '" ++ hex (snd item) ++ "' for process #"
                ++ str (fst item))%string;
        OProcessStart (fst item)])
    items.

Definition is_process_start (e : oevent) : bool :=
  match e with OProcessStart _ => true | _ => false end.

(** The state a drain of worker [i]'s queue ends in: only the last result
    matters, and only when it is a snapshot. *)
Definition after_drain {Snapshot} (i : Z) (queue : list (option (Snapshot * Snapshot)))
           (s : ostate Snapshot) (evs : list oevent) : ostate Snapshot :=
  match last queue None with
  | Some x =>
      {| exported_coverages :=
           PyDict.set Z.eqb i (fst x) (exported_coverages s);
         exported_coverages_per_trans :=
           PyDict.set Z.eqb i (snd x) (exported_coverages_per_trans s);
         stdin := stdin s;
         olog := olog s ++ evs |}
  | None => add_log evs s
  end.

(** [m] only adds to the log, and what it adds satisfies [P]; [m] is
    silent when it reads no error pipe. *)
Definition emits {Snapshot A} (P : list oevent -> Prop) (m : Orc Snapshot A)
  : Prop :=
  forall s, exists evs, olog (snd (m s)) = olog s ++ evs /\ P evs.

Definition silent {Snapshot A} (m : Orc Snapshot A) : Prop :=
  emits (fun evs => filter is_oerr_recv evs = []) m.



(** The orchestrator's state when [fuzz] is entered, with the lines that
    are going to be typed on the terminal. *)
Definition ostate0 {Snapshot} (lines : list string) : ostate Snapshot :=
  {| exported_coverages := PyDict.empty;
     exported_coverages_per_trans := PyDict.empty;
     stdin := lines;
     olog := [] |}.

(* ===================================================================== *)
(** ** Concrete inputs used in the examples *)

(** A test function with the coverage parameter that returns. *)
Definition passing_test : fuzz_fn unit :=
  {| fn_module := "tests.test_counter";
     fn_name := "test_fuzz";
     fn_args := ["coverage"];
     fn_body := fun _ => Ok tt |}.

(** A test function whose body raises [AssertionError("invariant broken")]. *)
Definition failing_test : fuzz_fn unit :=
  {| fn_module := "tests.test_counter";
     fn_name := "test_fuzz";
     fn_args := ["coverage"];
     fn_body :=
       fun _ => Raise (TestException "AssertionError" "invariant broken") |}.

(** A random source that only hands out zero bytes. *)
Definition zero_entropy (pos : nat) : Byte.byte := Byte.x00.

(** A node that accepts the second connection attempt, a chain that can
    be reset, and an orchestrator that answers "no". *)
Definition detach_env : worker_env :=
  {| refusals := 1;
     refused_with := fun _ => Refused;
     budget := 100;
     reset_supported := true;
     block_number := 0;
     attach_reply := Some false;
     debugger_exit := None |}.

(** A campaign in which every worker is finished when first polled;
    worker 1 reported an [AssertionError], the others no error; every
    worker signals again after the decision and no coverage arrives. *)
Definition one_failure_env : campaign_env unit :=
  {| ev_wait := fun _ _ => true;
     err_pipe := fun i =>
       Some (if i =? 1
             then Some (Pickle (TestException "AssertionError"
                                              "invariant broken"))
             else None);
     ev_ack := fun _ => true;
     cov_queue := fun _ _ => [] |}.

(** A campaign whose workers died before signalling anything. *)
Definition dead_workers_env : campaign_env unit :=
  {| ev_wait := fun _ _ => false;
     err_pipe := fun _ => None;
     ev_ack := fun _ => false;
     cov_queue := fun _ _ => [] |}.

(** A merge that finds no coverage. *)
Definition no_coverage (records : list unit) : ide_cov_t := PyDict.empty.


From Stdlib Require Import Permutation Sorted.

(* ===================================================================== *)
(** ** Further observations on a worker's trace *)

(** The actions of a worker that reached [_run_core], up to the point
    where the test's arguments are built. *)
Definition until_call (index port : Z) (random_seed : bytes)
           (log_file : string) (tee : bool) (popen_args : list string)
           (n : nat) (reset : bool) : list wevent :=
  [PicklingSupportInstall; RandomSeed random_seed; Popen popen_args;
   SetExceptionHandler]
  ++ connect_trace ("http://localhost:" ++ str port)%string n
  ++ (if tee then []
      else [LoggingBasicConfig log_file; OpenFile log_file "w"])
  ++ map Enter (log_resources tee log_file)
  ++ [Print ("Using seed '" ++ hex random_seed ++ "' for process #"
             ++ str index)%string;
      ChainReset reset]
  ++ (if reset then []
      else [LoggingWarning "Development chain does not support resetting"]).

(** The actions of [m] connection attempts that are all refused. *)
Fixpoint refused_trace (url : string) (m : nat) : list wevent :=
  match m with
  | O => []
  | S m' => ChainEnter url false :: ChainExit :: Sleep :: refused_trace url m'
  end.

(** The resources entered, and those exited, over a whole trace. *)
Fixpoint entered (tr : list wevent) : list ctx_manager :=
  match tr with
  | [] => []
  | Enter c :: r => c :: entered r
  | _ :: r => entered r
  end.

Fixpoint exited (tr : list wevent) : list ctx_manager :=
  match tr with
  | [] => []
  | Exit c :: r => c :: exited r
  | _ :: r => exited r
  end.

(** The messages written to the error pipe, and the worker's signals. *)
Definition is_finished_set (e : wevent) : bool :=
  match e with FinishedSet => true | _ => false end.

Definition is_call_test (e : wevent) : bool :=
  match e with CallTest _ => true | _ => false end.

Definition is_err_recv (e : wevent) : bool :=
  match e with ErrRecv _ => true | _ => false end.

Definition is_popen (e : wevent) : bool :=
  match e with Popen _ => true | _ => false end.

Definition is_sleep (e : wevent) : bool :=
  match e with Sleep => true | _ => false end.

(** How a [try] block that ends in [e] leaves [except Exception: pass]. *)
Definition swallowed (e : exn) : outcome unit :=
  if is_exception e then Ok tt else Raise e.

(** The worker's state after the [finally] block of [_run]: what is
    left in [ctx_managers] is exited, the chain is left, the node is
    killed. *)
Definition closed (log_file : string) (s : wstate) : wstate :=
  {| ctx_managers := ctx_managers s;
     handler_set := handler_set s;
     trace := trace s ++ map Exit (ctx_managers s)
              ++ ChainExit :: kill_trace log_file |}.

(** The worker's state with [evs] performed as well. *)
Definition performed (evs : list wevent) (s : wstate) : wstate :=
  {| ctx_managers := ctx_managers s;
     handler_set := handler_set s;
     trace := trace s ++ evs |}.

(** The first declared parameter of a test that [_run_core] does not
    know, and the value it passes for a "coverage" parameter. *)
Definition first_unknown (names : list string) : option string :=
  find (fun arg => negb (arg =? "coverage")%string) names.

Definition coverage_arg {Coverage} (env : worker_env)
           (coverage : option Coverage) : test_arg Coverage :=
  match coverage with
  | Some c => Some (c, block_number env)
  | None => None
  end.

(** A test function that declares a parameter the worker does not know. *)
Definition seeded_test : fuzz_fn unit :=
  {| fn_module := "tests.test_counter";
     fn_name := "test_seeded";
     fn_args := ["coverage"; "seed"];
     fn_body := fun _ => Ok tt |}.

(** A test function whose body raises an exception that holds a lock,
    which [pickle.dumps] refuses. *)
Definition unpicklable_test : fuzz_fn unit :=
  {| fn_module := "tests.test_counter";
     fn_name := "test_fuzz";
     fn_args := ["coverage"];
     fn_body :=
       fun _ =>
         Raise (UnpicklableException
                  "LockedError"
                  (TypeError "cannot pickle '_thread.lock' object")) |}.

(** A test function whose body never returns. *)
Definition hanging_test : fuzz_fn unit :=
  {| fn_module := "tests.test_counter";
     fn_name := "test_fuzz";
     fn_args := ["coverage"];
     fn_body := fun _ => Hang |}.


(** A campaign like [one_failure_env], in which the exception worker 1
    reported belongs to a class whose constructor [pickle.loads] cannot
    call again. *)
Definition unloadable_env : campaign_env unit :=
  {| ev_wait := fun _ _ => true;
     err_pipe := fun i =>
       Some (if i =? 1
             then Some (Pickle
                          (UnloadableException
                             "CodedError"
                             (TypeError "__init__() missing 1 required positional argument: 'code'")))
             else None);
     ev_ack := fun _ => true;
     cov_queue := fun _ _ => [] |}.

(** A node that never accepts a connection within the retry budget:
    the attempts fail in [urllib], but for the first one. *)
Definition unreachable_env : worker_env :=
  {| refusals := 200;
     refused_with := fun k => match k with O => Refused | _ => Unreachable end;
     budget := 99;
     reset_supported := true;
     block_number := 0;
     attach_reply := None;
     debugger_exit := None |}.

(** An orchestrator that answers "yes", and a debugger session that ends
    in an exception of its own. *)
Definition crashing_debugger_env : worker_env :=
  {| refusals := 0;
     refused_with := fun _ => Refused;
     budget := 100;
     reset_supported := true;
     block_number := 0;
     attach_reply := Some true;
     debugger_exit := Some (ValueError "debugger gone") |}.

(* ===================================================================== *)
(** ** Further observations on the orchestrator *)

(** [m] returns [a] and leaves the terminal's pending lines alone. *)
Definition runs_ok {Snapshot A} (m : Orc Snapshot A) (a : A) : Prop :=
  forall s, exists s', m s = (Ok a, s') /\ stdin s' = stdin s.

(** The writes of the coverage files, the lines read from the terminal
    and the decisions sent to workers. *)
Definition is_write (e : oevent) : bool :=
  match e with OWriteFile _ _ => true | _ => false end.

Definition is_input (e : oevent) : bool :=
  match e with OInput _ => true | _ => false end.

Definition is_decision (e : oevent) : bool :=
  match e with OErrSend _ _ => true | _ => false end.

(** The waits on worker [i]'s completion event. *)
Definition is_wait_of (i : Z) (e : oevent) : bool :=
  match e with OEventWait j _ => j =? i | _ => false end.






(** [m] only adds to the log, and nothing it adds satisfies [p]. *)
Definition never {Snapshot A} (p : oevent -> bool) (m : Orc Snapshot A)
  : Prop :=
  emits (fun evs => filter p evs = []) m.

(** The records the second loop does not skip, in the order it visits
    them. *)
Definition covered (ide_cov : ide_cov_t) : list fn_rec :=
  filter (fun rec => negb (coverageHits rec =? 0))
         (List.concat (PyDict.values ide_cov)).

(** Two files, no name shared. *)
Definition plain_cov : ide_cov_t :=
  [("a.sol", [ {| name := "f"; coverageHits := 3 |};
               {| name := "g"; coverageHits := 0 |} ]);
   ("b.sol", [ {| name := "g"; coverageHits := 0 |};
               {| name := "h"; coverageHits := 7 |} ])].

(** What involves the person at the terminal: a traceback shown, a line
    read, the decision to attach. *)
Definition asks_user (e : oevent) : bool :=
  match e with
  | OPrintTraceback _ | OInput _ | OErrSend _ true => true
  | _ => false
  end.

(* ===================================================================== *)
(** ** [wake_detectors.utils.generate_detector_uri] *)

Definition generate_detector_uri (name version anchor : string) : string :=
  let uri :=
    ("https://ackee.xyz/wake/docs/" ++ version
     ++ "/static-analysis/detectors/" ++ name)%string in
  match anchor with
  | EmptyString => uri
  | String _ _ => (uri ++ "#" ++ anchor)%string
  end.

(* ===================================================================== *)
(** ** [wake.compiler.build_data_model.HexBytes] *)

(** The values [HexBytes.validate] tells apart: [bytes] (and its
    subclasses), [bytearray], [str], anything else. *)
Inductive pyvalue : Type :=
| VBytes (b : bytes)
| VBytearray (b : bytes)
| VStr (s : string)
| VOther.

(** [pydantic.errors.BytesError], and the [ValueError] of
    [bytes.fromhex]. *)
Inductive validate_error : Type :=
| BytesError
| FromhexValueError.

(** ASCII whitespace, which [bytes.fromhex] skips between bytes:
    space, [\t], [\n], [\v], [\f], [\r]. *)
Definition is_space (c : ascii) : bool :=
  let n := N_of_ascii c in
  ((n =? 32) || ((9 <=? n) && (n <=? 13)))%N.

(** The value of a hexadecimal digit, in either case. *)
Definition hex_value (c : ascii) : option N :=
  let n := N_of_ascii c in
  if ((48 <=? n) && (n <=? 57))%N then Some (n - 48)%N
  else if ((97 <=? n) && (n <=? 102))%N then Some (n - 87)%N
  else if ((65 <=? n) && (n <=? 70))%N then Some (n - 55)%N
  else None.

Definition byte_of_N (n : N) : Byte.byte :=
  match Byte.of_N n with
  | Some x => x
  | None => Byte.x00
  end.

(** [bytes.fromhex(s)]: two hexadecimal digits per byte, whitespace
    allowed between bytes only; [None] stands for its [ValueError]. *)
Fixpoint fromhex (s : string) : option bytes :=
  match s with
  | EmptyString => Some []
  | String c r =>
      if is_space c then fromhex r
      else
        match hex_value c with
        | None => None
        | Some top =>
            match r with
            | EmptyString => None
            | String c' r' =>
                match hex_value c' with
                | None => None
                | Some bot =>
                    match fromhex r' with
                    | None => None
                    | Some b => Some (byte_of_N (16 * top + bot) :: b)
                    end
                end
            end
        end
  end.

(** Lines 34-42. *)
Definition validate (v : pyvalue) : validate_error + bytes :=
  match v with
  | VBytes b => inr b
  | VBytearray b => inr b
  | VStr s =>
      match fromhex s with
      | Some b => inr b
      | None => inl FromhexValueError
      end
  | VOther => inl BytesError
  end.

(** Line 21: the JSON encoder of [bytes], [lambda b: b.hex()]. *)
Definition json_encoders_bytes (b : bytes) : string := hex b.

(** [c.lower()] on an ASCII character. *)
Definition lower (c : ascii) : ascii :=
  let n := N_of_ascii c in
  if ((65 <=? n) && (n <=? 90))%N then ascii_of_N (n + 32) else c.

(** A string without its whitespace, in lower case. *)
Fixpoint compact_lower (s : string) : string :=
  match s with
  | EmptyString => EmptyString
  | String c r =>
      if is_space c then compact_lower r
      else String (lower c) (compact_lower r)
  end.

(* ===================================================================== *)
(** * Properties *)

(** ** Dictionaries *)

Module PyDictFacts.
Section Facts.
Context {K V : Type}.
Variable eqb : K -> K -> bool.
Let dict := PyDict.t (K := K) (V := V).
Implicit Types d : dict.

Hypothesis eqb_eq : forall a b, eqb a b = true <-> a = b.

Lemma eqb_refl k : eqb k k = true.
Proof. now apply eqb_eq. Qed.

Lemma eqb_neq a b : a <> b -> eqb a b = false.
Proof.
  intro H. destruct (eqb a b) eqn:E; [|reflexivity].
  apply eqb_eq in E. contradiction.
Qed.

Lemma get_set_same k v d : PyDict.get eqb k (PyDict.set eqb k v d) = Some v.
Proof.
  induction d as [|[k' v'] r IH]; simpl.
  - now rewrite eqb_refl.
  - destruct (eqb k k') eqn:E; simpl; rewrite E; auto.
Qed.

Lemma get_set_other k k' v d : k <> k' -> PyDict.get eqb k' (PyDict.set eqb k v d) = PyDict.get eqb k' d.
Proof.
  intro N. induction d as [|[k0 v0] r IH]; simpl.
  - rewrite eqb_neq; auto.
  - destruct (eqb k k0) eqn:E; simpl.
    + apply eqb_eq in E. subst k0. rewrite eqb_neq; auto.
    + destruct (eqb k' k0); auto.
Qed.

(** Storing the value a key already has leaves the dictionary as it is. *)
Lemma set_get_id k v d : PyDict.get eqb k d = Some v -> PyDict.set eqb k v d = d.
Proof.
  induction d as [|[k' v'] r IH]; simpl; [discriminate|].
  destruct (eqb k k') eqn:E.
  - intros [= ->]. reflexivity.
  - intro H. now rewrite IH.
Qed.

Lemma set_set_same k v w d : PyDict.set eqb k v (PyDict.set eqb k w d) = PyDict.set eqb k v d.
Proof.
  induction d as [|[k' v'] r IH]; simpl.
  - now rewrite eqb_refl.
  - destruct (eqb k k') eqn:E; simpl; rewrite E; [reflexivity|].
    now rewrite IH.
Qed.

Lemma get_In k v d : PyDict.get eqb k d = Some v -> In (k, v) d.
Proof.
  induction d as [|[k' v'] r IH]; simpl; [discriminate|].
  destruct (eqb k k') eqn:E.
  - apply eqb_eq in E. intros [= ->]. left. now subst.
  - intro H. right. auto.
Qed.

Lemma In_keys_get k d : In k (PyDict.keys d) -> exists v, PyDict.get eqb k d = Some v.
Proof.
  induction d as [|[k' v'] r IH]; simpl; [tauto|].
  intros [->|H].
  - rewrite eqb_refl. eauto.
  - destruct (eqb k k'); eauto.
Qed.

Lemma get_None_not_In k d : PyDict.get eqb k d = None -> ~ In k (PyDict.keys d).
Proof.
  intros H Hin. apply In_keys_get in Hin as [v Hv]. congruence.
Qed.

End Facts.
End PyDictFacts.

(** ** Effects *)


(** ** Examples *)

Example compute_coverage_ex1 :
  _compute_coverage_per_function sample_cov
  = [("a.sol:f", 3); ("h", 1); ("b.sol:f", 2)].
Proof. reflexivity. Qed.

(** Two records of one file with the same name (overloads) get the same
    qualified key, and the later one wins. *)
Example compute_coverage_overloads :
  _compute_coverage_per_function
    [("a.sol", [ {| name := "f"; coverageHits := 1 |};
                 {| name := "f"; coverageHits := 2 |} ]);
     ("b.sol", [ {| name := "f"; coverageHits := 3 |} ])]
  = [("a.sol:f", 2); ("b.sol:f", 3)].
Proof. reflexivity. Qed.

(** A worker whose test returns sends "no error" and signals once. *)
Example passing_worker_trace :
  _run unit detach_env passing_test 0 8545 [Byte.x01; Byte.x02]
       "logs/t_0.ansi" true "anvil" None wstate0
  = (Ok tt,
     {| ctx_managers := [StdoutTee "logs/t_0.ansi"; StderrTee "logs/t_0.ansi"];
        handler_set := true;
        trace :=
          [PicklingSupportInstall; RandomSeed [Byte.x01; Byte.x02];
           Popen ["anvil"; "--port"; "8545"; "--prune-history";
                  "--gas-price"; "0"; "--base-fee"; "0"; "--steps-tracing"];
           SetExceptionHandler;
           ChainEnter "http://localhost:8545" false; ChainExit; Sleep;
           ChainEnter "http://localhost:8545" true;
           Enter (StdoutTee "logs/t_0.ansi");
           Enter (StderrTee "logs/t_0.ansi");
           Print "Using seed '0102' for process #0";
           ChainReset true; CallTest "test_fuzz";
           ErrSend None; FinishedSet;
           Exit (StdoutTee "logs/t_0.ansi"); Exit (StderrTee "logs/t_0.ansi");
           ChainExit]
          ++ kill_trace "logs/t_0.ansi" |}).
Proof. reflexivity. Qed.

(** A campaign of three workers that all finish cleanly when first
    polled is over after one round. *)
Example clean_campaign :
  fst (fuzz unit tt unit no_coverage (fun n => n) zero_entropy
            {| ev_wait := fun _ _ => true;
               err_pipe := fun _ => Some None;
               ev_ack := fun _ => true;
               cov_queue := fun _ _ => [] |}
            passing_test "logs" false "anvil" 0 false
            2 3 [repeat Byte.x01 8; repeat Byte.x02 8] (ostate0 []))
  = Ok None.
Proof. reflexivity. Qed.

(** Worker 1 of a two-worker campaign raised; the campaign is not passive
    and the user answers "n". *)
Example failing_campaign :
  let r := fuzz unit tt unit no_coverage (fun n => n) zero_entropy
                one_failure_env passing_test "logs" false "anvil" 0 false
                3 2 [] (ostate0 ["n"]) in
  fst r = Ok None
  /\ stdin (snd r) = []
  /\ olog (snd r)
     = [OPrint "Using seed '0000000000000000' for process #0";
        OProcessStart 0;
        OPrint "Using seed '0000000000000000' for process #1";
        OProcessStart 1;
        OProgressAddTask 2;
        OEventWait 0 true; OErrRecv 0 None; OProgressRemaining 1;
        OProgressStart; OQueueClose 0;
        OEventWait 1 true;
        OErrRecv 1 (Some (Pickle (TestException "AssertionError"
                                                 "invariant broken")));
        OProgressStop;
        OPrintTraceback (TestException "AssertionError" "invariant broken");
        OPrint "Process #1 failed with an exception above.";
        OInput "n"; OEventClear 1; OErrSend 1 false; OEventWaitSet 1;
        OProgressStart; OProgressRemaining 0; OQueueClose 1;
        OProgressFinished].
Proof. cbv zeta. repeat split. Qed.

(** ** The node launcher *)

(** C8.  A network kind other than "anvil", "ganache" and "hardhat" makes
    [_setup] raise the error that names the kind (Python's [ValueError],
    the configuration error of the fuzzer) without any action of the
    worker, so before a subprocess is spawned; each of the three kinds
    spawns its fixed argument vector with [--port] bound to the port. *)
Theorem setup_network_kinds (port : Z) (network_id : string) :
  (network_id <> "anvil" -> network_id <> "ganache" ->
   network_id <> "hardhat" ->
   (forall s,
      _setup port network_id s
      = (Raise (ValueError ("Unknown network ID '" ++ network_id ++ "'")%string),
         s))
   /\ (forall Coverage env f index random_seed log_file tee coverage,
         _run Coverage env f index port random_seed log_file tee network_id
              coverage wstate0
         = (Raise (ValueError ("Unknown network ID '" ++ network_id
                               ++ "'")%string),
            {| ctx_managers := [];
               handler_set := false;
               trace := [PicklingSupportInstall; RandomSeed random_seed] |})))
  /\ (forall s,
        _setup port "anvil" s
        = (Ok tt,
           {| ctx_managers := ctx_managers s;
              handler_set := handler_set s;
              trace := trace s
                       ++ [Popen ["anvil"; "--port"; str port;
                                  "--prune-history"; "--gas-price"; "0";
                                  "--base-fee"; "0"; "--steps-tracing"]] |}))
  /\ (forall s,
        _setup port "ganache" s
        = (Ok tt,
           {| ctx_managers := ctx_managers s;
              handler_set := handler_set s;
              trace := trace s
                       ++ [Popen ["ganache-cli"; "--port"; str port;
                                  "-g"; "0"; "-k"; "istanbul"]] |}))
  /\ (forall s,
        _setup port "hardhat" s
        = (Ok tt,
           {| ctx_managers := ctx_managers s;
              handler_set := handler_set s;
              trace := trace s
                       ++ [Popen ["npx"; "hardhat"; "node"; "--port";
                                  str port]] |})).
Proof.
  split; [|repeat split; reflexivity].
  intros Ha Hg Hh.
  assert (Hs : forall s,
             _setup port network_id s
             = (Raise (ValueError ("Unknown network ID '" ++ network_id
                                   ++ "'")%string), s)).
  { intro s. unfold _setup, _setup_args.
    apply String.eqb_neq in Ha, Hg, Hh. now rewrite Ha, Hg, Hh. }
  split; [exact Hs|].
  intros. unfold _run, bind. simpl. now rewrite Hs.
Qed.

Lemma setup_network_kinds_witness :
  _setup 8545 "geth" wstate0
  = (Raise (ValueError "Unknown network ID 'geth'"), wstate0).
Proof.
  destruct (setup_network_kinds 8545 "geth") as [H _].
  apply H; discriminate.
Defined.

(** ** Seeds and the spawn loop *)

Lemma Zeqb_eq : forall a b : Z, (a =? b) = true <-> a = b.
Proof. intros. apply Z.eqb_eq. Qed.

Lemma set_fresh {V} (k : Z) (v : V) (d : PyDict.t) :
  ~ In k (PyDict.keys d) -> PyDict.set Z.eqb k v d = d ++ [(k, v)].
Proof.
  induction d as [|[k' v'] r IH]; simpl; [reflexivity|].
  intro H. destruct (Z.eqb_spec k k') as [->|N].
  - exfalso. apply H. now left.
  - rewrite IH; [reflexivity|]. intro Hin. apply H. now right.
Qed.

Lemma range_length (n : Z) : List.length (range n) = Z.to_nat n.
Proof. unfold range. now rewrite length_map, length_seq. Qed.

Lemma range_NoDup (n : Z) : NoDup (range n).
Proof.
  unfold range. apply Injective_map_NoDup.
  - intros a b. apply Nat2Z.inj.
  - apply seq_NoDup.
Qed.

Lemma pad_seeds_spec entropy (k : nat) :
  forall l pos,
    fst (pad_seeds entropy k l pos)
    = l ++ map (fun j => map entropy (seq (pos + 8 * j) 8)) (seq 0 k).
Proof.
  induction k as [|k IH]; intros l pos.
  - simpl. now rewrite app_nil_r.
  - cbn [pad_seeds os_urandom]. rewrite IH, <- app_assoc. f_equal.
    change (seq 0 (S k)) with (0%nat :: seq 1 k). rewrite map_cons.
    rewrite Nat.mul_0_r, Nat.add_0_r. cbn [app]. f_equal.
    rewrite <- seq_shift, map_map. apply map_ext. intro j.
    replace (pos + 8 + 8 * j)%nat with (pos + 8 * S j)%nat by lia.
    reflexivity.
Qed.

Lemma generated_seeds_length entropy k :
  List.length (generated_seeds entropy k) = k
  /\ Forall (fun seed : bytes => List.length seed = 8%nat)
            (generated_seeds entropy k).
Proof.
  unfold generated_seeds. split.
  - now rewrite length_map, length_seq.
  - apply Forall_forall. intros seed Hin. apply in_map_iff in Hin as [j [<- _]].
    now rewrite length_map, length_seq.
Qed.

Lemma make_random_seeds_pad entropy (process_count : Z) (seeds : list bytes) :
  len seeds <= process_count ->
  make_random_seeds entropy process_count seeds
  = seeds ++ generated_seeds entropy (Z.to_nat process_count - List.length seeds).
Proof.
  intro H. unfold make_random_seeds, len in *.
  destruct (Z.ltb_spec (Z.of_nat (List.length seeds)) process_count) as [Hlt|Hge].
  - rewrite pad_seeds_spec. unfold generated_seeds. f_equal.
    replace (Z.to_nat (process_count - Z.of_nat (List.length seeds)))
      with (Z.to_nat process_count - List.length seeds)%nat by lia.
    reflexivity.
  - replace (Z.to_nat process_count - List.length seeds)%nat with 0%nat by lia.
    simpl. now rewrite app_nil_r.
Qed.

Lemma make_random_seeds_surplus entropy (process_count : Z) (seeds : list bytes) :
  process_count < len seeds ->
  make_random_seeds entropy process_count seeds = seeds.
Proof.
  intro H. unfold make_random_seeds.
  destruct (Z.ltb_spec (len seeds) process_count); [lia|reflexivity].
Qed.

Section SpawnFacts.
Context {Coverage Snapshot : Type}.
Variable new_Coverage : Coverage.
Variable sanitize_filename : string -> string.
Variable entropy : nat -> Byte.byte.
Variable fuzz_test : fuzz_fn Coverage.
Variable logs_dir : string.
Variable passive : bool.
Variable network_id : string.
Variable cov_proc_num : Z.

#[local] Abbreviation spawned' :=
  (spawned Coverage new_Coverage sanitize_filename fuzz_test logs_dir passive
           network_id cov_proc_num).

Lemma spawned_keys items : PyDict.keys (spawned' items) = map fst items.
Proof. unfold PyDict.keys, spawned. rewrite map_map. reflexivity. Qed.

Lemma spawned_seeds items :
  map a_seed (PyDict.values (spawned' items)) = map snd items.
Proof. unfold PyDict.values, spawned. rewrite !map_map. reflexivity. Qed.

Lemma add_log_add_log (evs1 evs2 : list oevent) (s : ostate Snapshot) :
  add_log evs2 (add_log evs1 s) = add_log (evs1 ++ evs2) s.
Proof. unfold add_log. cbn. now rewrite app_assoc. Qed.

Lemma add_log_nil (s : ostate Snapshot) : add_log [] s = s.
Proof. destruct s. unfold add_log. cbn. now rewrite app_nil_r. Qed.

(** The spawn loop on fresh indices: the table it returns, and the
    state it leaves, one seed line and one [p.start()] per pair. *)
Lemma spawn_loop_run items :
  forall processes (s : ostate Snapshot),
    NoDup (map fst items) ->
    (forall i, In i (map fst items) -> ~ In i (PyDict.keys processes)) ->
    spawn_loop Coverage new_Coverage Snapshot sanitize_filename fuzz_test
               logs_dir passive network_id cov_proc_num items processes s
    = (Ok (processes ++ spawned' items), add_log (spawn_events items) s).
Proof.
  induction items as [|[i seed] r IH]; intros processes s Hnd Hfresh.
  - cbn [spawn_loop spawn_events flat_map spawned map].
    now rewrite app_nil_r, add_log_nil.
  - cbn [spawn_loop]. unfold bind at 1. cbn [oemit]. unfold bind at 1.
    cbn [oemit]. cbn [map fst] in Hnd, Hfresh.
    apply NoDup_cons_iff in Hnd as [Hni Hnd].
    rewrite set_fresh by (apply Hfresh; now left).
    rewrite IH; [| exact Hnd |].
    + unfold spawned. cbn [map fst snd]. rewrite <- app_assoc. cbn [app].
      f_equal. unfold add_log, spawn_events.
      cbn [flat_map fst snd olog stdin exported_coverages
           exported_coverages_per_trans app].
      now rewrite <- !app_assoc.
    + intros j Hj. unfold PyDict.keys. rewrite map_app. cbn [map fst].
      intro Hin. apply in_app_or in Hin as [Hin|[<-|[]]].
      * apply (Hfresh j); [now right|exact Hin].
      * contradiction.
Qed.

Lemma spawn_loop_spec items :
  forall processes (s : ostate Snapshot),
    NoDup (map fst items) ->
    (forall i, In i (map fst items) -> ~ In i (PyDict.keys processes)) ->
    exists s',
      spawn_loop Coverage new_Coverage Snapshot sanitize_filename fuzz_test
                 logs_dir passive network_id cov_proc_num items processes s
      = (Ok (processes ++ spawned' items), s').
Proof.
  intros processes s Hnd Hfresh. eexists.
  now apply spawn_loop_run.
Qed.

Lemma combine_range_NoDup (process_count : Z) (m : list bytes) :
  NoDup (map fst (combine (range process_count) m)).
Proof.
  assert (H : forall (l : list Z) (m : list bytes),
             NoDup l -> NoDup (map fst (combine l m))).
  { clear. induction l as [|x l IHl]; intros [|y m] Hl; cbn [combine map];
      try constructor.
    - apply NoDup_cons_iff in Hl as [Hx _]. intro Hin.
      apply in_map_iff in Hin as [[a b] [Ha Hin]].
      cbn in Ha. subst a. apply in_combine_l in Hin. contradiction.
    - apply NoDup_cons_iff in Hl as [_ Hl]. auto. }
  apply H, range_NoDup.
Qed.

(** [fuzz] up to the end of the spawn loop. *)
Lemma spawn_run (process_count : Z) (seeds : list bytes) (s : ostate Snapshot) :
  spawn Coverage new_Coverage Snapshot sanitize_filename entropy fuzz_test
        logs_dir passive network_id cov_proc_num process_count seeds s
  = (Ok (spawned' (combine (range process_count)
                          (make_random_seeds entropy process_count seeds))),
     add_log (spawn_events
                (combine (range process_count)
                         (make_random_seeds entropy process_count seeds)))
             s).
Proof.
  unfold spawn. rewrite spawn_loop_run; [reflexivity| |intros i _ []].
  apply combine_range_NoDup.
Qed.

Lemma spawn_spec (process_count : Z) (seeds : list bytes) (s : ostate Snapshot) :
  exists s',
    spawn Coverage new_Coverage Snapshot sanitize_filename entropy fuzz_test
          logs_dir passive network_id cov_proc_num process_count seeds s
    = (Ok (spawned' (combine (range process_count)
                            (make_random_seeds entropy process_count seeds))),
       s').
Proof. eexists. apply spawn_run. Qed.

Lemma spawned_indices items :
  map a_index (PyDict.values (spawned' items)) = map fst items.
Proof. unfold PyDict.values, spawned. rewrite !map_map. reflexivity. Qed.
End SpawnFacts.

(** The spawn loop starts one process per pair, in order. *)
Lemma spawn_events_starts (items : list (Z * bytes)) :
  filter is_process_start (spawn_events items)
  = map OProcessStart (map fst items).
Proof.
  induction items as [|[i seed] r IH]; [reflexivity|].
  cbn [spawn_events flat_map app filter is_process_start map fst].
  unfold spawn_events in IH. now rewrite IH.
Qed.

Lemma combine_fst_firstn {A B} (l : list A) (m : list B) :
  map fst (combine l m) = firstn (List.length m) l.
Proof.
  revert m. induction l as [|x l IH]; intros [|y m]; simpl; try reflexivity.
  now rewrite IH.
Qed.

Lemma combine_snd_firstn {A B} (l : list A) (m : list B) :
  map snd (combine l m) = firstn (List.length l) m.
Proof.
  revert m. induction l as [|x l IH]; intros [|y m]; simpl; try reflexivity.
  now rewrite IH.
Qed.

Section CampaignFacts.
Context {Coverage Snapshot : Type}.
Variable new_Coverage : Coverage.
Variable sanitize_filename : string -> string.
Variable entropy : nat -> Byte.byte.
Variable fuzz_test : fuzz_fn Coverage.
Variable logs_dir : string.
Variable passive : bool.
Variable network_id : string.
Variable cov_proc_num : Z.

#[local] Abbreviation spawn' :=
  (spawn Coverage new_Coverage Snapshot sanitize_filename entropy fuzz_test
         logs_dir passive network_id cov_proc_num).

(** C3 (as amended).  When [process_count] is at least the number of
    supplied seeds, the spawn loop starts exactly [process_count] worker
    processes, one [p.start()] per index [0 .. process_count - 1], in
    order, each after the line that announces its seed; the worker in
    slot [i] runs with index [i], and the workers' seeds are the supplied
    seeds, in order, followed by [process_count - |seeds|] seeds read
    from [os.urandom(8)], each 8 bytes long whatever the length of the
    supplied seeds. *)
Theorem spawn_pads_seeds (process_count : Z) (seeds : list bytes)
        (s : ostate Snapshot) :
  len seeds <= process_count ->
  exists processes generated,
    spawn' process_count seeds s
    = (Ok processes,
       add_log (spawn_events (combine (range process_count)
                                      (seeds ++ generated))) s)
    /\ filter is_process_start
              (spawn_events (combine (range process_count)
                                     (seeds ++ generated)))
       = map OProcessStart (range process_count)
    /\ len processes = process_count
    /\ PyDict.keys processes = range process_count
    /\ map a_index (PyDict.values processes) = range process_count
    /\ map a_seed (PyDict.values processes) = seeds ++ generated
    /\ generated
       = generated_seeds entropy
           (Z.to_nat process_count - List.length seeds)
    /\ len generated = process_count - len seeds
    /\ Forall (fun seed : bytes => List.length seed = 8%nat) generated.
Proof.
  intro Hle.
  pose proof (spawn_run new_Coverage sanitize_filename entropy fuzz_test
                logs_dir passive network_id cov_proc_num process_count seeds
                s) as Hs.
  rewrite (make_random_seeds_pad entropy _ _ Hle) in Hs.
  destruct (generated_seeds_length
              entropy (Z.to_nat process_count - List.length seeds))
    as [Hlen Hall].
  set (generated := generated_seeds
                      entropy (Z.to_nat process_count - List.length seeds)) in *.
  assert (Hrs : List.length (seeds ++ generated) = Z.to_nat process_count).
  { rewrite length_app, Hlen. unfold len in Hle. lia. }
  assert (Hfst : map fst (combine (range process_count) (seeds ++ generated))
                 = range process_count).
  { rewrite combine_fst_firstn, Hrs, <- (range_length process_count).
    apply firstn_all. }
  eexists. exists generated. split; [exact Hs|].
  split; [now rewrite spawn_events_starts, Hfst|].
  split; [|split; [|split; [|split; [|split; [reflexivity|split]]]]].
  - unfold len, spawned. rewrite length_map, length_combine, range_length, Hrs.
    unfold len in Hle. lia.
  - now rewrite spawned_keys.
  - now rewrite spawned_indices.
  - rewrite spawned_seeds, combine_snd_firstn, range_length, <- Hrs.
    apply firstn_all.
  - unfold len in *. rewrite Hlen. lia.
  - exact Hall.
Qed.

(** C9.  When more seeds are supplied than [process_count] (a count, so
    not negative), the spawn loop starts exactly [process_count] worker
    processes, one [p.start()] per index [0 .. process_count - 1], in
    order, and nothing else; the worker in slot [i] runs with index [i]
    and the workers' seeds are the first [process_count] seeds, in order:
    the other seeds are neither announced nor given a process. *)
Theorem spawn_ignores_surplus_seeds (process_count : Z) (seeds : list bytes)
        (s : ostate Snapshot) :
  0 <= process_count ->
  process_count < len seeds ->
  exists processes,
    spawn' process_count seeds s
    = (Ok processes,
       add_log (spawn_events
                  (combine (range process_count)
                           (firstn (Z.to_nat process_count) seeds))) s)
    /\ filter is_process_start
              (spawn_events
                 (combine (range process_count)
                          (firstn (Z.to_nat process_count) seeds)))
       = map OProcessStart (range process_count)
    /\ len processes = process_count
    /\ PyDict.keys processes = range process_count
    /\ map a_index (PyDict.values processes) = range process_count
    /\ map a_seed (PyDict.values processes)
       = firstn (Z.to_nat process_count) seeds.
Proof.
  intros H0 Hlt.
  pose proof (spawn_run new_Coverage sanitize_filename entropy fuzz_test
                logs_dir passive network_id cov_proc_num process_count seeds
                s) as Hs.
  rewrite (make_random_seeds_surplus entropy _ _ Hlt) in Hs.
  unfold len in Hlt.
  assert (Hcut : combine (range process_count) seeds
                 = combine (range process_count)
                           (firstn (Z.to_nat process_count) seeds)).
  { rewrite <- (range_length process_count).
    generalize (range process_count) as l. clear.
    intro l. revert seeds.
    induction l as [|x l IH]; intros [|y m]; cbn; try reflexivity.
    now rewrite <- IH. }
  assert (Hfst : map fst (combine (range process_count) seeds)
                 = range process_count).
  { rewrite combine_fst_firstn. apply firstn_all2. rewrite range_length. lia. }
  eexists. split; [rewrite <- Hcut; exact Hs|]. rewrite <- Hcut.
  split; [now rewrite spawn_events_starts, Hfst|].
  split; [|split; [|split]].
  - unfold len, spawned. rewrite length_map, length_combine, range_length. lia.
  - now rewrite spawned_keys.
  - now rewrite spawned_indices.
  - now rewrite spawned_seeds, combine_snd_firstn, range_length.
Qed.

End CampaignFacts.

Lemma spawn_pads_seeds_witness :
  let r := spawn unit tt unit (fun n => n) zero_entropy passing_test "logs"
                 false "anvil" 0 3 [repeat Byte.x01 8; repeat Byte.x02 8]
                 (ostate0 (Snapshot := unit) []) in
  filter is_process_start (olog (snd r))
  = [OProcessStart 0; OProcessStart 1; OProcessStart 2]
  /\ exists processes,
       fst r = Ok processes
       /\ map a_seed (PyDict.values processes)
          = [repeat Byte.x01 8; repeat Byte.x02 8; repeat Byte.x00 8].
Proof.
  assert (H : len [repeat Byte.x01 8; repeat Byte.x02 8] <= 3)
    by (unfold len; simpl; lia).
  destruct (spawn_pads_seeds (Snapshot := unit) tt (fun n => n) zero_entropy
              passing_test "logs" false "anvil" 0 3
              [repeat Byte.x01 8; repeat Byte.x02 8] (ostate0 []) H)
    as (processes & generated & Hs & Hstarts & _ & _ & _ & Hseeds & Hgen & _).
  cbv zeta. rewrite Hs. cbn [fst snd add_log olog ostate0 app].
  split; [exact Hstarts|].
  exists processes. split; [reflexivity|].
  rewrite Hseeds, Hgen. reflexivity.
Defined.

(** C3, the claim as stated fails: with one supplied seed of 4 bytes and
    two workers, worker 1 gets an 8-byte seed, not one of the length of
    the supplied seeds. *)
Lemma spawn_seed_length_counterexample :
  Forall (fun seed : bytes => List.length seed = 4%nat) [repeat Byte.x01 4]
  /\ len [repeat Byte.x01 4] <= 2
  /\ exists processes s',
       spawn unit tt unit (fun n => n) zero_entropy passing_test "logs" false
             "anvil" 0 2 [repeat Byte.x01 4] (ostate0 (Snapshot := unit) [])
       = (Ok processes, s')
       /\ option_map (fun p => List.length (a_seed p))
                     (PyDict.get Z.eqb 1 processes) = Some 8%nat
       /\ ~ Forall (fun p : run_args unit => List.length (a_seed p) = 4%nat)
                   (PyDict.values processes).
Proof.
  split; [repeat constructor|]. split; [unfold len; simpl; lia|].
  destruct (spawn_spec (Snapshot := unit) tt (fun n => n) zero_entropy
              passing_test "logs" false "anvil" 0 2 [repeat Byte.x01 4]
              (ostate0 [])) as [s' Hs'].
  eexists. exists s'. split; [exact Hs'|]. split; [reflexivity|].
  intro H. vm_compute in H. inversion H as [|? ? _ H1]; subst.
  inversion H1 as [|? ? H2 _]; subst. discriminate H2.
Qed.

Lemma spawn_ignores_surplus_seeds_witness :
  let r := spawn unit tt unit (fun n => n) zero_entropy passing_test "logs"
                 false "anvil" 0 2
                 [repeat Byte.x01 8; repeat Byte.x02 8; repeat Byte.x03 8]
                 (ostate0 (Snapshot := unit) []) in
  filter is_process_start (olog (snd r)) = [OProcessStart 0; OProcessStart 1]
  /\ exists processes,
       fst r = Ok processes
       /\ map a_seed (PyDict.values processes)
          = [repeat Byte.x01 8; repeat Byte.x02 8].
Proof.
  assert (H0 : 0 <= 2) by lia.
  assert (H : 2 < len [repeat Byte.x01 8; repeat Byte.x02 8; repeat Byte.x03 8])
    by (unfold len; simpl; lia).
  destruct (spawn_ignores_surplus_seeds (Snapshot := unit) tt (fun n => n)
              zero_entropy passing_test "logs" false "anvil" 0 2
              [repeat Byte.x01 8; repeat Byte.x02 8; repeat Byte.x03 8]
              (ostate0 []) H0 H)
    as (processes & Hs & Hstarts & _ & _ & _ & Hseeds).
  cbv zeta. rewrite Hs. cbn [fst snd add_log olog ostate0 app].
  split; [exact Hstarts|].
  exists processes. split; [reflexivity|exact Hseeds].
Defined.

(** ** The worker *)

Lemma for_each_emit {A} (f : A -> wevent) (l : list A) :
  forall s,
    for_each l (fun x => emit (f x)) s
    = (Ok tt, {| ctx_managers := ctx_managers s;
                 handler_set := handler_set s;
                 trace := trace s ++ map f l |}).
Proof.
  induction l as [|x l IH]; intros [c h t].
  - simpl. now rewrite app_nil_r.
  - cbn [for_each]. unfold bind. cbn [emit ctx_managers handler_set trace].
    rewrite IH. cbn [ctx_managers handler_set trace map].
    now rewrite <- app_assoc.
Qed.

Lemma connect_loop_ok env url (refused : nat) :
  forall k s,
    (refused + k <= budget env)%nat ->
    connect_loop env url refused k s
    = (Ok tt, {| ctx_managers := ctx_managers s;
                 handler_set := handler_set s;
                 trace := trace s ++ connect_trace url refused |}).
Proof.
  induction refused as [|r IH]; intros k [c h t] Hk.
  - reflexivity.
  - cbn [connect_loop]. unfold bind at 1 2 3.
    cbn [emit ctx_managers handler_set trace].
    destruct (Nat.leb_spec (budget env) k) as [Hle|Hgt]; [lia|].
    rewrite IH by lia. cbn [ctx_managers handler_set trace connect_trace].
    rewrite <- !app_assoc. reflexivity.
Qed.

(** What the handler does from any state, for each way pickle, the
    orchestrator and the debugger may behave. *)
Lemma exception_handler_run env (e : exn) (s : wstate) :
  exception_handler env e s
  = match pickle_dumps e with
    | inl err =>
        (Raise err,
         {| ctx_managers := [];
            handler_set := handler_set s;
            trace := trace s ++ map Exit (ctx_managers s) |})
    | inr p =>
        match attach_reply env with
        | None =>
            (Hang,
             {| ctx_managers := [];
                handler_set := handler_set s;
                trace := trace s ++ map Exit (ctx_managers s)
                         ++ [ErrSend (Some p); FinishedSet] |})
        | Some a =>
            ((if a then match debugger_exit env with
                        | Some e' => Raise e'
                        | None => Ok tt
                        end
              else Ok tt),
             {| ctx_managers := [];
                handler_set := handler_set s;
                trace := trace s ++ map Exit (ctx_managers s)
                         ++ [ErrSend (Some p); FinishedSet; ErrRecv a]
                         ++ (if a then [ReopenStdin; AttachDebugger e] else [])
                         ++ [FinishedSet] |})
        end
    end.
Proof.
  destruct s as [c h t]. unfold exception_handler.
  unfold bind at 1. cbn [get_ctx_managers ctx_managers].
  unfold bind at 1. rewrite for_each_emit. cbn [ctx_managers handler_set trace].
  unfold bind at 1. cbn [put_ctx_managers ctx_managers handler_set trace].
  destruct (pickle_dumps e) as [err|p]; [reflexivity|].
  unfold try_finally, err_recv, attach_debugger, bind.
  destruct (attach_reply env) as [[|]|]; cbn;
    [destruct (debugger_exit env); cbn| |];
    rewrite <- ?app_assoc; reflexivity.
Qed.

(** *** The test's arguments *)

Lemma build_args_acc Coverage env (f : fuzz_fn Coverage)
      (coverage : option Coverage) (names : list string) :
  forall args,
    build_args Coverage env f coverage names args
    = match first_unknown names with
      | Some arg =>
          inl (ValueError ("Unable to set value for '" ++ arg
                           ++ "' argument in '" ++ fn_name f
                           ++ "' function.")%string)
      | None =>
          inr (args ++ repeat (coverage_arg env coverage) (List.length names))
      end.
Proof.
  unfold first_unknown.
  induction names as [|arg r IH]; intro args; cbn [build_args find].
  - cbn. now rewrite app_nil_r.
  - destruct (arg =? "coverage")%string; cbn [negb]; [|reflexivity].
    destruct coverage as [c|]; rewrite IH;
      (destruct (find _ r); [reflexivity|]);
      cbn [List.length repeat coverage_arg]; now rewrite <- app_assoc.
Qed.

(** The argument loop only ever raises a [ValueError]. *)
Lemma build_args_error Coverage env (f : fuzz_fn Coverage)
      (coverage : option Coverage) (e : exn) :
  build_args Coverage env f coverage (fn_args f) [] = inl e ->
  is_exception e = true.
Proof.
  rewrite build_args_acc. destruct (first_unknown (fn_args f)); [|discriminate].
  now intros [= <-].
Qed.

Lemma unknown_parameter_rejected Coverage env
      (f : fuzz_fn Coverage) (coverage : option Coverage)
      (before : list string) (arg : string) (after : list string) :
  fn_args f = before ++ arg :: after ->
  Forall (fun a => a = "coverage") before ->
  arg <> "coverage" ->
  exists e, build_args Coverage env f coverage (fn_args f) [] = inl e.
Proof.
  intros -> Hall Hne. rewrite build_args_acc. unfold first_unknown.
  assert (H : find (fun a => negb (a =? "coverage")%string)
                   (before ++ arg :: after) = Some arg).
  { induction Hall as [|a l -> _ IH]; cbn [app find].
    - apply String.eqb_neq in Hne. now rewrite Hne.
    - cbn. exact IH. }
  rewrite H. eauto.
Qed.

(** *** [_run], step by step *)

(** The call of the test, with the handler registered. *)
Lemma call_fuzz_test_run Coverage env (f : fuzz_fn Coverage)
      (args : list (test_arg Coverage)) (s : wstate) :
  handler_set s = true ->
  call_fuzz_test Coverage env f args s
  = match fn_body f args with
    | Ok _ => (Ok tt, performed [CallTest (fn_name f)] s)
    | Hang => (Hang, performed [CallTest (fn_name f)] s)
    | Raise e =>
        if is_exception e then
          match exception_handler env e (performed [CallTest (fn_name f)] s)
          with
          | (Ok _, s') => (Raise e, s')
          | r => r
          end
        else (Raise e, performed [CallTest (fn_name f)] s)
    end.
Proof.
  destruct s as [c h t]. cbn [handler_set]. intros ->.
  unfold call_fuzz_test, performed. unfold bind at 1.
  cbn [emit ctx_managers handler_set trace].
  destruct (fn_body f args) as [[]|e|]; try reflexivity.
  unfold bind at 1. cbn [get_exception_handler handler_set andb].
  unfold bind at 1.
  destruct (is_exception e); [|reflexivity].
  destruct (exception_handler env e _) as [[[]|e'|] s']; reflexivity.
Qed.

Lemma run_core_start Coverage env (f : fuzz_fn Coverage) (index : Z)
      (random_seed : bytes) (coverage : option Coverage) (s : wstate) :
  _run_core Coverage env f index random_seed coverage s
  = match build_args Coverage env f coverage (fn_args f) [] with
    | inl e => raise e
    | inr args =>
        call_fuzz_test Coverage env f args ;;
        emit (ErrSend None) ;;
        emit FinishedSet
    end
      {| ctx_managers := ctx_managers s;
         handler_set := handler_set s;
         trace := trace s
                  ++ [Print ("Using seed '" ++ hex random_seed
                             ++ "' for process #" ++ str index)%string;
                      ChainReset (reset_supported env)]
                  ++ (if reset_supported env then []
                      else [LoggingWarning
                              "Development chain does not support resetting"]) |}.
Proof.
  destruct s as [c h t]. unfold _run_core.
  unfold bind at 1 2. cbn [emit ctx_managers handler_set trace].
  unfold bind at 1.
  destruct (reset_supported env); cbn [ret emit ctx_managers handler_set trace];
    rewrite <- ?app_assoc; cbn [app]; rewrite ?app_nil_r; reflexivity.
Qed.

(** The cleanup of [_run], from any state. *)
Lemma run_cleanup (log_file : string) (s : wstate) :
  (cms <- get_ctx_managers ;;
   for_each cms (fun c => emit (Exit c)) ;;
   emit ChainExit ;;
   kill_node log_file) s
  = (Ok tt, closed log_file s).
Proof.
  destruct s as [c h t]. unfold bind at 1. cbn [get_ctx_managers ctx_managers].
  unfold bind at 1. rewrite for_each_emit. cbn [ctx_managers handler_set trace].
  unfold kill_node. unfold bind, emit.
  cbn [ctx_managers handler_set trace]. unfold closed, kill_trace.
  cbn [ctx_managers handler_set trace].
  rewrite <- !app_assoc. reflexivity.
Qed.

(** [_run] once the node is launched and accepts a connection: what
    [_run_core] does decides how it ends.  A blocked [_run_core] never
    reaches the cleanup; an exception that is not an [Exception] leaves
    [_run] after the cleanup. *)
Lemma run_by_core Coverage env (f : fuzz_fn Coverage)
      (index port : Z) (random_seed : bytes) (log_file : string) (tee : bool)
      (network_id : string) (coverage : option Coverage)
      (popen_args : list string) :
  _setup_args port network_id = inr popen_args ->
  (refusals env <= budget env)%nat ->
  _run Coverage env f index port random_seed log_file tee network_id coverage
       wstate0
  = match _run_core Coverage env f index random_seed coverage
            {| ctx_managers := log_resources tee log_file;
               handler_set := true;
               trace := [PicklingSupportInstall; RandomSeed random_seed;
                         Popen popen_args; SetExceptionHandler]
                        ++ connect_trace
                             ("http://localhost:" ++ str port)%string
                             (refusals env)
                        ++ (if tee then []
                            else [LoggingBasicConfig log_file;
                                  OpenFile log_file "w"])
                        ++ map Enter (log_resources tee log_file) |}
    with
    | (Ok _, s') => (Ok tt, closed log_file s')
    | (Raise e, s') => (swallowed e, closed log_file s')
    | (Hang, s') => (Hang, s')
    end.
Proof.
  intros Hargs Hconn. unfold _run, _setup. rewrite Hargs.
  unfold bind at 1 2 3 4 5.
  cbn [put_ctx_managers emit set_exception_handler ctx_managers handler_set
       trace wstate0 app].
  unfold bind at 1. rewrite connect_loop_ok by lia.
  cbn [ctx_managers handler_set trace].
  unfold try_finally, try_except_pass.
  assert (Hacq :
            forall t,
              (acquire_log tee log_file;;
               cms <- get_ctx_managers;;
               for_each cms (fun c : ctx_manager => emit (Enter c));;
               _run_core Coverage env f index random_seed coverage)
                {| ctx_managers := []; handler_set := true; trace := t |}
              = _run_core Coverage env f index random_seed coverage
                  {| ctx_managers := log_resources tee log_file;
                     handler_set := true;
                     trace := t
                              ++ (if tee then []
                                  else [LoggingBasicConfig log_file;
                                        OpenFile log_file "w"])
                              ++ map Enter (log_resources tee log_file) |}).
  { intro t. destruct tee; unfold bind, acquire_log; cbn;
      rewrite <- ?app_assoc; reflexivity. }
  rewrite Hacq. cbn [app]. rewrite <- ?app_assoc. cbn [app].
  destruct (_run_core Coverage env f index random_seed coverage _)
    as [[[]|e|] s']; [| |reflexivity].
  - now rewrite run_cleanup.
  - unfold swallowed. destruct (is_exception e); now rewrite run_cleanup.
Qed.

(** The state in which the test's arguments are built. *)
Lemma run_core_state Coverage env (f : fuzz_fn Coverage)
      (index port : Z) (random_seed : bytes) (log_file : string) (tee : bool)
      (coverage : option Coverage) (popen_args : list string) :
  _run_core Coverage env f index random_seed coverage
            {| ctx_managers := log_resources tee log_file;
               handler_set := true;
               trace := [PicklingSupportInstall; RandomSeed random_seed;
                         Popen popen_args; SetExceptionHandler]
                        ++ connect_trace
                             ("http://localhost:" ++ str port)%string
                             (refusals env)
                        ++ (if tee then []
                            else [LoggingBasicConfig log_file;
                                  OpenFile log_file "w"])
                        ++ map Enter (log_resources tee log_file) |}
  = match build_args Coverage env f coverage (fn_args f) [] with
    | inl e => raise e
    | inr args =>
        call_fuzz_test Coverage env f args ;;
        emit (ErrSend None) ;;
        emit FinishedSet
    end
      {| ctx_managers := log_resources tee log_file;
         handler_set := true;
         trace := until_call index port random_seed log_file tee popen_args
                             (refusals env) (reset_supported env) |}.
Proof.
  rewrite run_core_start. cbn [ctx_managers handler_set trace].
  unfold until_call. rewrite <- ?app_assoc. reflexivity.
Qed.

Section RunTraces.
Variable Coverage : Type.
Variable env : worker_env.
Variable f : fuzz_fn Coverage.
Variables index port : Z.
Variable random_seed : bytes.
Variable log_file : string.
Variable tee : bool.
Variable network_id : string.
Variable coverage : option Coverage.
Variable popen_args : list string.

Hypothesis node_launched : _setup_args port network_id = inr popen_args.
Hypothesis node_connects : (refusals env <= budget env)%nat.

#[local] Abbreviation run :=
  (_run Coverage env f index port random_seed log_file tee network_id
        coverage wstate0).
#[local] Abbreviation before_call :=
  (until_call index port random_seed log_file tee popen_args (refusals env)
              (reset_supported env)).

(** Every run that got its connection starts with the same actions,
    whatever the test is. *)
Lemma run_starts : exists rest, trace (snd run) = before_call ++ rest.
Proof.
  rewrite (run_by_core Coverage env f index port random_seed log_file tee
             network_id coverage popen_args node_launched node_connects).
  rewrite run_core_state.
  destruct (build_args Coverage env f coverage (fn_args f) []) as [e|args].
  - unfold raise. unfold closed. cbn [snd trace]. eauto.
  - unfold bind at 1. rewrite call_fuzz_test_run by reflexivity.
    destruct (fn_body f args) as [[]|e|].
    + unfold bind, emit, performed, closed.
      cbn [snd trace ctx_managers handler_set].
      rewrite <- !app_assoc. eauto.
    + destruct (is_exception e).
      * rewrite exception_handler_run.
        unfold performed. cbn [ctx_managers handler_set trace].
        destruct (pickle_dumps e) as [err|p].
        -- unfold closed. cbn [snd trace ctx_managers handler_set].
           rewrite <- !app_assoc. eauto.
        -- destruct (attach_reply env) as [a|].
           ++ destruct a; [destruct (debugger_exit env)|];
                unfold closed; cbn [snd trace ctx_managers handler_set];
                rewrite <- !app_assoc; eauto.
           ++ cbn [snd trace]. rewrite <- !app_assoc. eauto.
      * unfold performed, closed. cbn [snd trace ctx_managers handler_set].
        rewrite <- !app_assoc. eauto.
    + unfold performed. cbn [snd trace]. eauto.
Qed.

Lemma run_bad_args_trace (e : exn) :
  build_args Coverage env f coverage (fn_args f) [] = inl e ->
  run
  = (Ok tt,
     {| ctx_managers := log_resources tee log_file;
        handler_set := true;
        trace := before_call
                 ++ map Exit (log_resources tee log_file)
                 ++ ChainExit :: kill_trace log_file |}).
Proof.
  intros Hbuild.
  rewrite (run_by_core Coverage env f index port random_seed log_file tee
             network_id coverage popen_args node_launched node_connects).
  rewrite run_core_state, Hbuild. unfold raise, swallowed.
  now rewrite (build_args_error Coverage env f coverage e Hbuild).
Qed.

Section Called.
Variable targs : list (test_arg Coverage).
Hypothesis arguments_built :
  build_args Coverage env f coverage (fn_args f) [] = inr targs.

Lemma run_passing_trace :
  fn_body f targs = Ok tt ->
  run
  = (Ok tt,
     {| ctx_managers := log_resources tee log_file;
        handler_set := true;
        trace := before_call
                 ++ [CallTest (fn_name f); ErrSend None; FinishedSet]
                 ++ map Exit (log_resources tee log_file)
                 ++ ChainExit :: kill_trace log_file |}).
Proof.
  intros Hbody.
  rewrite (run_by_core Coverage env f index port random_seed log_file tee
             network_id coverage popen_args node_launched node_connects).
  rewrite run_core_state, arguments_built.
  unfold bind at 1. rewrite call_fuzz_test_run by reflexivity. rewrite Hbody.
  unfold bind, emit, performed, closed.
  cbn [ctx_managers handler_set trace]. rewrite <- !app_assoc. reflexivity.
Qed.

(** The test never returns: the worker does nothing after the call. *)
Lemma run_hanging_trace :
  fn_body f targs = Hang ->
  run
  = (Hang,
     {| ctx_managers := log_resources tee log_file;
        handler_set := true;
        trace := before_call ++ [CallTest (fn_name f)] |}).
Proof.
  intros Hbody.
  rewrite (run_by_core Coverage env f index port random_seed log_file tee
             network_id coverage popen_args node_launched node_connects).
  rewrite run_core_state, arguments_built.
  unfold bind at 1. rewrite call_fuzz_test_run by reflexivity. rewrite Hbody.
  reflexivity.
Qed.


(** The test raises an [Exception] that pickle refuses with [err]: the
    handler exits the log resources and is left by [err]; nothing is
    sent. *)
Lemma run_unpicklable_trace (e err : exn) :
  fn_body f targs = Raise e ->
  is_exception e = true ->
  pickle_dumps e = inl err ->
  run
  = (swallowed err,
     {| ctx_managers := [];
        handler_set := true;
        trace := before_call ++ [CallTest (fn_name f)]
                 ++ map Exit (log_resources tee log_file)
                 ++ ChainExit :: kill_trace log_file |}).
Proof.
  intros Hbody Hexc Hdumps.
  rewrite (run_by_core Coverage env f index port random_seed log_file tee
             network_id coverage popen_args node_launched node_connects).
  rewrite run_core_state, arguments_built.
  unfold bind at 1. rewrite call_fuzz_test_run by reflexivity.
  rewrite Hbody, Hexc, exception_handler_run, Hdumps.
  unfold performed, closed. cbn [ctx_managers handler_set trace map app].
  rewrite <- !app_assoc. reflexivity.
Qed.

(** The test raises an [Exception] pickled as [p]. *)
Lemma run_failing_trace (e : exn) (p : pickled) :
  fn_body f targs = Raise e ->
  is_exception e = true ->
  pickle_dumps e = inr p ->
  run
  = let before :=
      failing_prefix index port random_seed log_file tee popen_args
                     (refusals env) (reset_supported env) (fn_name f) p in
    match attach_reply env with
    | None =>
        (Hang, {| ctx_managers := []; handler_set := true; trace := before |})
    | Some a =>
        ((if a then match debugger_exit env with
                    | Some e' => swallowed e'
                    | None => Ok tt
                    end
          else Ok tt),
         {| ctx_managers := [];
            handler_set := true;
            trace := before
                     ++ [ErrRecv a]
                     ++ (if a then [ReopenStdin; AttachDebugger e] else [])
                     ++ [FinishedSet; ChainExit]
                     ++ kill_trace log_file |})
    end.
Proof.
  intros Hbody Hexc Hdumps.
  rewrite (run_by_core Coverage env f index port random_seed log_file tee
             network_id coverage popen_args node_launched node_connects).
  rewrite run_core_state, arguments_built.
  unfold bind at 1. rewrite call_fuzz_test_run by reflexivity.
  rewrite Hbody, Hexc, exception_handler_run, Hdumps.
  unfold performed. cbn [ctx_managers handler_set trace]. cbv zeta.
  unfold failing_prefix, until_call.
  destruct (attach_reply env) as [a|].
  - destruct a; [destruct (debugger_exit env) as [e'|]|];
      unfold swallowed; rewrite ?Hexc;
      unfold closed; cbn [ctx_managers handler_set trace map app];
      repeat (first [rewrite <- app_assoc | progress cbn [app]]);
      reflexivity.
  - repeat (first [rewrite <- app_assoc | progress cbn [app]]). reflexivity.
Qed.
End Called.
End RunTraces.

Lemma connect_trace_quiet url n :
  existsb is_kill (connect_trace url n) = false
  /\ filter is_err_send (connect_trace url n) = [].
Proof. induction n as [|n [IH1 IH2]]; simpl; auto. Qed.


Lemma failing_prefix_until_call index port random_seed log_file tee popen_args
      n reset test_name p :
  failing_prefix index port random_seed log_file tee popen_args n reset
                 test_name p
  = until_call index port random_seed log_file tee popen_args n reset
    ++ [CallTest test_name]
    ++ map Exit (log_resources tee log_file)
    ++ [ErrSend (Some p); FinishedSet].
Proof.
  unfold failing_prefix, until_call. rewrite <- ?app_assoc. cbn [app].
  reflexivity.
Qed.

(** *** What the parts of a trace contain *)

Lemma entered_app (l1 l2 : list wevent) :
  entered (l1 ++ l2) = entered l1 ++ entered l2.
Proof.
  induction l1 as [|e l1 IH]; [reflexivity|].
  destruct e; cbn [app entered]; now rewrite ?IH.
Qed.

Lemma exited_app (l1 l2 : list wevent) :
  exited (l1 ++ l2) = exited l1 ++ exited l2.
Proof.
  induction l1 as [|e l1 IH]; [reflexivity|].
  destruct e; cbn [app exited]; now rewrite ?IH.
Qed.

Lemma entered_exited_map (l : list ctx_manager) :
  entered (map Enter l) = l /\ exited (map Enter l) = []
  /\ entered (map Exit l) = [] /\ exited (map Exit l) = l.
Proof.
  induction l as [|c l (H1 & H2 & H3 & H4)]; cbn; [auto|].
  now rewrite H1, H2, H3, H4.
Qed.

Lemma connect_trace_plain url n :
  entered (connect_trace url n) = []
  /\ exited (connect_trace url n) = []
  /\ filter is_finished_set (connect_trace url n) = []
  /\ filter is_call_test (connect_trace url n) = []
  /\ filter is_kill (connect_trace url n) = []
  /\ filter is_popen (connect_trace url n) = [].
Proof.
  induction n as [|n IH]; cbn; [repeat split; reflexivity|exact IH].
Qed.

Lemma filter_map_ctx (p : wevent -> bool) (g : ctx_manager -> wevent)
      (l : list ctx_manager) :
  (forall c, p (g c) = false) -> filter p (map g l) = [].
Proof.
  intro H. induction l as [|c l IH]; [reflexivity|]. cbn. now rewrite H.
Qed.

(** What the part of a run before the test's arguments are built
    contains. *)
Lemma until_call_facts index port random_seed log_file tee popen_args n reset :
  let tr := until_call index port random_seed log_file tee popen_args n
                       reset in
  entered tr = log_resources tee log_file
  /\ exited tr = []
  /\ filter is_err_send tr = []
  /\ filter is_finished_set tr = []
  /\ filter is_call_test tr = []
  /\ filter is_kill tr = []
  /\ filter is_popen tr = [Popen popen_args].
Proof.
  cbv zeta. unfold until_call.
  destruct (connect_trace_plain ("http://localhost:" ++ str port)%string n)
    as (C1 & C2 & C3 & C4 & C5 & C6).
  destruct (connect_trace_quiet ("http://localhost:" ++ str port)%string n)
    as (_ & C7).
  rewrite !entered_app, !exited_app, !filter_app, C1, C2, C3, C4, C5, C6, C7.
  destruct tee, reset; cbn; repeat split; reflexivity.
Qed.

Lemma kill_trace_facts log_file :
  entered (kill_trace log_file)
  = [LogFile log_file; RedirectStdout log_file; RedirectStderr log_file]
  /\ exited (kill_trace log_file)
     = [RedirectStderr log_file; RedirectStdout log_file; LogFile log_file]
  /\ filter is_kill (kill_trace log_file) = [Kill]
  /\ filter is_err_send (kill_trace log_file) = []
  /\ filter is_finished_set (kill_trace log_file) = []
  /\ filter is_call_test (kill_trace log_file) = [].
Proof. repeat split; reflexivity. Qed.
(** ** Tee or redirection *)

Lemma In_range (n i : Z) : In i (range n) <-> 0 <= i < n.
Proof.
  unfold range. rewrite in_map_iff. split.
  - intros [k [<- Hk]]. apply in_seq in Hk. lia.
  - intros H. exists (Z.to_nat i). split; [lia|]. apply in_seq. lia.
Qed.

(** The seed list is never shorter than the number of workers asked
    for. *)
Lemma make_random_seeds_enough entropy (process_count : Z)
      (seeds : list bytes) :
  (Z.to_nat process_count
   <= List.length (make_random_seeds entropy process_count seeds))%nat.
Proof.
  destruct (Z.le_gt_cases (len seeds) process_count) as [Hle|Hgt].
  - rewrite (make_random_seeds_pad entropy _ _ Hle), length_app.
    destruct (generated_seeds_length
                entropy (Z.to_nat process_count - List.length seeds))
      as [-> _].
    unfold len in Hle. lia.
  - rewrite make_random_seeds_surplus by lia. unfold len in Hgt. lia.
Qed.

Lemma zip_covers {A B} (l : list A) (m : list B) (x : A) :
  (List.length l <= List.length m)%nat ->
  In x l -> exists y, In (x, y) (combine l m).
Proof.
  revert m. induction l as [|a l IH]; intros m Hlen Hin; [destruct Hin|].
  destruct m as [|b m]; [cbn in Hlen; lia|].
  cbn [combine]. destruct Hin as [->|Hin]; [exists b; now left|].
  destruct (IH m) as [y Hy]; [cbn in Hlen; lia|exact Hin|].
  exists y. now right.
Qed.

Section TeeMode.
Context {Coverage Snapshot : Type}.
Variable new_Coverage : Coverage.
Variable sanitize_filename : string -> string.
Variable entropy : nat -> Byte.byte.
Variable fuzz_test : fuzz_fn Coverage.
Variable logs_dir : string.
Variable passive : bool.
Variable network_id : string.
Variable cov_proc_num : Z.

#[local] Abbreviation spawn' :=
  (spawn Coverage new_Coverage Snapshot sanitize_filename entropy fuzz_test
         logs_dir passive network_id cov_proc_num).
#[local] Abbreviation worker_args' :=
  (worker_args Coverage new_Coverage sanitize_filename fuzz_test logs_dir
               passive network_id cov_proc_num).

(** The table entry of a pair the spawn loop went through. *)
Lemma spawned_get (items : list (Z * bytes)) (i : Z) (seed : bytes) :
  NoDup (map fst items) ->
  In (i, seed) items ->
  PyDict.get Z.eqb i
             (spawned Coverage new_Coverage sanitize_filename fuzz_test
                      logs_dir passive network_id cov_proc_num items)
  = Some (worker_args' i seed).
Proof.
  induction items as [|[j sd] r IH]; intros Hnd Hin; [destruct Hin|].
  cbn [map fst] in Hnd. apply NoDup_cons_iff in Hnd as [Hj Hnd].
  cbn [spawned map PyDict.get fst snd].
  destruct Hin as [Heq|Hin].
  - injection Heq as -> ->. now rewrite Z.eqb_refl.
  - destruct (Z.eqb_spec i j) as [->|_]; [|now apply IH].
    exfalso. apply Hj. apply in_map_iff. exists (j, seed). auto.
Qed.

(** C10.  For every index [i] below [process_count] the spawn loop
    starts a process whose arguments carry [tee = passive and i == 0]:
    the tee is on exactly for worker 0 of a passive campaign.  That
    worker process, once its node is launched and connected, enters the
    tees of stdout and stderr to its log file when the tee is on; every
    other worker configures logging to its log file, opens the file for
    writing and enters it and the redirections of stdout and stderr
    into it.  It does so before [_run_core] prints its first line, so
    whatever the test does afterwards. *)
Theorem tee_only_for_passive_worker_0 (process_count : Z) (seeds : list bytes)
        (s : ostate Snapshot) :
  exists processes evs,
    spawn' process_count seeds s = (Ok processes, add_log evs s)
    /\ forall i,
         0 <= i < process_count ->
         In (OProcessStart i) evs
         /\ exists p,
              PyDict.get Z.eqb i processes = Some p
              /\ a_index p = i
              /\ a_tee p = (passive && (i =? 0))
              /\ (a_tee p = true <-> passive = true /\ i = 0)
              /\ forall (env : worker_env) (popen_args : list string),
                   _setup_args (a_port p) (a_network_id p) = inr popen_args ->
                   (refusals env <= budget env)%nat ->
                   exists rest,
                     trace (snd (_run Coverage env fuzz_test (a_index p)
                                      (a_port p) (a_seed p) (a_log_path p)
                                      (a_tee p) (a_network_id p)
                                      (a_coverage p) wstate0))
                     = [PicklingSupportInstall; RandomSeed (a_seed p);
                        Popen popen_args; SetExceptionHandler]
                       ++ connect_trace
                            ("http://localhost:" ++ str (a_port p))%string
                            (refusals env)
                       ++ (if passive && (i =? 0)
                           then [Enter (StdoutTee (a_log_path p));
                                 Enter (StderrTee (a_log_path p))]
                           else [LoggingBasicConfig (a_log_path p);
                                 OpenFile (a_log_path p) "w";
                                 Enter (LogFile (a_log_path p));
                                 Enter (RedirectStdout (a_log_path p));
                                 Enter (RedirectStderr (a_log_path p))])
                       ++ Print ("Using seed '" ++ hex (a_seed p)
                                 ++ "' for process #" ++ str i)%string
                          :: rest.
Proof.
  set (items := combine (range process_count)
                        (make_random_seeds entropy process_count seeds)).
  exists (spawned Coverage new_Coverage sanitize_filename fuzz_test logs_dir
                  passive network_id cov_proc_num items),
    (spawn_events items).
  split; [apply spawn_run|].
  intros i Hi.
  assert (Hfst : map fst items = range process_count).
  { subst items. rewrite combine_fst_firstn. apply firstn_all2.
    rewrite range_length. apply make_random_seeds_enough. }
  split.
  - apply (filter_In is_process_start).
    rewrite spawn_events_starts, Hfst. apply in_map. now apply In_range.
  - destruct (zip_covers (range process_count)
                (make_random_seeds entropy process_count seeds) i)
      as [seed Hseed].
    + rewrite range_length. apply make_random_seeds_enough.
    + now apply In_range.
    + exists (worker_args' i seed).
      split.
      { apply spawned_get; [|exact Hseed]. fold items. rewrite Hfst.
        apply range_NoDup. }
      cbn [worker_args a_index a_port a_seed a_log_path a_tee a_network_id
           a_coverage].
      split; [reflexivity|]. split; [reflexivity|]. split.
      * rewrite andb_true_iff, Z.eqb_eq. tauto.
      * intros env popen_args Hargs Hconn.
        destruct (run_starts Coverage env fuzz_test i (8545 + i) seed
                    (a_log_path (worker_args' i seed)) (passive && (i =? 0))
                    network_id
                    (a_coverage (worker_args' i seed)) popen_args Hargs Hconn)
          as [rest Hrest].
        cbn [worker_args a_log_path a_coverage] in Hrest.
        rewrite Hrest. unfold until_call.
        destruct (passive && (i =? 0)); cbn [log_resources map app];
          eexists; repeat (first [rewrite <- app_assoc | progress cbn [app]]);
          reflexivity.
Qed.
End TeeMode.

Lemma tee_only_for_passive_worker_0_witness :
  let r := spawn unit tt unit (fun n => n) zero_entropy passing_test "logs"
                 true "anvil" 0 2 [] (ostate0 (Snapshot := unit) []) in
  filter is_process_start (olog (snd r)) = [OProcessStart 0; OProcessStart 1]
  /\ (exists processes,
         fst r = Ok processes
         /\ option_map a_tee (PyDict.get Z.eqb 0 processes) = Some true
         /\ option_map a_tee (PyDict.get Z.eqb 1 processes) = Some false)
  /\ exists rest,
       trace (snd (_run unit detach_env passing_test 0 8545
                        (repeat Byte.x00 8)
                        "logs/tests.test_counter.test_fuzz_0.ansi" true
                        "anvil" None wstate0))
       = [PicklingSupportInstall; RandomSeed (repeat Byte.x00 8);
          Popen ["anvil"; "--port"; "8545"; "--prune-history"; "--gas-price";
                 "0"; "--base-fee"; "0"; "--steps-tracing"];
          SetExceptionHandler;
          ChainEnter "http://localhost:8545" false; ChainExit; Sleep;
          ChainEnter "http://localhost:8545" true;
          Enter (StdoutTee "logs/tests.test_counter.test_fuzz_0.ansi");
          Enter (StderrTee "logs/tests.test_counter.test_fuzz_0.ansi");
          Print "Using seed '0000000000000000' for process #0"]
         ++ rest.
Proof.
  destruct (tee_only_for_passive_worker_0
              (Snapshot := unit) tt (fun n => n) zero_entropy passing_test
              "logs" true "anvil" 0 2 [] (ostate0 []))
    as (processes & evs & Hs & Hall).
  pose proof (spawn_run (Snapshot := unit) tt (fun n => n) zero_entropy
                passing_test "logs" true "anvil" 0 2 [] (ostate0 [])) as Hr.
  rewrite Hs in Hr. injection Hr as Hprocs Hstate.
  cbv zeta. rewrite Hs. cbn [fst snd].
  destruct (Hall 0 ltac:(lia)) as (_ & p0 & Hg0 & _ & Ht0 & _ & Hrun0).
  destruct (Hall 1 ltac:(lia)) as (_ & p1 & Hg1 & _ & Ht1 & _).
  split; [rewrite Hstate; reflexivity|].
  split.
  - exists processes. split; [reflexivity|].
    rewrite Hg0, Hg1. cbn [option_map]. now rewrite Ht0, Ht1.
  - rewrite Hprocs in Hg0. vm_compute in Hg0. injection Hg0 as <-.
    destruct (Hrun0 detach_env
                    ["anvil"; "--port"; "8545"; "--prune-history";
                     "--gas-price"; "0"; "--base-fee"; "0"; "--steps-tracing"]
                    eq_refl ltac:(simpl; lia)) as [rest Hrest].
    exists rest. exact Hrest.
Defined.
(** ** The attach decision and the handshake *)


Lemma attach_decision_run Snapshot (passive : bool) (i : Z) (e : exn)
      (s : ostate Snapshot) :
  attach_decision Snapshot passive i e s
  = if negb passive || (i =? 0) then
      let '(r, rest, evs) := ask_attach (stdin s) in
      (r,
       {| exported_coverages := exported_coverages s;
          exported_coverages_per_trans := exported_coverages_per_trans s;
          stdin := rest;
          olog := olog s
                  ++ (if negb passive then [OProgressStop] else [])
                  ++ [OPrintTraceback e;
                      OPrint ("Process #" ++ str i
                              ++ " failed with an exception above.")%string]
                  ++ evs |})
    else (Ok false, s).
Proof.
  destruct s as [d dpt lines log].
  unfold attach_decision, prompt_attach.
  destruct passive, (i =? 0); cbn [negb orb]; try reflexivity;
    unfold bind; cbn [oemit ret stdin olog exported_coverages
                      exported_coverages_per_trans];
    destruct (ask_attach lines) as [[o rest] evs];
    rewrite <- ?app_assoc; reflexivity.
Qed.

Lemma handshake_run Snapshot (cenv : campaign_env Snapshot) (passive : bool)
      (i : Z) (s : ostate Snapshot) :
  handshake Snapshot cenv passive i s
  = match err_pipe Snapshot cenv i with
    | None => (Hang, s)
    | Some None => (Ok tt, add_log [OErrRecv i None] s)
    | Some (Some p) =>
        match pickle_loads p with
        | inl err => (Raise err, add_log [OErrRecv i (Some p)] s)
        | inr e =>
            match attach_decision Snapshot passive i e
                                  (add_log [OErrRecv i (Some p)] s) with
            | (Ok attach, s1) =>
                if ev_ack Snapshot cenv i then
                  (Ok tt,
                   add_log ([OEventClear i; OErrSend i attach;
                             OEventWaitSet i]
                            ++ (if negb passive then [OProgressStart]
                                else []))
                           s1)
                else (Hang, add_log [OEventClear i; OErrSend i attach] s1)
            | (Raise e', s1) => (Raise e', s1)
            | (Hang, s1) => (Hang, s1)
            end
        end
    end.
Proof.
  unfold handshake, err_parent_recv.
  destruct (err_pipe Snapshot cenv i) as [[p|]|]; try reflexivity.
  unfold bind at 1 2. cbn [oemit ret]. fold (add_log [OErrRecv i (Some p)] s).
  destruct (pickle_loads p) as [err|e]; [reflexivity|].
  unfold bind at 1.
  destruct (attach_decision Snapshot passive i e
              (add_log [OErrRecv i (Some p)] s)) as [[attach|e'|] s1];
    try reflexivity.
  unfold event_wait_set, bind, add_log, oemit, ret, hang.
  destruct (ev_ack Snapshot cenv i), passive;
    cbn [oemit ret hang negb olog stdin exported_coverages
         exported_coverages_per_trans];
    rewrite <- ?app_assoc;
    cbn [oemit ret hang negb olog stdin exported_coverages
         exported_coverages_per_trans app];
    rewrite <- ?app_assoc; reflexivity.
Qed.


(** ** The order of the handler's teardown *)

Lemma before_send_connect_trace url n (rest : list wevent) :
  enters_before_send (connect_trace url n ++ rest) = enters_before_send rest
  /\ exits_before_send (connect_trace url n ++ rest) = exits_before_send rest.
Proof. induction n as [|n IH]; simpl; auto. Qed.

(** C6 (as amended).  The handler exits the resources held in
    [ctx_managers] in list order and empties the list before it
    serializes the exception: when [pickle.dumps] succeeds the write of
    the serialized exception to the error pipe is the next action, and
    when it raises nothing more is done.  In a run whose test body
    raises, the worker has entered its log resources in acquisition
    order and exited none when the test is called, and the call is
    followed by their exits in that same order, first acquired first,
    not in reverse; the write to the error pipe, if any, comes right
    after them. *)
Theorem handler_exits_in_acquisition_order
        Coverage env (f : fuzz_fn Coverage)
        (index port : Z) (random_seed : bytes) (log_file : string)
        (tee : bool) (network_id : string) (coverage : option Coverage)
        (popen_args : list string) (targs : list (test_arg Coverage))
        (e : exn) :
  (forall s,
      ctx_managers (snd (exception_handler env e s)) = []
      /\ match pickle_dumps e with
         | inr p =>
             exists rest,
               trace (snd (exception_handler env e s))
               = trace s ++ map Exit (ctx_managers s)
                 ++ ErrSend (Some p) :: rest
         | inl err =>
             exception_handler env e s
             = (Raise err,
                {| ctx_managers := [];
                   handler_set := handler_set s;
                   trace := trace s ++ map Exit (ctx_managers s) |})
         end)
  /\ (_setup_args port network_id = inr popen_args ->
      (refusals env <= budget env)%nat ->
      build_args Coverage env f coverage (fn_args f) [] = inr targs ->
      fn_body f targs = Raise e ->
      is_exception e = true ->
      exists before rest,
        trace (snd (_run Coverage env f index port random_seed log_file tee
                         network_id coverage wstate0))
        = before ++ CallTest (fn_name f)
                 :: map Exit (log_resources tee log_file) ++ rest
        /\ entered before = log_resources tee log_file
        /\ exited before = []
        /\ filter is_err_send before = []
        /\ match pickle_dumps e with
           | inr p => exists rest', rest = ErrSend (Some p) :: rest'
           | inl _ => filter is_err_send rest = []
           end).
Proof.
  split.
  - intro s. rewrite exception_handler_run.
    destruct (pickle_dumps e) as [err|p]; [split; reflexivity|].
    destruct (attach_reply env) as [a|]; cbn [snd ctx_managers trace];
      (split; [reflexivity|]); eexists; cbn [app]; reflexivity.
  - intros Hargs Hconn Hbuild Hbody Hexc.
    destruct (until_call_facts index port random_seed log_file tee popen_args
                (refusals env) (reset_supported env))
      as (U1 & U2 & U3 & _).
    exists (until_call index port random_seed log_file tee popen_args
                       (refusals env) (reset_supported env)).
    destruct (pickle_dumps e) as [err|p] eqn:Hdumps.
    + rewrite (run_unpicklable_trace Coverage env f index port random_seed
                 log_file tee network_id coverage popen_args Hargs Hconn
                 targs Hbuild e err Hbody Hexc Hdumps).
      exists (ChainExit :: kill_trace log_file). cbn [snd trace].
      split; [reflexivity|]. split; [exact U1|]. split; [exact U2|].
      split; [exact U3|reflexivity].
    + rewrite (run_failing_trace Coverage env f index port random_seed
                 log_file tee network_id coverage popen_args Hargs Hconn
                 targs Hbuild e p Hbody Hexc Hdumps).
      cbv zeta. rewrite failing_prefix_until_call.
      destruct (attach_reply env) as [a|]; cbn [snd trace];
        eexists; (split;
                  [repeat (first [rewrite <- app_assoc | progress cbn [app]]);
                   reflexivity|]);
        (split; [exact U1|]); (split; [exact U2|]); (split; [exact U3|]);
        eexists; reflexivity.
Qed.

Lemma handler_exits_in_acquisition_order_witness :
  exists before rest,
    trace (snd (_run unit detach_env failing_test 1 8546
                     (repeat Byte.x01 8) "logs/t_1.ansi" false
                     "anvil" (Some tt) wstate0))
    = before ++ CallTest "test_fuzz"
             :: [Exit (LogFile "logs/t_1.ansi");
                 Exit (RedirectStdout "logs/t_1.ansi");
                 Exit (RedirectStderr "logs/t_1.ansi")]
             ++ ErrSend (Some (Pickle (TestException "AssertionError"
                                                     "invariant broken")))
             :: rest
    /\ entered before
       = [LogFile "logs/t_1.ansi"; RedirectStdout "logs/t_1.ansi";
          RedirectStderr "logs/t_1.ansi"]
    /\ exited before = [].
Proof.
  destruct (proj2
              (handler_exits_in_acquisition_order
                 unit detach_env failing_test 1 8546 (repeat Byte.x01 8)
                 "logs/t_1.ansi" false "anvil" (Some tt)
                 ["anvil"; "--port"; "8546"; "--prune-history"; "--gas-price";
                  "0"; "--base-fee"; "0"; "--steps-tracing"]
                 [Some (tt, 0)]
                 (TestException "AssertionError" "invariant broken"))
              eq_refl ltac:(simpl; lia) eq_refl eq_refl eq_refl)
    as (before & rest & Htr & Hent & Hex & _ & rest' & ->).
  exists before, rest'. split; [exact Htr|]. split; [exact Hent|exact Hex].
Defined.

(** C6, the claim as stated fails: a worker without the tee enters its
    log file, the stdout redirection and the stderr redirection; when the
    handler then runs it exits them in that same order before it writes
    the exception to the error pipe, which is not the reverse of the
    acquisition order. *)
Lemma teardown_not_reversed_counterexample :
  let acquired :=
    snd ((acquire_log false "logs/t_1.ansi" ;;
          cms <- get_ctx_managers ;;
          for_each cms (fun c => emit (Enter c))) wstate0) in
  let tr :=
    trace (snd (exception_handler
                  detach_env
                  (TestException "AssertionError" "invariant broken")
                  acquired)) in
  enters_before_send tr
  = [LogFile "logs/t_1.ansi"; RedirectStdout "logs/t_1.ansi";
     RedirectStderr "logs/t_1.ansi"]
  /\ exits_before_send tr
     = [LogFile "logs/t_1.ansi"; RedirectStdout "logs/t_1.ansi";
        RedirectStderr "logs/t_1.ansi"]
  /\ exits_before_send tr <> rev (enters_before_send tr).
Proof.
  cbv zeta. split; [reflexivity|]. split; [reflexivity|].
  vm_compute. discriminate.
Qed.




(** ** The coverage drain *)

Section DrainFacts.
Context {Snapshot : Type}.
Variable export_merged_ide_coverage : list Snapshot -> ide_cov_t.
Variable passive verbose_coverage : bool.

#[local] Abbreviation drain' :=
  (drain Snapshot export_merged_ide_coverage passive verbose_coverage).
#[local] Abbreviation report' :=
  (report Snapshot export_merged_ide_coverage passive verbose_coverage).
#[local] Abbreviation merged_full' :=
  (merged_full Snapshot export_merged_ide_coverage).
#[local] Abbreviation merged_per_trans' :=
  (merged_per_trans Snapshot export_merged_ide_coverage).

Lemma merge_and_report_run (s : ostate Snapshot) :
  merge_and_report Snapshot export_merged_ide_coverage passive
                   verbose_coverage s
  = (Ok tt, add_log (report' s) s).
Proof.
  unfold merge_and_report, report, merged_full, merged_per_trans, add_log.
  destruct (export_merged_ide_coverage (PyDict.values (exported_coverages s)));
    unfold bind, oemit, ret; cbn [olog stdin exported_coverages
                                  exported_coverages_per_trans];
    rewrite <- ?app_assoc; reflexivity.
Qed.

Lemma after_drain_full i queue (s : ostate Snapshot) evs :
  exported_coverages (after_drain i queue s evs)
  = match last queue None with
    | Some x => PyDict.set Z.eqb i (fst x) (exported_coverages s)
    | None => exported_coverages s
    end.
Proof. unfold after_drain. destruct (last queue None); reflexivity. Qed.

Lemma after_drain_per_trans i queue (s : ostate Snapshot) evs :
  exported_coverages_per_trans (after_drain i queue s evs)
  = match last queue None with
    | Some x => PyDict.set Z.eqb i (snd x) (exported_coverages_per_trans s)
    | None => exported_coverages_per_trans s
    end.
Proof. unfold after_drain. destruct (last queue None); reflexivity. Qed.

Lemma after_drain_olog i queue (s : ostate Snapshot) evs :
  olog (after_drain i queue s evs) = olog s ++ evs.
Proof. unfold after_drain. destruct (last queue None); reflexivity. Qed.

Lemma report_ext (s s' : ostate Snapshot) :
  exported_coverages s = exported_coverages s' ->
  exported_coverages_per_trans s = exported_coverages_per_trans s' ->
  report' s = report' s'.
Proof.
  intros H1 H2. unfold report, merged_full, merged_per_trans.
  now rewrite H1, H2.
Qed.

Lemma after_drain_add_log i queue (s : ostate Snapshot) evs evs' :
  after_drain i queue (add_log evs s) evs' = after_drain i queue s (evs ++ evs').
Proof.
  unfold after_drain, add_log. destruct (last queue None);
    cbn [olog stdin exported_coverages exported_coverages_per_trans];
    now rewrite app_assoc.
Qed.

Lemma after_drain_skip i got y r (s : ostate Snapshot) evs :
  after_drain i (got :: y :: r) s evs = after_drain i (y :: r) s evs.
Proof. reflexivity. Qed.

Lemma drain_run (i : Z) (queue : list (option (Snapshot * Snapshot))) :
  forall s,
    exists evs,
      drain' i queue s = (Ok tt, after_drain i queue s evs)
      /\ (queue <> [] ->
          exists evs0, evs = evs0 ++ report' (after_drain i queue s evs)).
Proof.
  induction queue as [|got rest IH]; intro s.
  - exists []. split; [|congruence].
    destruct s. unfold after_drain, add_log. cbn. now rewrite app_nil_r.
  - destruct rest as [|y r].
    + destruct got as [x|].
      * cbn [drain]. unfold bind at 1. unfold store_coverage at 1.
        unfold bind at 1. rewrite merge_and_report_run.
        eexists. split.
        -- unfold after_drain, add_log, ret. cbn. reflexivity.
        -- intros _. exists []. cbn [app]. apply report_ext.
           ++ now rewrite after_drain_full.
           ++ now rewrite after_drain_per_trans.
      * cbn [drain]. unfold bind at 1. rewrite merge_and_report_run.
        exists (report' s). split; [reflexivity|].
        intros _. exists []. cbn [app]. apply report_ext.
        -- now rewrite after_drain_full.
        -- now rewrite after_drain_per_trans.
    + destruct got as [x|].
      * destruct (IH s) as [evs [Hrun Hlast]]. exists evs.
        rewrite after_drain_skip. split; [exact Hrun|].
        intros _. apply Hlast. discriminate.
      * destruct (IH (add_log (report' s) s)) as [evs [Hrun Hlast]].
        exists (report' s ++ evs). rewrite after_drain_skip.
        rewrite after_drain_add_log in Hrun, Hlast. split.
        -- change (drain' i (None :: y :: r) s)
             with (bind (merge_and_report Snapshot export_merged_ide_coverage
                           passive verbose_coverage)
                        (fun _ => drain' i (y :: r)) s).
           unfold bind at 1. rewrite merge_and_report_run. exact Hrun.
        -- intros _. destruct Hlast as [evs0 Hevs0]; [discriminate|].
           exists (report' s ++ evs0). rewrite <- app_assoc.
           f_equal. exact Hevs0.
Qed.
(** C2.  Every drain of worker [i]'s queue returns and changes at most
    the entry of index [i] in the full-run and the per-transaction
    dictionaries, to the snapshot fetched last; what was fetched before
    it is dropped.  A drain whose last result is the snapshot [x] stores
    [x] alone under [i], and the aggregates it reports last are the
    merges of the stored snapshots.  A further drain that ends in the
    same snapshot [x] leaves both dictionaries, and so both merged
    aggregates, exactly as they were: nothing is counted twice, whatever
    the merge function is. *)
Theorem drain_keeps_latest_snapshot
        (i : Z) (queue queue' : list (option (Snapshot * Snapshot)))
        (x : Snapshot * Snapshot) (s : ostate Snapshot) :
  let run1 := drain' i (queue ++ [Some x]) s in
  let s1 := snd run1 in
  let run2 := drain' i (queue' ++ [Some x]) s1 in
  let s2 := snd run2 in
  fst (drain' i queue s) = Ok tt
  /\ exported_coverages (snd (drain' i queue s))
     = match last queue None with
       | Some y => PyDict.set Z.eqb i (fst y) (exported_coverages s)
       | None => exported_coverages s
       end
  /\ exported_coverages_per_trans (snd (drain' i queue s))
     = match last queue None with
       | Some y => PyDict.set Z.eqb i (snd y) (exported_coverages_per_trans s)
       | None => exported_coverages_per_trans s
       end
  /\ fst run1 = Ok tt
  /\ exported_coverages s1
     = PyDict.set Z.eqb i (fst x) (exported_coverages s)
  /\ exported_coverages_per_trans s1
     = PyDict.set Z.eqb i (snd x) (exported_coverages_per_trans s)
  /\ (exists evs, olog s1 = olog s ++ evs ++ report' s1)
  /\ fst run2 = Ok tt
  /\ exported_coverages s2 = exported_coverages s1
  /\ exported_coverages_per_trans s2 = exported_coverages_per_trans s1
  /\ merged_full' s2 = merged_full' s1
  /\ merged_per_trans' s2 = merged_per_trans' s1
  /\ (exists evs, olog s2 = olog s1 ++ evs ++ report' s1).
Proof.
  intros run1 s1 run2 s2.
  assert (Hne : forall q : list (option (Snapshot * Snapshot)),
             q ++ [Some x] <> []).
  { intros q H. apply app_eq_nil in H as [_ H]. discriminate. }
  destruct (drain_run i (queue ++ [Some x]) s) as [evs1 [Hrun1 Hlast1]].
  destruct (Hlast1 (Hne queue)) as [evs1' Hevs1].
  assert (Hs1 : s1 = after_drain i (queue ++ [Some x]) s evs1)
    by (subst s1 run1; now rewrite Hrun1).
  destruct (drain_run i (queue' ++ [Some x]) s1) as [evs2 [Hrun2 Hlast2]].
  destruct (Hlast2 (Hne queue')) as [evs2' Hevs2].
  assert (Hs2 : s2 = after_drain i (queue' ++ [Some x]) s1 evs2)
    by (subst s2 run2; now rewrite Hrun2).
  assert (Hf1 : exported_coverages s1
                = PyDict.set Z.eqb i (fst x) (exported_coverages s))
    by now rewrite Hs1, after_drain_full, last_last.
  assert (Hp1 : exported_coverages_per_trans s1
                = PyDict.set Z.eqb i (snd x) (exported_coverages_per_trans s))
    by now rewrite Hs1, after_drain_per_trans, last_last.
  assert (Hf2 : exported_coverages s2 = exported_coverages s1).
  { rewrite Hs2, after_drain_full, last_last, Hf1.
    apply (PyDictFacts.set_set_same Z.eqb Zeqb_eq). }
  assert (Hp2 : exported_coverages_per_trans s2
                = exported_coverages_per_trans s1).
  { rewrite Hs2, after_drain_per_trans, last_last, Hp1.
    apply (PyDictFacts.set_set_same Z.eqb Zeqb_eq). }
  destruct (drain_run i queue s) as [evs0 [Hrun0 _]].
  rewrite Hrun0. cbn [fst snd].
  rewrite after_drain_full, after_drain_per_trans.
  repeat split.
  - subst run1. now rewrite Hrun1.
  - exact Hf1.
  - exact Hp1.
  - exists evs1'. rewrite Hs1 at 1. rewrite after_drain_olog.
    rewrite Hevs1 at 1. now rewrite <- Hs1.
  - subst run2. now rewrite Hrun2.
  - exact Hf2.
  - exact Hp2.
  - unfold merged_full. now rewrite Hf2.
  - unfold merged_per_trans. now rewrite Hp2.
  - exists evs2'. rewrite Hs2 at 1. rewrite after_drain_olog.
    rewrite Hevs2 at 1. rewrite <- Hs2.
    now rewrite (report_ext s2 s1 Hf2 Hp2).
Qed.
End DrainFacts.

(** ** The poll loop *)

Section PollFacts.
Context {Coverage Snapshot : Type}.
Variable export_merged_ide_coverage : list Snapshot -> ide_cov_t.
Variable cenv : campaign_env Snapshot.
Variable passive verbose_coverage : bool.

#[local] Abbreviation poll_worker' :=
  (poll_worker Snapshot export_merged_ide_coverage cenv passive
               verbose_coverage).
#[local] Abbreviation poll_processes' :=
  (poll_processes Coverage Snapshot export_merged_ide_coverage cenv passive
                  verbose_coverage).
#[local] Abbreviation poll_loop' :=
  (poll_loop Coverage Snapshot export_merged_ide_coverage cenv passive
             verbose_coverage).





End PollFacts.
(** ** Coverage per function *)

Lemma set_all_cons {V} (k : string) (v : V) (kvs : list (string * V)) d :
  PyDict.set_all String.eqb ((k, v) :: kvs) d
  = PyDict.set_all String.eqb kvs (PyDict.set String.eqb k v d).
Proof. reflexivity. Qed.

Lemma set_all_app {V} (l1 l2 : list (string * V)) d :
  PyDict.set_all String.eqb (l1 ++ l2) d
  = PyDict.set_all String.eqb l2 (PyDict.set_all String.eqb l1 d).
Proof. unfold PyDict.set_all. apply fold_left_app. Qed.

Lemma get_set_all_notin {V} (k : string) (kvs : list (string * V)) :
  forall d,
    ~ In k (map fst kvs) ->
    PyDict.get String.eqb k (PyDict.set_all String.eqb kvs d)
    = PyDict.get String.eqb k d.
Proof.
  induction kvs as [|[k0 v0] r IH]; intros d Hni; [reflexivity|].
  rewrite set_all_cons, IH.
  - apply (PyDictFacts.get_set_other String.eqb String.eqb_eq).
    intro H. apply Hni. now left.
  - intro H. apply Hni. now right.
Qed.

Lemma get_set_all_inv {V} (k : string) (v : V) (kvs : list (string * V)) :
  forall d,
    PyDict.get String.eqb k (PyDict.set_all String.eqb kvs d) = Some v ->
    In (k, v) kvs \/ PyDict.get String.eqb k d = Some v.
Proof.
  induction kvs as [|[k0 v0] r IH]; intros d H; [now right|].
  rewrite set_all_cons in H. apply IH in H as [H|H]; [left; now right|].
  destruct (string_dec k0 k) as [->|N].
  - rewrite (PyDictFacts.get_set_same String.eqb String.eqb_eq) in H.
    injection H as ->. left. now left.
  - rewrite (PyDictFacts.get_set_other String.eqb String.eqb_eq) in H
      by exact N.
    now right.
Qed.

(** A key written once ends up with the value written. *)
Lemma get_set_all_once {V} (k : string) (v : V) (kvs : list (string * V)) :
  forall d,
    count (map fst kvs) k = 1%nat ->
    In (k, v) kvs ->
    PyDict.get String.eqb k (PyDict.set_all String.eqb kvs d) = Some v.
Proof.
  unfold count.
  induction kvs as [|[k0 v0] r IH]; intros d Hc Hin; [destruct Hin|].
  rewrite set_all_cons. cbn [map fst count_occ] in Hc.
  destruct (string_dec k0 k) as [->|N].
  - injection Hc as Hc. apply count_occ_not_In in Hc.
    destruct Hin as [Heq|Hin].
    + injection Heq as ->. rewrite get_set_all_notin by exact Hc.
      apply (PyDictFacts.get_set_same String.eqb String.eqb_eq).
    + exfalso. apply Hc. apply in_map_iff. exists (k, v). auto.
  - destruct Hin as [Heq|Hin]; [injection Heq as -> _; contradiction|].
    apply IH; assumption.
Qed.

Lemma fn_names_flat_map (ide_cov : ide_cov_t) :
  fn_names ide_cov
  = flat_map (fun item : string * list fn_rec =>
                map name (filter (fun rec => (0 <? coverageHits rec)%Z) (snd item)))
             ide_cov.
Proof.
  unfold fn_names, PyDict.values.
  assert (H : forall (l : list (string * list fn_rec)) acc,
             fold_left
               (fun acc path_rec =>
                  acc ++ map name (filter (fun rec => (0 <? coverageHits rec)%Z)
                                          path_rec))
               (map snd l) acc
             = acc ++ flat_map
                        (fun item : string * list fn_rec =>
                           map name (filter (fun rec => (0 <? coverageHits rec)%Z)
                                            (snd item)))
                        l).
  { induction l as [|x l IH]; intro acc; cbn [map fold_left flat_map].
    - now rewrite app_nil_r.
    - rewrite IH, <- app_assoc. reflexivity. }
  apply (H ide_cov []).
Qed.

Lemma compute_writes (ide_cov : ide_cov_t) :
  _compute_coverage_per_function ide_cov
  = PyDict.set_all String.eqb (writes ide_cov) PyDict.empty.
Proof.
  unfold _compute_coverage_per_function, writes. cbv zeta.
  generalize (fn_names ide_cov) as names. intro names.
  generalize (@PyDict.empty string Z) as d.
  induction ide_cov as [|[path recs] l IH]; intro d; [reflexivity|].
  cbn [fold_left flat_map fst snd]. rewrite set_all_app, IH. f_equal.
  clear IH. revert d.
  induction recs as [|rec recs IHr]; intro d; [reflexivity|].
  cbn [fold_left flat_map]. rewrite set_all_app, IHr. f_equal.
  unfold add_fn_rec, entry_key.
  destruct (coverageHits rec =? 0); [reflexivity|].
  destruct (1 <? count names (name rec))%nat; reflexivity.
Qed.

Lemma count_flat_map_split {A} (g : A -> list string) (x : string)
      (l1 l2 : list A) (a : A) :
  count (flat_map g (l1 ++ a :: l2)) x
  = (count (flat_map g l1) x + count (g a) x + count (flat_map g l2) x)%nat.
Proof.
  unfold count. rewrite flat_map_app. cbn [flat_map].
  rewrite !count_occ_app. lia.
Qed.

Lemma count_flat_map_In {A} (g : A -> list string) (x : string) (l : list A)
      (a : A) :
  In a l -> (count (g a) x <= count (flat_map g l) x)%nat.
Proof.
  intro Hin. apply in_split in Hin as (l1 & l2 & ->).
  rewrite count_flat_map_split. lia.
Qed.

(** The name of a record with hits is counted in its file. *)
Lemma count_positive_rec (recs : list fn_rec) (rec : fn_rec) :
  In rec recs ->
  0 < coverageHits rec ->
  (1 <= count (map name (filter (fun rec => (0 <? coverageHits rec)%Z) recs))
              (name rec))%nat.
Proof.
  intros Hin Hpos. unfold count. apply count_occ_In.
  apply in_map. apply filter_In. split; [exact Hin|].
  now apply Z.ltb_lt.
Qed.

(** Two records with hits and the same name in different files make the
    name count at least twice. *)
Lemma count_collision (ide_cov : ide_cov_t) path recs rec path' recs' rec' :
  In (path, recs) ide_cov -> In rec recs -> 0 < coverageHits rec ->
  In (path', recs') ide_cov -> In rec' recs' -> 0 < coverageHits rec' ->
  path' <> path -> name rec' = name rec ->
  (2 <= count (fn_names ide_cov) (name rec))%nat.
Proof.
  intros Hi Hr Hp Hi' Hr' Hp' Hne Hname.
  rewrite fn_names_flat_map.
  apply in_split in Hi as (l1 & l2 & ->).
  rewrite count_flat_map_split. cbn [snd].
  pose proof (count_positive_rec recs rec Hr Hp) as H1.
  pose proof (count_positive_rec recs' rec' Hr' Hp') as H2.
  rewrite Hname in H2.
  apply in_app_or in Hi' as [Hi'|[Heq|Hi']].
  - pose proof (count_flat_map_In
                  (fun item : string * list fn_rec =>
                     map name (filter (fun rec => (0 <? coverageHits rec)%Z)
                                      (snd item)))
                  (name rec) l1 (path', recs') Hi') as H3.
    cbn [snd] in H3. lia.
  - injection Heq as Heq _. congruence.
  - pose proof (count_flat_map_In
                  (fun item : string * list fn_rec =>
                     map name (filter (fun rec => (0 <? coverageHits rec)%Z)
                                      (snd item)))
                  (name rec) l2 (path', recs') Hi') as H3.
    cbn [snd] in H3. lia.
Qed.

Lemma In_writes (ide_cov : ide_cov_t) (k : string) (v : Z) :
  In (k, v) (writes ide_cov)
  <-> exists path recs rec,
        In (path, recs) ide_cov /\ In rec recs
        /\ coverageHits rec <> 0 /\ v = coverageHits rec
        /\ k = entry_key (fn_names ide_cov) path rec.
Proof.
  unfold writes. rewrite in_flat_map. split.
  - intros [[path recs] [Hi H]]. cbn [fst snd] in H.
    apply in_flat_map in H as [rec [Hr H]].
    destruct (Z.eqb_spec (coverageHits rec) 0) as [|Hnz]; [destruct H|].
    destruct H as [H|[]]. injection H as <- <-.
    exists path, recs, rec. auto.
  - intros (path & recs & rec & Hi & Hr & Hnz & -> & ->).
    exists (path, recs). split; [exact Hi|]. cbn [fst snd].
    apply in_flat_map. exists rec. split; [exact Hr|].
    destruct (Z.eqb_spec (coverageHits rec) 0); [contradiction|]. now left.
Qed.

(** C5 (as amended).  Every item of the result comes from a record with a
    hit count other than 0, stored under its bare name or under its file
    path, a colon and its name: records without hits are left out.  A
    record with hits whose name also belongs to a record with hits in
    another file is stored under path, colon and name; a record with hits
    whose name occurs once among the records with hits is stored under
    the bare name.  In both cases the key maps to the record's hit count
    provided no other record is stored under the same key (a later
    assignment to the same key overwrites the earlier one). *)
Theorem coverage_per_function_keys (ide_cov : ide_cov_t) :
  let funcs_cov := _compute_coverage_per_function ide_cov in
  (forall k v,
      PyDict.get String.eqb k funcs_cov = Some v ->
      v <> 0
      /\ exists path recs rec,
           In (path, recs) ide_cov /\ In rec recs /\ coverageHits rec = v
           /\ (k = name rec \/ k = (path ++ ":" ++ name rec)%string))
  /\ (forall path recs rec,
         In (path, recs) ide_cov -> In rec recs -> 0 < coverageHits rec ->
         ((exists path' recs' rec',
              In (path', recs') ide_cov /\ In rec' recs'
              /\ 0 < coverageHits rec'
              /\ path' <> path /\ name rec' = name rec) ->
          In ((path ++ ":" ++ name rec)%string, coverageHits rec)
             (writes ide_cov)
          /\ (count (map fst (writes ide_cov))
                    (path ++ ":" ++ name rec)%string = 1%nat ->
              PyDict.get String.eqb (path ++ ":" ++ name rec)%string funcs_cov
              = Some (coverageHits rec)))
         /\ (count (fn_names ide_cov) (name rec) = 1%nat ->
             In (name rec, coverageHits rec) (writes ide_cov)
             /\ (count (map fst (writes ide_cov)) (name rec) = 1%nat ->
                 PyDict.get String.eqb (name rec) funcs_cov
                 = Some (coverageHits rec)))).
Proof.
  cbv zeta. rewrite compute_writes. split.
  - intros k v Hget. apply get_set_all_inv in Hget as [Hin|Hget];
      [|discriminate].
    apply In_writes in Hin as (path & recs & rec & Hi & Hr & Hnz & -> & ->).
    split; [exact Hnz|]. exists path, recs, rec.
    repeat split; try assumption.
    unfold entry_key. destruct (1 <? count (fn_names ide_cov) (name rec))%nat;
      [now right|now left].
  - intros path recs rec Hi Hr Hpos. split.
    + intros (path' & recs' & rec' & Hi' & Hr' & Hpos' & Hne & Hname).
      pose proof (count_collision ide_cov path recs rec path' recs' rec'
                    Hi Hr Hpos Hi' Hr' Hpos' Hne Hname) as Hc.
      assert (Hin : In ((path ++ ":" ++ name rec)%string, coverageHits rec)
                       (writes ide_cov)).
      { apply In_writes. exists path, recs, rec.
        repeat split; try assumption; [lia|].
        unfold entry_key.
        destruct (Nat.ltb_spec 1 (count (fn_names ide_cov) (name rec)));
          [reflexivity|lia]. }
      split; [exact Hin|]. intro Honce.
      apply get_set_all_once; assumption.
    + intro Huniq.
      assert (Hin : In (name rec, coverageHits rec) (writes ide_cov)).
      { apply In_writes. exists path, recs, rec.
        repeat split; try assumption; [lia|].
        unfold entry_key. rewrite Huniq. reflexivity. }
      split; [exact Hin|]. intro Honce.
      apply get_set_all_once; assumption.
Qed.

Lemma coverage_per_function_keys_witness :
  PyDict.get String.eqb "a.sol:f" (_compute_coverage_per_function sample_cov)
  = Some 3
  /\ PyDict.get String.eqb "h" (_compute_coverage_per_function sample_cov)
     = Some 1.
Proof.
  destruct (coverage_per_function_keys sample_cov) as [_ H]. split.
  - destruct (H "a.sol" [ {| name := "f"; coverageHits := 3 |};
                          {| name := "g"; coverageHits := 0 |};
                          {| name := "h"; coverageHits := 1 |} ]
                {| name := "f"; coverageHits := 3 |}) as [Hc _].
    + left. reflexivity.
    + left. reflexivity.
    + reflexivity.
    + destruct Hc as [_ Hc].
      * exists "b.sol", [ {| name := "f"; coverageHits := 2 |} ],
          {| name := "f"; coverageHits := 2 |}.
        split; [right; left; reflexivity|].
        split; [left; reflexivity|].
        split; [reflexivity|]. split; [discriminate|reflexivity].
      * apply Hc. reflexivity.
  - destruct (H "a.sol" [ {| name := "f"; coverageHits := 3 |};
                          {| name := "g"; coverageHits := 0 |};
                          {| name := "h"; coverageHits := 1 |} ]
                {| name := "h"; coverageHits := 1 |}) as [_ Hu].
    + left. reflexivity.
    + right. right. left. reflexivity.
    + reflexivity.
    + destruct (Hu eq_refl) as [_ Hu']. apply Hu'. reflexivity.
Defined.

(** C5, the claim as stated fails: in [clashing_cov] the name "a.sol:f"
    occurs once among the records with hits and its record has 5 hits,
    yet the key "a.sol:f" maps to 1, the hit count of the function "f" of
    "a.sol", which collides with "f" of "b.sol" and is stored under the
    same key afterwards. *)
Lemma bare_name_overwritten_counterexample :
  In ("a.sol", [ {| name := "a.sol:f"; coverageHits := 5 |};
                 {| name := "f"; coverageHits := 1 |} ]) clashing_cov
  /\ count (fn_names clashing_cov) "a.sol:f" = 1%nat
  /\ _compute_coverage_per_function clashing_cov
     = [("a.sol:f", 1); ("b.sol:f", 2)]
  /\ PyDict.get String.eqb "a.sol:f"
                (_compute_coverage_per_function clashing_cov)
     <> Some 5.
Proof.
  split; [left; reflexivity|]. split; [reflexivity|].
  split; [reflexivity|]. vm_compute. discriminate.
Qed.

(** ** Reads of the error pipes over a whole campaign *)

Section PipeReads.
Context {Snapshot : Type}.


Lemma emits_bind {A B} (P Q R : list oevent -> Prop)
      (m : Orc Snapshot A) (k : A -> Orc Snapshot B) :
  emits P m ->
  (forall a, emits Q (k a)) ->
  (forall e1, P e1 -> R e1) ->
  (forall e1 e2, P e1 -> Q e2 -> R (e1 ++ e2)) ->
  emits R (bind m k).
Proof.
  intros Hm Hk HR1 HR2 s. destruct (Hm s) as [e1 [H1 P1]].
  unfold bind. destruct (m s) as [[a|e|] s1]; cbn [snd] in *;
    try (exists e1; split; [exact H1|now apply HR1]).
  destruct (Hk a s1) as [e2 [H2 Q2]].
  exists (e1 ++ e2). split; [|now apply HR2].
  now rewrite H2, H1, app_assoc.
Qed.






Lemma silent_add_log {A} (r : outcome A) (f : ostate Snapshot -> list oevent) :
  (forall s, filter is_oerr_recv (f s) = []) ->
  silent (fun s => (r, add_log (f s) s)).
Proof. intros Hf s. exists (f s). cbn. auto. Qed.

End PipeReads.




Section CampaignReads.
Context {Coverage Snapshot : Type}.
Variable export_merged_ide_coverage : list Snapshot -> ide_cov_t.
Variable cenv : campaign_env Snapshot.
Variable passive verbose_coverage : bool.










End CampaignReads.

Lemma keys_pop_subset {V} (k j : Z) (d : PyDict.t (K := Z) (V := V)) :
  In j (PyDict.keys (PyDict.pop Z.eqb k d)) -> In j (PyDict.keys d).
Proof.
  induction d as [|[k' v'] r IH]; cbn [PyDict.pop PyDict.keys map fst];
    [auto|].
  destruct (k =? k'); cbn [map fst]; [now right|].
  intros [H|H]; [now left|right; now apply IH].
Qed.




Section LoopReads.
Context {Coverage Snapshot : Type}.
Variable export_merged_ide_coverage : list Snapshot -> ide_cov_t.
Variable cenv : campaign_env Snapshot.
Variable passive verbose_coverage : bool.

#[local] Abbreviation poll_worker' :=
  (poll_worker Snapshot export_merged_ide_coverage cenv passive
               verbose_coverage).
#[local] Abbreviation poll_processes' :=
  (poll_processes Coverage Snapshot export_merged_ide_coverage cenv passive
                  verbose_coverage).
#[local] Abbreviation poll_loop' :=
  (poll_loop Coverage Snapshot export_merged_ide_coverage cenv passive
             verbose_coverage).



End LoopReads.




Section FuzzReads.
Context {Coverage Snapshot : Type}.
Variable new_Coverage : Coverage.
Variable export_merged_ide_coverage : list Snapshot -> ide_cov_t.
Variable sanitize_filename : string -> string.
Variable entropy : nat -> Byte.byte.
Variable cenv : campaign_env Snapshot.
Variable fuzz_test : fuzz_fn Coverage.
Variable logs_dir : string.
Variable passive : bool.
Variable network_id : string.
Variable cov_proc_num : Z.
Variable verbose_coverage : bool.


End FuzzReads.

(** ** What a campaign logs, and when it goes on *)

Section Never.
Context {Snapshot : Type}.
Variable p : oevent -> bool.

Lemma never_bind {A B} (m : Orc Snapshot A) (k : A -> Orc Snapshot B) :
  never p m -> (forall a, never p (k a)) -> never p (bind m k).
Proof.
  intros Hm Hk.
  apply (emits_bind (fun evs => filter p evs = [])
                    (fun evs => filter p evs = []) _ m k Hm Hk); [auto|].
  intros e1 e2 H1 H2. now rewrite filter_app, H1, H2.
Qed.

Lemma never_ret {A} (a : A) : never p (ret (St := ostate Snapshot) a).
Proof. intro s. exists []. cbn. now rewrite app_nil_r. Qed.

Lemma never_hang {A} : never p (hang (St := ostate Snapshot) (A := A)).
Proof. intro s. exists []. cbn. now rewrite app_nil_r. Qed.

Lemma never_oemit (e : oevent) : p e = false -> never p (oemit Snapshot e).
Proof. intros He s. exists [e]. cbn. now rewrite He. Qed.

Lemma never_prompt_attach :
  (forall line, p (OInput line) = false) -> never p (prompt_attach Snapshot).
Proof.
  intros Hin s. unfold prompt_attach.
  assert (H : forall lines, filter p (snd (ask_attach lines)) = []).
  { induction lines as [|r rest IH]; cbn [ask_attach]; [reflexivity|].
    destruct (r =? "y")%string; [cbn; now rewrite Hin|].
    destruct (r =? "n")%string; [cbn; now rewrite Hin|].
    destruct (ask_attach rest) as [[o rest'] evs]. cbn [snd filter] in *.
    now rewrite Hin. }
  specialize (H (stdin s)).
  destruct (ask_attach (stdin s)) as [[r rest] evs]. exists evs. auto.
Qed.

Lemma never_store_coverage (i : Z) (x : Snapshot * Snapshot) :
  never p (store_coverage Snapshot i x).
Proof. intro s. exists []. cbn. now rewrite app_nil_r. Qed.
End Never.

Section CleanCampaign.
Context {Coverage Snapshot : Type}.
Variable export_merged_ide_coverage : list Snapshot -> ide_cov_t.
Variable cenv : campaign_env Snapshot.
Variable passive verbose_coverage : bool.

Lemma runs_ok_ret {A} (a : A) : runs_ok (ret (St := ostate Snapshot) a) a.
Proof. intro s. exists s. auto. Qed.

Lemma runs_ok_oemit (e : oevent) : runs_ok (oemit Snapshot e) tt.
Proof. intro s. eexists. split; reflexivity. Qed.

Lemma runs_ok_bind {A B} (m : Orc Snapshot A) (k : A -> Orc Snapshot B)
      (a : A) (b : B) :
  runs_ok m a -> runs_ok (k a) b -> runs_ok (bind m k) b.
Proof.
  intros Hm Hk s. destruct (Hm s) as [s1 [H1 E1]].
  destruct (Hk s1) as [s2 [H2 E2]]. exists s2. unfold bind.
  rewrite H1, H2. split; [reflexivity|congruence].
Qed.

Lemma runs_ok_drain (i : Z) (queue : list (option (Snapshot * Snapshot))) :
  runs_ok (drain Snapshot export_merged_ide_coverage passive verbose_coverage
                 i queue) tt.
Proof.
  intro s.
  destruct (drain_run export_merged_ide_coverage passive verbose_coverage
                      i queue s) as [evs [Hrun _]].
  eexists. split; [exact Hrun|].
  unfold after_drain, add_log. destruct (last queue None); reflexivity.
Qed.

Lemma runs_ok_handshake (i : Z) :
  err_pipe Snapshot cenv i = Some None ->
  runs_ok (handshake Snapshot cenv passive i) tt.
Proof.
  intros Hpipe s. rewrite handshake_run, Hpipe. eexists.
  split; reflexivity.
Qed.

Lemma runs_ok_poll_worker round n to_be_removed (i : Z) :
  (ev_wait Snapshot cenv i round = true ->
   err_pipe Snapshot cenv i = Some None) ->
  runs_ok (poll_worker Snapshot export_merged_ide_coverage cenv passive
                       verbose_coverage round n to_be_removed i)
          (if ev_wait Snapshot cenv i round then to_be_removed ++ [i]
           else to_be_removed).
Proof.
  intro Hpipe. unfold poll_worker.
  destruct (ev_wait Snapshot cenv i round).
  - eapply runs_ok_bind; [apply runs_ok_oemit|].
    eapply runs_ok_bind.
    + eapply runs_ok_bind; [now apply runs_ok_handshake; auto|].
      eapply runs_ok_bind; [apply runs_ok_oemit|].
      eapply runs_ok_bind;
        [destruct (i =? 0); [apply runs_ok_oemit|apply runs_ok_ret]|].
      apply runs_ok_ret.
    + eapply runs_ok_bind; [apply runs_ok_drain|].
      eapply runs_ok_bind; [apply runs_ok_oemit|]. apply runs_ok_ret.
  - eapply runs_ok_bind; [apply runs_ok_oemit|].
    eapply runs_ok_bind; [apply runs_ok_ret|].
    eapply runs_ok_bind; [apply runs_ok_drain|].
    eapply runs_ok_bind; [apply runs_ok_ret|]. apply runs_ok_ret.
Qed.

Lemma runs_ok_poll_processes round n
      (items : list (Z * run_args Coverage)) :
  (forall i, In i (map fst items) ->
             ev_wait Snapshot cenv i round = true ->
             err_pipe Snapshot cenv i = Some None) ->
  forall to_be_removed,
    runs_ok (poll_processes Coverage Snapshot export_merged_ide_coverage cenv
                            passive verbose_coverage round n items
                            to_be_removed)
            (to_be_removed
             ++ filter (fun i => ev_wait Snapshot cenv i round)
                       (map fst items)).
Proof.
  induction items as [|[i p] r IH]; intros Hclean tbr.
  - cbn. rewrite app_nil_r. apply runs_ok_ret.
  - cbn [poll_processes map fst filter].
    eapply runs_ok_bind.
    + apply runs_ok_poll_worker. apply Hclean. now left.
    + destruct (ev_wait Snapshot cenv i round).
      * replace (tbr ++ i :: filter (fun i0 => ev_wait Snapshot cenv i0 round)
                                    (map fst r))
          with ((tbr ++ [i])
                ++ filter (fun i0 => ev_wait Snapshot cenv i0 round)
                          (map fst r))
          by now rewrite <- app_assoc.
        apply IH. intros j Hj. apply Hclean. now right.
      * apply IH. intros j Hj. apply Hclean. now right.
Qed.

Lemma pop_all_keys (processes : PyDict.t (K := Z) (V := run_args Coverage)) :
  pop_all Coverage (PyDict.keys processes) processes = [].
Proof.
  induction processes as [|[k v] r IH]; [reflexivity|].
  cbn [PyDict.keys map fst pop_all fold_left PyDict.pop].
  rewrite Z.eqb_refl. exact IH.
Qed.

Lemma pop_all_subset (to_be_removed : list Z) :
  forall (processes : PyDict.t (K := Z) (V := run_args Coverage)) j,
    In j (PyDict.keys (pop_all Coverage to_be_removed processes)) ->
    In j (PyDict.keys processes).
Proof.
  induction to_be_removed as [|k r IH]; intros processes j Hj; [exact Hj|].
  cbn [pop_all fold_left] in Hj. apply IH in Hj.
  now apply keys_pop_subset in Hj.
Qed.

Lemma filter_all {A} (p : A -> bool) (l : list A) :
  (forall x, In x l -> p x = true) -> filter p l = l.
Proof.
  induction l as [|x l IH]; intro H; [reflexivity|]. cbn.
  rewrite (H x (or_introl eq_refl)), IH; [reflexivity|].
  intros y Hy. apply H. now right.
Qed.

(** When every worker of the table has written "no error" and has its
    event set from round [N] on, the poll loop is left by round [N]. *)
Lemma poll_loop_clean (N fuel : nat) :
  forall round (processes : PyDict.t (K := Z) (V := run_args Coverage)),
    (forall i, In i (PyDict.keys processes) ->
               err_pipe Snapshot cenv i = Some None
               /\ forall k, (N <= k)%nat ->
                            ev_wait Snapshot cenv i k = true) ->
    (N < round + fuel)%nat ->
    (0 < fuel)%nat ->
    runs_ok (poll_loop Coverage Snapshot export_merged_ide_coverage cenv
                       passive verbose_coverage fuel round processes)
            None.
Proof.
  induction fuel as [|fuel IH]; intros round processes Hclean Hfuel Hpos;
    [lia|].
  destruct processes as [|p ps]; [apply runs_ok_ret|].
  cbn [poll_loop]. eapply runs_ok_bind.
  - apply runs_ok_poll_processes. intros i Hi _. now apply Hclean.
  - cbn [app]. destruct (Nat.le_gt_cases N round) as [Hge|Hlt].
    + rewrite filter_all by (intros i Hi; now apply Hclean).
      change (map fst (p :: ps)) with (PyDict.keys (p :: ps)).
      rewrite pop_all_keys. destruct fuel; apply runs_ok_ret.
    + apply IH; [|lia|lia].
      intros i Hi. apply Hclean. now apply pop_all_subset in Hi.
Qed.
End CleanCampaign.

(** *** Events a part of the loop never logs *)

Section NeverInTheLoop.
Context {Snapshot : Type}.
Variable export_merged_ide_coverage : list Snapshot -> ide_cov_t.
Variable cenv : campaign_env Snapshot.
Variable passive verbose_coverage : bool.
Variable p : oevent -> bool.

Lemma never_raise {A} (e : exn) :
  never p (raise (St := ostate Snapshot) (A := A) e).
Proof. intro s. exists []. cbn. now rewrite app_nil_r. Qed.


End NeverInTheLoop.
(** ** A worker that dies without a signal *)

Lemma filter_wait_repeat (i : Z) (n : nat) :
  filter (is_wait_of i) (repeat (OEventWait i false) n)
  = repeat (OEventWait i false) n.
Proof.
  induction n as [|n IH]; [reflexivity|].
  cbn [repeat filter is_wait_of]. now rewrite Z.eqb_refl, IH.
Qed.

Section DeadWorker.
Context {Coverage Snapshot : Type}.
Variable export_merged_ide_coverage : list Snapshot -> ide_cov_t.
Variable cenv : campaign_env Snapshot.
Variable passive verbose_coverage : bool.

#[local] Abbreviation poll_worker' :=
  (poll_worker Snapshot export_merged_ide_coverage cenv passive
               verbose_coverage).
#[local] Abbreviation poll_processes' :=
  (poll_processes Coverage Snapshot export_merged_ide_coverage cenv passive
                  verbose_coverage).
#[local] Abbreviation poll_loop' :=
  (poll_loop Coverage Snapshot export_merged_ide_coverage cenv passive
             verbose_coverage).

Variable i : Z.



Hypothesis never_signals : forall k, ev_wait Snapshot cenv i k = false.




End DeadWorker.




(** ** A campaign with one failing worker *)

Section Does.
Context {Snapshot : Type}.




End Does.






Section OneFailure.
Context {Coverage Snapshot : Type}.
Variable new_Coverage : Coverage.
Variable export_merged_ide_coverage : list Snapshot -> ide_cov_t.
Variable sanitize_filename : string -> string.
Variable entropy : nat -> Byte.byte.
Variable cenv : campaign_env Snapshot.
Variable fuzz_test : fuzz_fn Coverage.
Variable logs_dir : string.
Variable passive : bool.
Variable network_id : string.
Variable cov_proc_num : Z.
Variable verbose_coverage : bool.

(** Worker [i] reported the exception [e], pickled in [p], and signals
    again once it has the decision. *)
Variable i : Z.
Variable p : pickled.
Variable e : exn.
Hypothesis reported : err_pipe Snapshot cenv i = Some (Some p).
Hypothesis loadable : pickle_loads p = inr e.
Hypothesis acknowledges : ev_ack Snapshot cenv i = true.

Variable attach : bool.
Variable lines_after : list string.









(** From round [N] on every worker is found finished. *)
Variable N : nat.



End OneFailure.
(** ** A worker whose test raises *)



(** C1, the claim as stated fails: with a test whose exception cannot
    be pickled the worker sends nothing.  The handler leaves the log
    resources and [pickle.dumps] raises, so the worker ends its run,
    having killed the node, without a write to its error pipe, without
    a signal on its event and without a decision received. *)
Lemma unpicklable_exception_counterexample :
  let run := _run unit detach_env unpicklable_test 1 8546 (repeat Byte.x01 8)
                  "logs/tests.test_counter.test_fuzz_1.ansi" false "anvil"
                  (Some tt) wstate0 in
  fn_body unpicklable_test [Some (tt, 0)]
  = Raise (UnpicklableException
             "LockedError" (TypeError "cannot pickle '_thread.lock' object"))
  /\ fst run = Ok tt
  /\ filter is_err_send (trace (snd run)) = []
  /\ filter is_finished_set (trace (snd run)) = []
  /\ filter is_err_recv (trace (snd run)) = []
  /\ filter is_kill (trace (snd run)) = [Kill].
Proof. vm_compute. repeat split. Qed.

(* ===================================================================== *)
(** * Further properties *)

(** ** The test's arguments *)

(** X1.  [_run_core] accepts a test exactly when all its declared
    parameters are called "coverage": it then passes each of them the
    same value, the coverage probe when coverage is collected and [None]
    when it is not; otherwise it raises the [ValueError] that names the
    first other parameter and the test function. *)
Theorem build_args_recognises_coverage_only
        Coverage env (f : fuzz_fn Coverage) (coverage : option Coverage) :
  (Forall (fun arg => arg = "coverage") (fn_args f) ->
   build_args Coverage env f coverage (fn_args f) []
   = inr (repeat (coverage_arg env coverage) (List.length (fn_args f))))
  /\ (forall before arg after,
         fn_args f = before ++ arg :: after ->
         Forall (fun a => a = "coverage") before ->
         arg <> "coverage" ->
         build_args Coverage env f coverage (fn_args f) []
         = inl (ValueError ("Unable to set value for '" ++ arg
                            ++ "' argument in '" ++ fn_name f
                            ++ "' function.")%string))
  /\ (forall args,
         build_args Coverage env f coverage (fn_args f) [] = inr args ->
         Forall (fun arg => arg = "coverage") (fn_args f)).
Proof.
  rewrite build_args_acc. unfold first_unknown. split; [|split].
  - intro Hall.
    assert (H : find (fun arg => negb (arg =? "coverage")%string) (fn_args f)
                = None).
    { induction Hall as [|a l -> _ IH]; [reflexivity|]. cbn. exact IH. }
    now rewrite H.
  - intros before arg after -> Hall Hne.
    assert (H : find (fun a => negb (a =? "coverage")%string)
                     (before ++ arg :: after) = Some arg).
    { induction Hall as [|a l -> _ IH]; cbn [app find].
      - apply String.eqb_neq in Hne. now rewrite Hne.
      - cbn. exact IH. }
    now rewrite H.
  - intros args H.
    destruct (find (fun arg => negb (arg =? "coverage")%string) (fn_args f))
      as [arg|] eqn:E; [discriminate|].
    apply Forall_forall. intros a Ha.
    pose proof (find_none _ _ E a Ha) as Hn. cbn in Hn.
    apply negb_false_iff in Hn. now apply String.eqb_eq in Hn.
Qed.

Lemma build_args_recognises_coverage_only_witness :
  build_args unit detach_env passing_test None (fn_args passing_test) []
  = inr [None].
Proof.
  destruct (build_args_recognises_coverage_only
              unit detach_env passing_test None) as [H _].
  apply H. repeat constructor.
Defined.

(** ** Runs of a worker that do not end in the handler *)

(** X2.  A worker whose test returns (node launched and connected,
    parameters recognised) ends normally; it writes its error pipe
    exactly once, with the "no error" value [None], sets its completion
    event exactly once, right after that write, and only then starts its
    cleanup: the node is killed after the signal. *)
Theorem passing_worker_reports_no_error
        Coverage env (f : fuzz_fn Coverage)
        (index port : Z) (random_seed : bytes) (log_file : string)
        (tee : bool) (network_id : string) (coverage : option Coverage)
        (popen_args : list string) (targs : list (test_arg Coverage)) :
  _setup_args port network_id = inr popen_args ->
  (refusals env <= budget env)%nat ->
  build_args Coverage env f coverage (fn_args f) [] = inr targs ->
  fn_body f targs = Ok tt ->
  let run := _run Coverage env f index port random_seed log_file tee
                  network_id coverage wstate0 in
  fst run = Ok tt
  /\ filter is_err_send (trace (snd run)) = [ErrSend None]
  /\ filter is_finished_set (trace (snd run)) = [FinishedSet]
  /\ filter is_call_test (trace (snd run)) = [CallTest (fn_name f)]
  /\ exists before after,
       trace (snd run) = before ++ ErrSend None :: FinishedSet :: after
       /\ filter is_kill before = []
       /\ filter is_kill after = [Kill].
Proof.
  intros Hargs Hconn Hbuild Hbody run. subst run.
  rewrite (run_passing_trace Coverage env f index port random_seed log_file
             tee network_id coverage popen_args Hargs Hconn targs Hbuild
             Hbody).
  cbn [fst snd trace].
  destruct (until_call_facts index port random_seed log_file tee popen_args
              (refusals env) (reset_supported env))
    as (_ & _ & U3 & U4 & U5 & U6 & _).
  destruct (kill_trace_facts log_file) as (_ & _ & K3 & K4 & K5 & K6).
  split; [reflexivity|].
  rewrite !filter_app. cbn [filter is_err_send is_finished_set is_call_test].
  rewrite U3, U4, U5, K4, K5, K6.
  rewrite !(filter_map_ctx _ Exit) by reflexivity.
  repeat split.
  exists (until_call index port random_seed log_file tee popen_args
                     (refusals env) (reset_supported env)
          ++ [CallTest (fn_name f)]),
    (map Exit (log_resources tee log_file)
     ++ ChainExit :: kill_trace log_file).
  split; [now rewrite <- app_assoc|].
  rewrite !filter_app. cbn [filter is_kill].
  rewrite U6, K3, (filter_map_ctx _ Exit) by reflexivity.
  split; reflexivity.
Qed.

Lemma passing_worker_reports_no_error_witness :
  let run := _run unit detach_env passing_test 0 8545 (repeat Byte.x01 8)
                  "logs/t_0.ansi" true "anvil" None wstate0 in
  fst run = Ok tt
  /\ filter is_err_send (trace (snd run)) = [ErrSend None]
  /\ filter is_finished_set (trace (snd run)) = [FinishedSet].
Proof.
  pose proof
    (passing_worker_reports_no_error
       unit detach_env passing_test 0 8545 (repeat Byte.x01 8)
       "logs/t_0.ansi" true "anvil" None
       ["anvil"; "--port"; "8545"; "--prune-history"; "--gas-price"; "0";
        "--base-fee"; "0"; "--steps-tracing"]
       [None] eq_refl ltac:(simpl; lia) eq_refl eq_refl) as H.
  cbv zeta in H. destruct H as (H1 & H2 & H3 & _).
  split; [exact H1|]. split; [exact H2|exact H3].
Defined.

(** X3.  When the test declares a parameter other than "coverage", the
    worker never calls the test, writes nothing to its error pipe and
    never sets its completion event; the [ValueError] is swallowed by
    [_run], which releases its log resources, kills the node and ends
    normally. *)
Theorem unknown_parameter_is_never_reported
        Coverage env (f : fuzz_fn Coverage)
        (index port : Z) (random_seed : bytes) (log_file : string)
        (tee : bool) (network_id : string) (coverage : option Coverage)
        (popen_args : list string) (before : list string) (arg : string)
        (after : list string) :
  _setup_args port network_id = inr popen_args ->
  (refusals env <= budget env)%nat ->
  fn_args f = before ++ arg :: after ->
  Forall (fun a => a = "coverage") before ->
  arg <> "coverage" ->
  let run := _run Coverage env f index port random_seed log_file tee
                  network_id coverage wstate0 in
  fst run = Ok tt
  /\ filter is_call_test (trace (snd run)) = []
  /\ filter is_err_send (trace (snd run)) = []
  /\ filter is_finished_set (trace (snd run)) = []
  /\ exited (trace (snd run))
     = log_resources tee log_file
       ++ [RedirectStderr log_file; RedirectStdout log_file; LogFile log_file]
  /\ filter is_kill (trace (snd run)) = [Kill].
Proof.
  intros Hargs Hconn Hnames Hcov Harg run. subst run.
  destruct (unknown_parameter_rejected
              Coverage env f coverage before arg after Hnames Hcov Harg)
    as [e Hbuild].
  rewrite (run_bad_args_trace Coverage env f index port random_seed log_file
             tee network_id coverage popen_args Hargs Hconn e Hbuild).
  cbn [fst snd trace].
  destruct (until_call_facts index port random_seed log_file tee popen_args
              (refusals env) (reset_supported env))
    as (_ & U2 & U3 & U4 & U5 & U6 & _).
  destruct (kill_trace_facts log_file) as (_ & K2 & K3 & K4 & K5 & K6).
  destruct (entered_exited_map (log_resources tee log_file))
    as (_ & _ & _ & E4).
  split; [reflexivity|].
  rewrite !filter_app, !exited_app.
  cbn [filter exited is_err_send is_finished_set is_call_test is_kill].
  rewrite U2, U3, U4, U5, U6, K2, K3, K4, K5, K6, E4.
  rewrite !(filter_map_ctx _ Exit) by reflexivity.
  repeat split; reflexivity.
Qed.

Lemma unknown_parameter_is_never_reported_witness :
  let run := _run unit detach_env seeded_test 0 8545 (repeat Byte.x01 8)
                  "logs/t_0.ansi" false "anvil" None wstate0 in
  fst run = Ok tt
  /\ filter is_call_test (trace (snd run)) = []
  /\ filter is_err_send (trace (snd run)) = []
  /\ filter is_finished_set (trace (snd run)) = []
  /\ filter is_kill (trace (snd run)) = [Kill].
Proof.
  pose proof
    (unknown_parameter_is_never_reported
       unit detach_env seeded_test 0 8545 (repeat Byte.x01 8)
       "logs/t_0.ansi" false "anvil" None
       ["anvil"; "--port"; "8545"; "--prune-history"; "--gas-price"; "0";
        "--base-fee"; "0"; "--steps-tracing"]
       ["coverage"] "seed" [] eq_refl ltac:(simpl; lia) eq_refl
       (Forall_cons "coverage" eq_refl (Forall_nil _))
       ltac:(discriminate)) as H.
  cbv zeta in H. destruct H as (H1 & H2 & H3 & H4 & _ & H6).
  repeat split; assumption.
Defined.


(** ** The connect loop giving up *)

Lemma connect_loop_timeout env url (refused : nat) :
  forall k s,
    (k <= budget env < refused + k)%nat ->
    connect_loop env url refused k s
    = (Raise (refusal_exn (refused_with env (budget env))),
       {| ctx_managers := ctx_managers s;
          handler_set := handler_set s;
          trace := trace s ++ refused_trace url (budget env - k + 1) |}).
Proof.
  induction refused as [|r IH]; intros k [c h t] Hk; [lia|].
  cbn [connect_loop]. unfold bind at 1 2 3.
  cbn [emit ctx_managers handler_set trace].
  destruct (Nat.leb_spec (budget env) k) as [Hle|Hgt].
  - replace (budget env - k + 1)%nat with 1%nat by lia.
    replace k with (budget env) by lia.
    unfold raise. cbn [refused_trace]. rewrite <- !app_assoc. reflexivity.
  - rewrite IH by lia. cbn [ctx_managers handler_set trace].
    replace (budget env - k + 1)%nat with (S (budget env - S k + 1)) by lia.
    cbn [refused_trace]. rewrite <- !app_assoc. reflexivity.
Qed.

Lemma refused_trace_facts url m :
  entered (refused_trace url m) = []
  /\ filter is_err_send (refused_trace url m) = []
  /\ filter is_finished_set (refused_trace url m) = []
  /\ filter is_kill (refused_trace url m) = []
  /\ filter is_popen (refused_trace url m) = []
  /\ List.length (filter is_sleep (refused_trace url m)) = m.
Proof.
  induction m as [|m (H1 & H2 & H3 & H4 & H5 & H6)]; cbn;
    [repeat split; reflexivity|].
  rewrite H6. repeat split; assumption.
Qed.

(** X5.  When more connection attempts fail than the retry budget
    allows, [_run] is left, after [budget + 1] attempts, each followed
    by a sleep, by the exception that the last of them raised: a
    [ConnectionRefusedError] or a [URLError].  By then the node
    process was spawned, and it is never killed; no log resource was
    entered, nothing was written to the error pipe and the completion
    event was never set. *)
Theorem connect_timeout_leaves_node_running
        Coverage env (f : fuzz_fn Coverage)
        (index port : Z) (random_seed : bytes) (log_file : string)
        (tee : bool) (network_id : string) (coverage : option Coverage)
        (popen_args : list string) :
  _setup_args port network_id = inr popen_args ->
  (budget env < refusals env)%nat ->
  let run := _run Coverage env f index port random_seed log_file tee
                  network_id coverage wstate0 in
  fst run = Raise (refusal_exn (refused_with env (budget env)))
  /\ filter is_popen (trace (snd run)) = [Popen popen_args]
  /\ filter is_kill (trace (snd run)) = []
  /\ entered (trace (snd run)) = []
  /\ filter is_err_send (trace (snd run)) = []
  /\ filter is_finished_set (trace (snd run)) = []
  /\ List.length (filter is_sleep (trace (snd run))) = S (budget env).
Proof.
  intros Hargs Hconn run. subst run.
  assert (Hrun :
            _run Coverage env f index port random_seed log_file tee
                 network_id coverage wstate0
            = (Raise (refusal_exn (refused_with env (budget env))),
               {| ctx_managers := [];
                  handler_set := true;
                  trace := [PicklingSupportInstall; RandomSeed random_seed;
                            Popen popen_args; SetExceptionHandler]
                           ++ refused_trace
                                ("http://localhost:" ++ str port)%string
                                (budget env - 0 + 1) |})).
  { unfold _run, _setup. rewrite Hargs.
    unfold bind at 1 2 3 4 5.
    cbn [put_ctx_managers emit set_exception_handler ctx_managers handler_set
         trace wstate0 app].
    unfold bind at 1. rewrite connect_loop_timeout by lia. reflexivity. }
  rewrite Hrun. cbn [fst snd trace app].
  destruct (refused_trace_facts ("http://localhost:" ++ str port)%string
                                (budget env - 0 + 1))
    as (R1 & R2 & R3 & R4 & R5 & R6).
  cbn [filter entered is_popen is_kill is_err_send is_finished_set is_sleep].
  rewrite R1, R2, R3, R4, R5, R6.
  repeat split; try reflexivity. lia.
Qed.

Lemma connect_timeout_leaves_node_running_witness :
  let run := _run unit unreachable_env passing_test 0 8545
                  (repeat Byte.x01 8) "logs/t_0.ansi" false "anvil" None
                  wstate0 in
  fst run = Raise URLError
  /\ filter is_kill (trace (snd run)) = []
  /\ List.length (filter is_sleep (trace (snd run))) = 100%nat.
Proof.
  pose proof
    (connect_timeout_leaves_node_running
       unit unreachable_env passing_test 0 8545 (repeat Byte.x01 8)
       "logs/t_0.ansi" false "anvil" None
       ["anvil"; "--port"; "8545"; "--prune-history"; "--gas-price"; "0";
        "--base-fee"; "0"; "--steps-tracing"]
       eq_refl ltac:(simpl; lia)) as H.
  cbv zeta in H. destruct H as (H1 & _ & H3 & _ & _ & _ & H7).
  repeat split; assumption.
Defined.

(** ** What the spawn loop hands to the workers *)

Section SpawnedWorkers.
Context {Coverage Snapshot : Type}.
Variable new_Coverage : Coverage.
Variable sanitize_filename : string -> string.
Variable entropy : nat -> Byte.byte.
Variable fuzz_test : fuzz_fn Coverage.
Variable logs_dir : string.
Variable passive : bool.
Variable network_id : string.
Variable cov_proc_num : Z.

#[local] Abbreviation spawn' :=
  (spawn Coverage new_Coverage Snapshot sanitize_filename entropy fuzz_test
         logs_dir passive network_id cov_proc_num).

Lemma spawned_items (process_count : Z) (seeds : list bytes)
      (item : Z * run_args Coverage) :
  In item
     (spawned Coverage new_Coverage sanitize_filename fuzz_test logs_dir
              passive network_id cov_proc_num
              (combine (range process_count)
                       (make_random_seeds entropy process_count seeds))) ->
  0 <= fst item < process_count
  /\ exists seed,
       snd item
       = worker_args Coverage new_Coverage sanitize_filename fuzz_test
                     logs_dir passive network_id cov_proc_num (fst item) seed.
Proof.
  unfold spawned. intro Hin. apply in_map_iff in Hin as [[j seed] [<- Hin]].
  cbn [fst snd]. split; [|eauto].
  apply in_combine_l in Hin. now apply In_range.
Qed.

(** X6.  Coverage is collected by exactly the workers whose index is
    below [cov_proc_num]: each of them gets a coverage object and every
    other worker gets [None]; with [cov_proc_num] zero (or negative) no
    worker collects coverage. *)
Theorem coverage_for_first_workers_only
        (process_count : Z) (seeds : list bytes) (s : ostate Snapshot) :
  exists processes s',
    spawn' process_count seeds s = (Ok processes, s')
    /\ Forall
         (fun item : Z * run_args Coverage =>
            a_coverage (snd item)
            = if fst item <? cov_proc_num then Some new_Coverage else None)
         processes
    /\ (cov_proc_num <= 0 ->
        Forall (fun item : Z * run_args Coverage =>
                  a_coverage (snd item) = None) processes)
    /\ (process_count <= cov_proc_num ->
        Forall (fun item : Z * run_args Coverage =>
                  a_coverage (snd item) = Some new_Coverage) processes).
Proof.
  destruct (spawn_spec new_Coverage sanitize_filename entropy fuzz_test
              logs_dir passive network_id cov_proc_num process_count seeds s)
    as [s' Hs'].
  eexists. exists s'. split; [exact Hs'|].
  assert (H : forall item,
             In item
                (spawned Coverage new_Coverage sanitize_filename fuzz_test
                         logs_dir passive network_id cov_proc_num
                         (combine (range process_count)
                                  (make_random_seeds entropy process_count
                                                     seeds))) ->
             0 <= fst item < process_count
             /\ a_coverage (snd item)
                = if fst item <? cov_proc_num then Some new_Coverage
                  else None).
  { intros item Hin.
    destruct (spawned_items process_count seeds item Hin) as [Hi [seed ->]].
    split; [exact Hi|]. cbn [worker_args a_coverage].
    destruct (Z.ltb_spec (fst item) cov_proc_num); [|reflexivity].
    destruct (Z.eqb_spec cov_proc_num 0); [lia|reflexivity]. }
  split; [|split].
  - apply Forall_forall. intros item Hin. now apply H.
  - intro Hle. apply Forall_forall. intros item Hin.
    destruct (H item Hin) as [Hi ->].
    destruct (Z.ltb_spec (fst item) cov_proc_num); [lia|reflexivity].
  - intro Hle. apply Forall_forall. intros item Hin.
    destruct (H item Hin) as [Hi ->].
    destruct (Z.ltb_spec (fst item) cov_proc_num); [reflexivity|lia].
Qed.

(** X7.  Every spawned worker is started with its own index, the
    campaign's network kind and the port 8545 plus its index, so that no
    two workers of a campaign share a port. *)
Theorem workers_get_distinct_ports
        (process_count : Z) (seeds : list bytes) (s : ostate Snapshot) :
  exists processes s',
    spawn' process_count seeds s = (Ok processes, s')
    /\ Forall
         (fun item : Z * run_args Coverage =>
            a_index (snd item) = fst item
            /\ a_port (snd item) = 8545 + fst item
            /\ a_network_id (snd item) = network_id)
         processes
    /\ NoDup (map (fun item : Z * run_args Coverage => a_port (snd item))
                  processes).
Proof.
  destruct (spawn_spec new_Coverage sanitize_filename entropy fuzz_test
              logs_dir passive network_id cov_proc_num process_count seeds s)
    as [s' Hs'].
  eexists. exists s'. split; [exact Hs'|]. split.
  - apply Forall_forall. intros item Hin.
    destruct (spawned_items process_count seeds item Hin) as [_ [seed ->]].
    repeat split.
  - unfold spawned. rewrite map_map. cbn [snd worker_args a_port].
    rewrite <- (map_map fst (fun i => 8545 + i)).
    apply Injective_map_NoDup; [intros a b; lia|].
    rewrite combine_fst_firstn.
    apply (NoDup_app_remove_r
             _ (skipn (List.length
                         (make_random_seeds entropy process_count seeds))
                      (range process_count))).
    rewrite firstn_skipn. apply range_NoDup.
Qed.
End SpawnedWorkers.

(** ** A campaign without workers *)

(** X8.  With [process_count] zero or negative [fuzz] starts no worker,
    whatever seeds it is given, never polls, and is over at once: it only
    touches the progress display. *)
Theorem fuzz_without_workers
        Coverage (new_Coverage : Coverage) Snapshot
        (merge : list Snapshot -> ide_cov_t)
        (sanitize_filename : string -> string) (entropy : nat -> Byte.byte)
        (cenv : campaign_env Snapshot) (fuzz_test : fuzz_fn Coverage)
        (logs_dir : string) (passive : bool) (network_id : string)
        (cov_proc_num : Z) (verbose_coverage : bool) (fuel : nat)
        (process_count : Z) (seeds : list bytes) (s : ostate Snapshot) :
  process_count <= 0 ->
  fuzz Coverage new_Coverage Snapshot merge sanitize_filename entropy cenv
       fuzz_test logs_dir passive network_id cov_proc_num verbose_coverage
       fuel process_count seeds s
  = (Ok None,
     add_log ((if passive then [OProgressStop] else [])
              ++ [OProgressAddTask 0; OProgressFinished]) s).
Proof.
  intro Hle. unfold fuzz, spawn.
  assert (Hr : range process_count = []).
  { unfold range. replace (Z.to_nat process_count) with 0%nat by lia.
    reflexivity. }
  rewrite Hr. cbn [combine spawn_loop].
  destruct s as [d dpt lines log]. destruct fuel, passive;
    unfold bind, oemit, ret, add_log; cbn; rewrite <- ?app_assoc;
    reflexivity.
Qed.

Lemma fuzz_without_workers_witness :
  fuzz unit tt unit no_coverage (fun n => n) zero_entropy dead_workers_env
       passing_test "logs" false "anvil" 0 false 7 0 [repeat Byte.x01 8]
       (ostate0 [])
  = (Ok None, add_log [OProgressAddTask 0; OProgressFinished] (ostate0 [])).
Proof.
  exact (fuzz_without_workers
           unit tt unit no_coverage (fun n => n) zero_entropy
           dead_workers_env passing_test "logs" false "anvil" 0 false 7 0
           [repeat Byte.x01 8] (ostate0 []) ltac:(lia)).
Defined.

(** ** A campaign whose workers all finish cleanly *)


(** X9.  When every worker of a campaign finishes without error (its
    pipe holds "no error") and has its completion event set from poll
    round [N] on, [fuzz] is over within [N + 1] rounds: the poll loop is
    left with an empty process table, and no line was read from the
    terminal. *)
Theorem clean_campaign_is_over
        Coverage (new_Coverage : Coverage) Snapshot
        (merge : list Snapshot -> ide_cov_t)
        (sanitize_filename : string -> string) (entropy : nat -> Byte.byte)
        (cenv : campaign_env Snapshot) (fuzz_test : fuzz_fn Coverage)
        (logs_dir : string) (passive : bool) (network_id : string)
        (cov_proc_num : Z) (verbose_coverage : bool) (N fuel : nat)
        (process_count : Z) (seeds : list bytes) (s : ostate Snapshot) :
  (forall i, 0 <= i < process_count ->
             err_pipe Snapshot cenv i = Some None
             /\ forall k, (N <= k)%nat -> ev_wait Snapshot cenv i k = true) ->
  (N < fuel)%nat ->
  let r := fuzz Coverage new_Coverage Snapshot merge sanitize_filename
                entropy cenv fuzz_test logs_dir passive network_id
                cov_proc_num verbose_coverage fuel process_count seeds s in
  fst r = Ok None /\ stdin (snd r) = stdin s.
Proof.
  intros Hclean Hfuel r. subst r.
  enough (H : exists s',
             fuzz Coverage new_Coverage Snapshot merge sanitize_filename
                  entropy cenv fuzz_test logs_dir passive network_id
                  cov_proc_num verbose_coverage fuel process_count seeds s
             = (Ok None, s')
             /\ stdin s' = stdin s).
  { destruct H as [s' [-> H]]. split; [reflexivity|exact H]. }
  unfold fuzz.
  destruct (spawn_spec new_Coverage sanitize_filename entropy fuzz_test
              logs_dir passive network_id cov_proc_num process_count seeds s)
    as [s1 Hs1].
  assert (Hstdin1 : stdin s1 = stdin s).
  { assert (H : forall items processes (t : ostate Snapshot),
               stdin (snd (spawn_loop Coverage new_Coverage Snapshot
                                      sanitize_filename fuzz_test logs_dir
                                      passive network_id cov_proc_num items
                                      processes t))
               = stdin t).
    { induction items as [|[i seed] l IHl]; intros processes t;
        [reflexivity|].
      cbn [spawn_loop]. unfold bind at 1 2. cbn [oemit].
      rewrite IHl. reflexivity. }
    unfold spawn in Hs1.
    specialize (H (combine (range process_count)
                           (make_random_seeds entropy process_count seeds))
                  PyDict.empty s).
    now rewrite Hs1 in H. }
  unfold bind at 1. rewrite Hs1.
  set (processes :=
         spawned Coverage new_Coverage sanitize_filename fuzz_test logs_dir
                 passive network_id cov_proc_num
                 (combine (range process_count)
                          (make_random_seeds entropy process_count seeds))).
  assert (Hrest :
            runs_ok
              ((if passive then oemit Snapshot OProgressStop else ret tt) ;;
               oemit Snapshot (OProgressAddTask (len processes)) ;;
               r <- poll_loop Coverage Snapshot merge cenv passive
                              verbose_coverage fuel 0 processes ;;
               match r with
               | None => oemit Snapshot OProgressFinished ;; ret None
               | Some still => ret (Some still)
               end)
              None).
  { eapply runs_ok_bind;
      [destruct passive; [apply runs_ok_oemit|apply runs_ok_ret]|].
    eapply runs_ok_bind; [apply runs_ok_oemit|].
    eapply runs_ok_bind.
    - apply (poll_loop_clean merge cenv passive verbose_coverage N);
        [|lia|lia].
      intros i Hi. apply Hclean. subst processes.
      rewrite spawned_keys in Hi.
      apply in_map_iff in Hi as [[j seed] [<- Hin]].
      apply in_combine_l in Hin. now apply In_range.
    - eapply runs_ok_bind; [apply runs_ok_oemit|apply runs_ok_ret]. }
  destruct (Hrest s1) as [s2 [H2 E2]]. exists s2.
  split; [exact H2|congruence].
Qed.

Lemma clean_campaign_is_over_witness :
  fst (fuzz unit tt unit no_coverage (fun n => n) zero_entropy
            {| ev_wait := fun i k => (Z.to_nat i <=? k)%nat;
               err_pipe := fun _ => Some None;
               ev_ack := fun _ => true;
               cov_queue := fun _ _ => [] |}
            passing_test "logs" false "anvil" 0 false
            4 3 [repeat Byte.x01 8] (ostate0 []))
  = Ok None.
Proof.
  refine (proj1
            (clean_campaign_is_over
               unit tt unit no_coverage (fun n => n) zero_entropy
               {| ev_wait := fun i k => (Z.to_nat i <=? k)%nat;
                  err_pipe := fun _ => Some None;
                  ev_ack := fun _ => true;
                  cov_queue := fun _ _ => [] |}
               passing_test "logs" false "anvil" 0 false 3 4 3
               [repeat Byte.x01 8] (ostate0 []) _ ltac:(lia))).
  intros i Hi. split; [reflexivity|].
  intros k Hk. cbn. apply Nat.leb_le. lia.
Defined.

(** ** When the coverage files are written *)


Section CoverageFiles.
Context {Coverage Snapshot : Type}.
Variable new_Coverage : Coverage.
Variable export_merged_ide_coverage : list Snapshot -> ide_cov_t.
Variable sanitize_filename : string -> string.
Variable entropy : nat -> Byte.byte.
Variable cenv : campaign_env Snapshot.
Variable fuzz_test : fuzz_fn Coverage.
Variable logs_dir : string.
Variable passive : bool.
Variable network_id : string.
Variable cov_proc_num : Z.
Variable verbose_coverage : bool.

Lemma handshake_never_writes (i : Z) :
  never is_write (handshake Snapshot cenv passive i).
Proof.
  unfold handshake. apply never_bind.
  - unfold err_parent_recv. destruct (err_pipe Snapshot cenv i);
      [|apply never_hang].
    apply never_bind; [now apply never_oemit|]. intros _. apply never_ret.
  - intros [pk|]; [|apply never_ret].
    destruct (pickle_loads pk) as [err|e]; [apply never_raise|].
    apply never_bind.
    + unfold attach_decision.
      destruct (negb passive || (i =? 0)); [|apply never_ret].
      apply never_bind;
        [destruct (negb passive); [now apply never_oemit|apply never_ret]|].
      intros _. apply never_bind; [now apply never_oemit|].
      intros _. apply never_bind; [now apply never_oemit|].
      intros _. now apply never_prompt_attach.
    + intros attach. apply never_bind; [now apply never_oemit|].
      intros _. apply never_bind; [now apply never_oemit|].
      intros _. apply never_bind.
      * unfold event_wait_set. destruct (ev_ack Snapshot cenv i);
          [now apply never_oemit|apply never_hang].
      * intros _. destruct (negb passive);
          [now apply never_oemit|apply never_ret].
Qed.

Lemma spawn_loop_never_writes items :
  forall processes,
    never is_write
          (spawn_loop Coverage new_Coverage Snapshot sanitize_filename
                      fuzz_test logs_dir passive network_id cov_proc_num
                      items processes).
Proof.
  induction items as [|[i seed] r IH]; intro processes; [apply never_ret|].
  cbn [spawn_loop]. apply never_bind; [now apply never_oemit|].
  intros _. cbv zeta. apply never_bind; [now apply never_oemit|].
  intros _. apply IH.
Qed.

(** No snapshot ever arrives, or the merge never finds anything. *)
Hypothesis nothing_to_write :
  (forall i k, cov_queue Snapshot cenv i k = [])
  \/ (forall records, export_merged_ide_coverage records = []).

Lemma drain_never_writes (i : Z) (round : nat) :
  never is_write
        (drain Snapshot export_merged_ide_coverage passive verbose_coverage i
               (cov_queue Snapshot cenv i round)).
Proof.
  destruct nothing_to_write as [Hq|Hm]; [rewrite Hq; apply never_ret|].
  assert (Hrep : never is_write
                       (merge_and_report Snapshot export_merged_ide_coverage
                                         passive verbose_coverage)).
  { intro s. rewrite merge_and_report_run. eexists.
    split; [reflexivity|]. unfold report, merged_full. now rewrite Hm. }
  induction (cov_queue Snapshot cenv i round) as [|got rest IH];
    [apply never_ret|].
  cbn [drain]. destruct got as [x|].
  - destruct rest as [|y r]; [|exact IH].
    apply never_bind; [apply never_store_coverage|].
    intros _. apply never_bind; [exact Hrep|]. intros _. apply never_ret.
  - apply never_bind; [exact Hrep|]. intros _. exact IH.
Qed.

Lemma poll_loop_never_writes (fuel : nat) :
  forall round processes,
    never is_write
          (poll_loop Coverage Snapshot export_merged_ide_coverage cenv passive
                     verbose_coverage fuel round processes).
Proof.
  assert (Hw : forall round n tbr i,
             never is_write
                   (poll_worker Snapshot export_merged_ide_coverage cenv
                                passive verbose_coverage round n tbr i)).
  { intros round n tbr i. unfold poll_worker.
    apply never_bind; [now apply never_oemit|]. intros _.
    apply never_bind.
    - destruct (ev_wait Snapshot cenv i round); [|apply never_ret].
      apply never_bind; [apply handshake_never_writes|]. intros _.
      apply never_bind; [now apply never_oemit|]. intros _.
      apply never_bind;
        [destruct (i =? 0); [now apply never_oemit|apply never_ret]|].
      intros _. apply never_ret.
    - intros tbr'. apply never_bind; [apply drain_never_writes|]. intros _.
      apply never_bind;
        [destruct (ev_wait Snapshot cenv i round);
         [now apply never_oemit|apply never_ret]|].
      intros _. apply never_ret. }
  assert (Hp : forall round n items tbr,
             never is_write
                   (poll_processes Coverage Snapshot export_merged_ide_coverage
                                   cenv passive verbose_coverage round n items
                                   tbr)).
  { intros round n items. induction items as [|[i pr] r IH]; intro tbr;
      [apply never_ret|].
    cbn [poll_processes]. apply never_bind; [apply Hw|]. intros tbr'.
    apply IH. }
  induction fuel as [|fuel IH]; intros round processes;
    (destruct processes as [|pr ps]; [apply never_ret|]);
    [apply never_ret|].
  cbn [poll_loop]. apply never_bind; [apply Hp|]. intros tbr. apply IH.
Qed.

(** X10.  The two coverage files are written only after a snapshot has
    arrived and the merge of the stored snapshots is non-empty: in a
    campaign in which no worker ever puts a snapshot into its queue, or
    in which the merge never finds anything, [fuzz] writes no file,
    however long it runs and whatever else happens. *)
Theorem no_coverage_no_files (fuel : nat) (process_count : Z)
        (seeds : list bytes) (s : ostate Snapshot) :
  exists evs,
    olog (snd (fuzz Coverage new_Coverage Snapshot export_merged_ide_coverage
                    sanitize_filename entropy cenv fuzz_test logs_dir passive
                    network_id cov_proc_num verbose_coverage fuel
                    process_count seeds s))
    = olog s ++ evs
    /\ filter is_write evs = [].
Proof.
  revert s. change (never is_write
                          (fuzz Coverage new_Coverage Snapshot
                                export_merged_ide_coverage sanitize_filename
                                entropy cenv fuzz_test logs_dir passive
                                network_id cov_proc_num verbose_coverage fuel
                                process_count seeds)).
  unfold fuzz. apply never_bind; [apply spawn_loop_never_writes|].
  intros processes. apply never_bind;
    [destruct passive; [now apply never_oemit|apply never_ret]|].
  intros _. apply never_bind; [now apply never_oemit|].
  intros _. apply never_bind; [apply poll_loop_never_writes|].
  intros [still|]; [apply never_ret|].
  apply never_bind; [now apply never_oemit|]. intros _. apply never_ret.
Qed.
End CoverageFiles.

Lemma no_coverage_no_files_witness :
  exists evs,
    olog (snd (fuzz unit tt unit no_coverage (fun n => n) zero_entropy
                    one_failure_env passing_test "logs" false "anvil" 2 true
                    3 2 [] (ostate0 ["n"])))
    = olog (ostate0 (Snapshot := unit) ["n"]) ++ evs
    /\ filter is_write evs = [].
Proof.
  exact (no_coverage_no_files
           tt no_coverage (fun n => n) zero_entropy one_failure_env
           passing_test "logs" false "anvil" 2 true
           (or_intror (fun _ => eq_refl)) 3 2 [] (ostate0 ["n"])).
Defined.

(** ** The prompt on a terminal that gives no answer *)




(** ** The order of the per-function lines *)

Lemma insert_desc_perm (x : string * Z) (l : list (string * Z)) :
  Permutation (x :: l) (insert_desc x l).
Proof.
  induction l as [|y r IH]; cbn [insert_desc]; [reflexivity|].
  destruct (snd y <? snd x); [reflexivity|].
  rewrite perm_swap. now constructor.
Qed.

Lemma insert_desc_sorted (x : string * Z) (l : list (string * Z)) :
  StronglySorted (fun a b => snd b <= snd a) l ->
  StronglySorted (fun a b => snd b <= snd a) (insert_desc x l).
Proof.
  induction l as [|y r IH]; intro Hs; cbn [insert_desc].
  - repeat constructor.
  - apply StronglySorted_inv in Hs as [Hr Hy].
    destruct (Z.ltb_spec (snd y) (snd x)) as [Hlt|Hge].
    + constructor; [constructor; assumption|].
      constructor; [lia|].
      eapply Forall_impl; [|exact Hy]. cbn. intros a Ha. lia.
    + constructor; [now apply IH|].
      eapply Permutation_Forall; [apply insert_desc_perm|].
      constructor; [lia|exact Hy].
Qed.

Lemma insert_desc_stable (c : Z) (x : string * Z) (l : list (string * Z)) :
  StronglySorted (fun a b => snd b <= snd a) l ->
  filter (fun y => snd y =? c) (insert_desc x l)
  = filter (fun y => snd y =? c) l
    ++ (if snd x =? c then [x] else []).
Proof.
  induction l as [|y r IH]; intro Hs; cbn [insert_desc].
  - cbn. destruct (snd x =? c); reflexivity.
  - apply StronglySorted_inv in Hs as [Hr Hy].
    destruct (Z.ltb_spec (snd y) (snd x)) as [Hlt|Hge].
    + cbn [filter]. destruct (Z.eqb_spec (snd x) c) as [Hx|Hx];
        [|now rewrite app_nil_r].
      assert (Hnone : filter (fun y0 => snd y0 =? c) (y :: r) = []).
      { assert (Hall : Forall (fun a => (snd a =? c) = false) (y :: r)).
        { constructor; [apply Z.eqb_neq; lia|].
          eapply Forall_impl; [|exact Hy]. cbn. intros a Ha.
          apply Z.eqb_neq. lia. }
        clear - Hall. induction Hall as [|a l Ha _ IHl]; [reflexivity|].
        cbn. now rewrite Ha. }
      cbn [filter] in Hnone. now rewrite Hnone.
    + cbn [filter]. rewrite (IH Hr).
      destruct (snd y =? c); reflexivity.
Qed.

(** X12.  The per-function lines of the progress display are sorted as
    Python's [sorted(..., key=hits, reverse=True)] sorts them: the result
    has the same items, the hit counts never increase along it, and items
    with the same hit count keep the order they had. *)
Theorem sorted_desc_is_stable_sort (l : list (string * Z)) :
  Permutation l (sorted_desc l)
  /\ StronglySorted (fun a b => snd b <= snd a) (sorted_desc l)
  /\ forall c,
       filter (fun x => snd x =? c) (sorted_desc l)
       = filter (fun x => snd x =? c) l.
Proof.
  unfold sorted_desc.
  assert (H : forall l acc,
             StronglySorted (fun a b => snd b <= snd a) acc ->
             Permutation (acc ++ l)
                         (fold_left (fun acc x => insert_desc x acc) l acc)
             /\ StronglySorted (fun a b => snd b <= snd a)
                               (fold_left (fun acc x => insert_desc x acc)
                                          l acc)
             /\ forall c,
                  filter (fun x => snd x =? c)
                         (fold_left (fun acc x => insert_desc x acc) l acc)
                  = filter (fun x => snd x =? c) acc
                    ++ filter (fun x => snd x =? c) l).
  { clear l. induction l as [|x l IH]; intros acc Hacc; cbn [fold_left].
    - rewrite app_nil_r. split; [reflexivity|]. split; [exact Hacc|].
      intro c. now rewrite app_nil_r.
    - destruct (IH (insert_desc x acc) (insert_desc_sorted x acc Hacc))
        as (Hp & Hs & Hf).
      split; [|split; [exact Hs|]].
      + rewrite <- Hp. rewrite <- (insert_desc_perm x acc).
        symmetry. apply Permutation_middle.
      + intro c. rewrite Hf, (insert_desc_stable c x acc Hacc).
        rewrite <- app_assoc. cbn [filter].
        destruct (snd x =? c); reflexivity. }
  destruct (H l [] (SSorted_nil _)) as (Hp & Hs & Hf).
  split; [exact Hp|]. split; [exact Hs|]. intro c. now rewrite Hf.
Qed.

(** ** Coverage per function: names that do not clash *)

Lemma set_fresh_str {V} (k : string) (v : V) (d : PyDict.t) :
  ~ In k (PyDict.keys d) -> PyDict.set String.eqb k v d = d ++ [(k, v)].
Proof.
  induction d as [|[k' v'] r IH]; intro Hni; [reflexivity|].
  cbn [PyDict.set app]. cbn in Hni.
  destruct (String.eqb_spec k k') as [->|N]; [exfalso; auto|].
  rewrite IH by tauto. reflexivity.
Qed.

Lemma keys_set_present {V} (k : string) (v : V) (d : PyDict.t) :
  In k (PyDict.keys d) ->
  PyDict.keys (PyDict.set String.eqb k v d) = PyDict.keys d.
Proof.
  induction d as [|[k' v'] r IH]; intro Hin; [destruct Hin|].
  cbn [PyDict.set]. destruct (String.eqb_spec k k') as [->|N]; [reflexivity|].
  cbn in Hin. destruct Hin as [->|Hin]; [contradiction|].
  unfold PyDict.keys in *. cbn [map fst]. now rewrite IH.
Qed.

Lemma set_keeps_dict {V} (k : string) (v : V) (d : PyDict.t) :
  NoDup (PyDict.keys d) ->
  NoDup (PyDict.keys (PyDict.set String.eqb k v d))
  /\ (PyDict.len (PyDict.set String.eqb k v d) <= S (PyDict.len d))%nat.
Proof.
  intro Hnd. destruct (in_dec string_dec k (PyDict.keys d)) as [Hin|Hni].
  - split; [now rewrite keys_set_present|].
    unfold PyDict.len. rewrite <- !(length_map fst).
    fold (PyDict.keys (PyDict.set String.eqb k v d)). fold (PyDict.keys d).
    rewrite keys_set_present by exact Hin. lia.
  - rewrite set_fresh_str by exact Hni. split.
    + unfold PyDict.keys in *. rewrite map_app. cbn [map fst].
      apply NoDup_app; [exact Hnd|repeat constructor; intros []|].
      intros a Ha [<-|[]]. contradiction.
    + unfold PyDict.len. rewrite length_app. cbn. lia.
Qed.

Lemma set_all_keeps_dict {V} (kvs : list (string * V)) :
  forall d : PyDict.t,
    NoDup (PyDict.keys d) ->
    NoDup (PyDict.keys (PyDict.set_all String.eqb kvs d))
    /\ (PyDict.len (PyDict.set_all String.eqb kvs d)
        <= PyDict.len d + List.length kvs)%nat.
Proof.
  induction kvs as [|[k v] r IH]; intros d Hnd.
  - split; [exact Hnd|]. unfold PyDict.set_all. cbn [fold_left List.length]. lia.
  - rewrite set_all_cons.
    destruct (set_keeps_dict k v d Hnd) as [Hnd' Hlen].
    destruct (IH _ Hnd') as [Hnd'' Hlen'].
    split; [exact Hnd''|]. cbn [List.length]. lia.
Qed.

Lemma set_all_fresh {V} (kvs : list (string * V)) :
  forall d : PyDict.t,
    NoDup (map fst kvs) ->
    (forall k, In k (map fst kvs) -> ~ In k (PyDict.keys d)) ->
    PyDict.set_all String.eqb kvs d = d ++ kvs.
Proof.
  induction kvs as [|[k v] r IH]; intros d Hnd Hfresh.
  - now rewrite app_nil_r.
  - rewrite set_all_cons. cbn [map fst] in Hnd, Hfresh.
    apply NoDup_cons_iff in Hnd as [Hk Hnd].
    rewrite set_fresh_str by (apply Hfresh; now left).
    rewrite IH; [now rewrite <- app_assoc|exact Hnd|].
    intros k' Hk' Hin. unfold PyDict.keys in Hin.
    rewrite map_app in Hin. apply in_app_or in Hin as [Hin|[<-|[]]].
    + apply (Hfresh k'); [now right|exact Hin].
    + contradiction.
Qed.

(** Leaving records out keeps their names distinct. *)
Lemma names_of_filtered (keep : fn_rec -> bool) (recs : list fn_rec) :
  NoDup (map name recs) -> NoDup (map name (filter keep recs)).
Proof.
  intro Hnd. induction recs as [|rec recs IH]; [constructor|].
  cbn [map] in Hnd. apply NoDup_cons_iff in Hnd as [Hrec Hrecs].
  cbn [filter]. destruct (keep rec); [|auto].
  cbn [map]. constructor; [|auto].
  intro Hin. apply Hrec. apply in_map_iff in Hin as (r & Hr & Hin).
  apply filter_In in Hin as [Hin _]. apply in_map_iff. eauto.
Qed.

Lemma fn_names_covered (ide_cov : ide_cov_t) :
  fn_names ide_cov
  = map name (filter (fun rec => 0 <? coverageHits rec) (covered ide_cov)).
Proof.
  rewrite fn_names_flat_map. unfold covered, PyDict.values.
  induction ide_cov as [|[path recs] l IH]; [reflexivity|].
  cbn [flat_map map List.concat snd].
  rewrite !filter_app, map_app, IH. f_equal. f_equal.
  clear. induction recs as [|rec recs IHr]; [reflexivity|].
  cbn [filter].
  destruct (Z.ltb_spec 0 (coverageHits rec)) as [Hpos|Hle].
  - destruct (Z.eqb_spec (coverageHits rec) 0) as [Hz|Hnz]; [lia|].
    cbn [negb filter]. destruct (Z.ltb_spec 0 (coverageHits rec)); [|lia].
    now rewrite IHr.
  - destruct (coverageHits rec =? 0); cbn [negb filter]; [exact IHr|].
    destruct (Z.ltb_spec 0 (coverageHits rec)); [lia|exact IHr].
Qed.

Lemma writes_length (ide_cov : ide_cov_t) :
  List.length (writes ide_cov) = List.length (covered ide_cov).
Proof.
  unfold writes, covered, PyDict.values.
  generalize (fn_names ide_cov) as names. intro names.
  induction ide_cov as [|[path recs] l IH]; [reflexivity|].
  cbn [flat_map map List.concat fst snd].
  rewrite filter_app, !length_app, IH. f_equal.
  clear. induction recs as [|rec recs IHr]; [reflexivity|].
  cbn [flat_map filter]. rewrite length_app, IHr.
  destruct (coverageHits rec =? 0); reflexivity.
Qed.

Lemma writes_bare_names (ide_cov : ide_cov_t) :
  (forall rec, In rec (covered ide_cov) ->
               (count (fn_names ide_cov) (name rec) <= 1)%nat) ->
  writes ide_cov
  = map (fun rec => (name rec, coverageHits rec)) (covered ide_cov).
Proof.
  unfold writes, covered, PyDict.values.
  generalize (fn_names ide_cov) as names. intro names.
  induction ide_cov as [|[path recs] l IH]; intro H; [reflexivity|].
  cbn [flat_map map List.concat fst snd] in *.
  rewrite filter_app, map_app in *.
  rewrite IH by (intros rec Hin; apply H, in_or_app; now right).
  f_equal.
  assert (Hrecs : forall rec,
             In rec (filter (fun rec => negb (coverageHits rec =? 0)) recs) ->
             (count names (name rec) <= 1)%nat)
    by (intros rec Hin; apply H, in_or_app; now left).
  clear - Hrecs. induction recs as [|rec recs IHr]; [reflexivity|].
  cbn [flat_map filter] in *.
  destruct (coverageHits rec =? 0); cbn [negb] in *; [now apply IHr|].
  cbn [map app]. rewrite IHr by (intros r Hr; apply Hrecs; now right).
  unfold entry_key.
  destruct (Nat.ltb_spec 1 (count names (name rec))) as [Hgt|_];
    [|reflexivity].
  specialize (Hrecs rec (or_introl eq_refl)). lia.
Qed.

(** X13.  When the records with a hit count other than 0 have pairwise
    distinct names, the result lists exactly these records, each under
    its bare name with its hit count, in the order of the files and of
    the records in each file: no key is qualified with a path. *)
Theorem distinct_names_stay_bare (ide_cov : ide_cov_t) :
  NoDup (map name (covered ide_cov)) ->
  _compute_coverage_per_function ide_cov
  = map (fun rec => (name rec, coverageHits rec)) (covered ide_cov).
Proof.
  intro Hnd. rewrite compute_writes, writes_bare_names.
  - rewrite set_all_fresh; [reflexivity| |intros k _ []].
    rewrite map_map. cbn [fst]. exact Hnd.
  - intros rec _. rewrite fn_names_covered. unfold count.
    apply NoDup_count_occ. now apply names_of_filtered.
Qed.

Lemma distinct_names_stay_bare_witness :
  _compute_coverage_per_function plain_cov = [("f", 3); ("h", 7)].
Proof.
  rewrite (distinct_names_stay_bare plain_cov).
  - reflexivity.
  - cbn. repeat constructor; cbn; intuition discriminate.
Defined.

(** X14.  Whatever the names are, the result has pairwise distinct keys
    and no more items than there are records with a hit count other than
    0; without such a record it is empty. *)
Theorem coverage_per_function_size (ide_cov : ide_cov_t) :
  let funcs_cov := _compute_coverage_per_function ide_cov in
  NoDup (PyDict.keys funcs_cov)
  /\ (PyDict.len funcs_cov <= List.length (covered ide_cov))%nat
  /\ (covered ide_cov = [] -> funcs_cov = PyDict.empty).
Proof.
  cbv zeta. rewrite compute_writes.
  destruct (set_all_keeps_dict (writes ide_cov) PyDict.empty (NoDup_nil _))
    as [Hnd Hlen].
  rewrite writes_length in Hlen. cbn [PyDict.len PyDict.empty List.length] in Hlen.
  split; [exact Hnd|]. split; [exact Hlen|].
  intro Hnone. pose proof (writes_length ide_cov) as Hw.
  rewrite Hnone in Hw. apply length_zero_iff_nil in Hw. now rewrite Hw.
Qed.

(** ** Passive campaigns *)

Section PassiveCampaign.
Context {Coverage Snapshot : Type}.
Variable new_Coverage : Coverage.
Variable export_merged_ide_coverage : list Snapshot -> ide_cov_t.
Variable sanitize_filename : string -> string.
Variable entropy : nat -> Byte.byte.
Variable cenv : campaign_env Snapshot.
Variable fuzz_test : fuzz_fn Coverage.
Variable logs_dir : string.
Variable network_id : string.
Variable cov_proc_num : Z.
Variable verbose_coverage : bool.

Lemma drain_never_asks (i : Z) (queue : list (option (Snapshot * Snapshot))) :
  never asks_user
        (drain Snapshot export_merged_ide_coverage true verbose_coverage i
               queue).
Proof.
  assert (Hrep : never asks_user
                       (merge_and_report Snapshot export_merged_ide_coverage
                                         true verbose_coverage)).
  { intro s. rewrite merge_and_report_run. eexists.
    split; [reflexivity|]. unfold report.
    destruct (merged_full Snapshot export_merged_ide_coverage s); reflexivity. }
  induction queue as [|got rest IH]; [apply never_ret|].
  cbn [drain]. destruct got as [x|].
  - destruct rest as [|y r]; [|exact IH].
    apply never_bind; [apply never_store_coverage|].
    intros _. apply never_bind; [exact Hrep|]. intros _. apply never_ret.
  - apply never_bind; [exact Hrep|]. intros _. exact IH.
Qed.

Lemma spawn_loop_never_asks items :
  forall processes,
    never asks_user
          (spawn_loop Coverage new_Coverage Snapshot sanitize_filename
                      fuzz_test logs_dir true network_id cov_proc_num
                      items processes).
Proof.
  induction items as [|[i seed] r IH]; intro processes; [apply never_ret|].
  cbn [spawn_loop]. apply never_bind; [now apply never_oemit|].
  intros _. cbv zeta. apply never_bind; [now apply never_oemit|].
  intros _. apply IH.
Qed.

Hypothesis worker_0_reports_no_exception :
  forall p, err_pipe Snapshot cenv 0 <> Some (Some p).

Lemma handshake_never_asks (i : Z) :
  never asks_user (handshake Snapshot cenv true i).
Proof.
  intro s. rewrite handshake_run.
  destruct (err_pipe Snapshot cenv i) as [[pk|]|] eqn:Hpipe.
  - destruct (pickle_loads pk) as [err|e];
      [eexists; split; reflexivity|].
    rewrite attach_decision_run. cbn [negb orb].
    destruct (Z.eqb_spec i 0) as [->|Hi];
      [now apply worker_0_reports_no_exception in Hpipe|].
    destruct (ev_ack Snapshot cenv i); cbn [snd add_log olog];
      rewrite <- app_assoc; eexists; (split; [reflexivity|reflexivity]).
  - eexists. split; reflexivity.
  - exists []. cbn [snd]. now rewrite app_nil_r.
Qed.

Lemma poll_loop_never_asks (fuel : nat) :
  forall round processes,
    never asks_user
          (poll_loop Coverage Snapshot export_merged_ide_coverage cenv true
                     verbose_coverage fuel round processes).
Proof.
  assert (Hw : forall round n tbr i,
             never asks_user
                   (poll_worker Snapshot export_merged_ide_coverage cenv
                                true verbose_coverage round n tbr i)).
  { intros round n tbr i. unfold poll_worker.
    apply never_bind; [now apply never_oemit|]. intros _.
    apply never_bind.
    - destruct (ev_wait Snapshot cenv i round); [|apply never_ret].
      apply never_bind; [apply handshake_never_asks|]. intros _.
      apply never_bind; [now apply never_oemit|]. intros _.
      apply never_bind;
        [destruct (i =? 0); [now apply never_oemit|apply never_ret]|].
      intros _. apply never_ret.
    - intros tbr'. apply never_bind; [apply drain_never_asks|]. intros _.
      apply never_bind;
        [destruct (ev_wait Snapshot cenv i round);
         [now apply never_oemit|apply never_ret]|].
      intros _. apply never_ret. }
  assert (Hp : forall round n items tbr,
             never asks_user
                   (poll_processes Coverage Snapshot export_merged_ide_coverage
                                   cenv true verbose_coverage round n items
                                   tbr)).
  { intros round n items. induction items as [|[i pr] r IH]; intro tbr;
      [apply never_ret|].
    cbn [poll_processes]. apply never_bind; [apply Hw|]. intros tbr'.
    apply IH. }
  induction fuel as [|fuel IH]; intros round processes;
    (destruct processes as [|pr ps]; [apply never_ret|]);
    [apply never_ret|].
  cbn [poll_loop]. apply never_bind; [apply Hp|]. intros tbr. apply IH.
Qed.

(** X15.  A passive campaign in which worker 0 reports no exception
    never turns to the person at the terminal, however many of the other
    workers fail: no traceback is shown, no line is read, and every
    decision sent to a worker is "do not attach". *)
Theorem passive_campaign_never_asks (fuel : nat) (process_count : Z)
        (seeds : list bytes) (s : ostate Snapshot) :
  exists evs,
    olog (snd (fuzz Coverage new_Coverage Snapshot export_merged_ide_coverage
                    sanitize_filename entropy cenv fuzz_test logs_dir true
                    network_id cov_proc_num verbose_coverage fuel
                    process_count seeds s))
    = olog s ++ evs
    /\ filter asks_user evs = [].
Proof.
  revert s. change (never asks_user
                          (fuzz Coverage new_Coverage Snapshot
                                export_merged_ide_coverage sanitize_filename
                                entropy cenv fuzz_test logs_dir true
                                network_id cov_proc_num verbose_coverage fuel
                                process_count seeds)).
  unfold fuzz. apply never_bind; [apply spawn_loop_never_asks|].
  intros processes. apply never_bind; [now apply never_oemit|].
  intros _. apply never_bind; [now apply never_oemit|].
  intros _. apply never_bind; [apply poll_loop_never_asks|].
  intros [still|]; [apply never_ret|].
  apply never_bind; [now apply never_oemit|]. intros _. apply never_ret.
Qed.
End PassiveCampaign.

Lemma passive_campaign_never_asks_witness :
  exists evs,
    olog (snd (fuzz unit tt unit no_coverage (fun n => n) zero_entropy
                    one_failure_env passing_test "logs" true "anvil" 2 true
                    3 2 [] (ostate0 ["y"])))
    = olog (ostate0 (Snapshot := unit) ["y"]) ++ evs
    /\ filter asks_user evs = [].
Proof.
  apply (passive_campaign_never_asks
           tt no_coverage (fun n => n) zero_entropy one_failure_env
           passing_test "logs" "anvil" 2 true).
  intros p. cbn. discriminate.
Defined.

(** ** Detector URIs *)

Lemma append_inv_head (a b c : string) :
  (a ++ b)%string = (a ++ c)%string -> b = c.
Proof.
  induction a as [|x a IH]; cbn; [auto|]. intros [= H]. auto.
Qed.

Lemma append_nil_inv (a b : string) : a = (a ++ b)%string -> b = EmptyString.
Proof.
  induction a as [|x a IH]; cbn; [auto|]. intros [= H]. auto.
Qed.

Lemma append_assoc (a b c : string) :
  ((a ++ b) ++ c)%string = (a ++ (b ++ c))%string.
Proof. induction a as [|x a IH]; cbn; [reflexivity|now rewrite IH]. Qed.

(** X16.  For a given detector and version the anchor can be read back
    from the URI: two anchors give the same URI only when they are the
    same, the empty anchor (no fragment at all) included. *)
Theorem detector_uri_determines_anchor (name version a a' : string) :
  generate_detector_uri name version a = generate_detector_uri name version a' ->
  a = a'.
Proof.
  unfold generate_detector_uri. cbv zeta.
  set (uri := ("https://ackee.xyz/wake/docs/" ++ version
               ++ "/static-analysis/detectors/" ++ name)%string).
  destruct a as [|x a], a' as [|y a']; intro H.
  - reflexivity.
  - apply append_nil_inv in H. discriminate.
  - symmetry in H. apply append_nil_inv in H. discriminate.
  - apply append_inv_head in H. cbn in H. congruence.
Qed.

Lemma detector_uri_determines_anchor_witness :
  "unsafe-call" = "unsafe-call".
Proof.
  exact (detector_uri_determines_anchor
           "reentrancy" "4.0.0" "unsafe-call" "unsafe-call" eq_refl).
Defined.

(** ** Hexadecimal digests *)

Lemma hex_byte_back (x : Byte.byte) :
  let n := Byte.to_N x in
  is_space (hex_digit (n / 16)) = false
  /\ hex_value (hex_digit (n / 16)) = Some (n / 16)%N
  /\ hex_value (hex_digit (n mod 16)) = Some (n mod 16)%N
  /\ byte_of_N (16 * (n / 16) + n mod 16) = x.
Proof. destruct x; vm_compute; repeat split; reflexivity. Qed.

(** X17.  What the JSON encoder writes for a [bytes] value, the
    validator of [HexBytes] reads back as the same bytes. *)
Theorem hex_bytes_round_trip (b : bytes) :
  validate (VStr (json_encoders_bytes b)) = inr b.
Proof.
  unfold validate, json_encoders_bytes.
  enough (H : fromhex (hex b) = Some b) by now rewrite H.
  induction b as [|x b IH]; [reflexivity|].
  cbn [hex]. cbv zeta.
  destruct (hex_byte_back x) as (Hsp & Htop & Hbot & Hbyte).
  cbn [fromhex]. rewrite Hsp, Htop, Hbot, IH, Hbyte. reflexivity.
Qed.

Lemma hex_value_digit (c : ascii) (v : N) :
  hex_value c = Some v ->
  is_space c = false /\ (v <? 16)%N = true /\ hex_digit v = lower c.
Proof.
  destruct c as [[] [] [] [] [] [] [] []]; vm_compute;
    intro H; try discriminate H; injection H as <-;
    repeat split; reflexivity.
Qed.

Lemma to_N_byte_of_N (n : N) :
  (n <= 255)%N -> Byte.to_N (byte_of_N n) = n.
Proof.
  intro Hn. unfold byte_of_N. destruct (Byte.of_N n) as [x|] eqn:E.
  - now apply Byte.to_of_N.
  - apply Byte.of_N_None_iff in E. lia.
Qed.

Lemma fromhex_compact_lower (s : string) (b : bytes) :
  fromhex s = Some b -> hex b = compact_lower s.
Proof.
  assert (H : forall n s, (String.length s <= n)%nat ->
                          forall b, fromhex s = Some b ->
                                    hex b = compact_lower s).
  { clear. induction n as [|n IH]; intros s Hlen b.
    - destruct s; [|cbn in Hlen; lia]. now intros [= <-].
    - destruct s as [|c r]; [now intros [= <-]|].
      cbn [String.length] in Hlen. cbn [fromhex compact_lower].
      destruct (is_space c) eqn:Hsp; [apply IH; lia|].
      destruct (hex_value c) as [top|] eqn:Htop; [|discriminate].
      destruct r as [|c' r']; [discriminate|].
      destruct (hex_value c') as [bot|] eqn:Hbot; [|discriminate].
      destruct (fromhex r') as [b'|] eqn:Hr; [|discriminate].
      intros [= <-]. cbn [String.length] in Hlen.
      apply hex_value_digit in Htop as (_ & Ht & Hdt).
      apply hex_value_digit in Hbot as (Hsp' & Hb & Hdb).
      apply N.ltb_lt in Ht, Hb.
      cbn [hex compact_lower]. cbv zeta. rewrite Hsp'.
      change (match top with
              | 0%N => 0%N
              | N.pos q => N.pos (q~0~0~0~0)
              end) with (16 * top)%N.
      rewrite to_N_byte_of_N by lia.
      replace ((16 * top + bot) / 16)%N with top
        by (apply (N.div_unique _ 16 top bot); [exact Hb|reflexivity]).
      replace ((16 * top + bot) mod 16)%N with bot
        by (apply (N.mod_unique _ 16 top bot); [exact Hb|reflexivity]).
      rewrite Hdt, Hdb. do 2 f_equal. apply (IH r'); [lia|exact Hr]. }
  apply (H (String.length s) s (le_n _)).
Qed.

(** X18.  A string the validator of [HexBytes] accepts is, up to
    whitespace and letter case, the text the JSON encoder writes for the
    bytes it yields: encoding them gives the string without its
    whitespace, in lower case. *)
Theorem validate_str_is_hex_text (s : string) (b : bytes) :
  validate (VStr s) = inr b ->
  json_encoders_bytes b = compact_lower s.
Proof.
  unfold validate, json_encoders_bytes.
  destruct (fromhex s) as [b'|] eqn:E; [|discriminate].
  intros [= <-]. now apply fromhex_compact_lower.
Qed.

Lemma validate_str_is_hex_text_witness :
  json_encoders_bytes [Byte.xde; Byte.xad; Byte.x0f] = "dead0f".
Proof.
  exact (validate_str_is_hex_text " DE aD  0f " [Byte.xde; Byte.xad; Byte.x0f]
                                  eq_refl).
Defined.

(** ** The handler's second signal *)

(** X19.  For an exception that [pickle.dumps] serializes to [p]: once
    the orchestrator's decision has arrived, the handler sets the
    completion event a second time as its last action, whether no
    debugger was asked for, the debugger session returned, or it ended in
    an exception of its own (which then leaves the handler): the log
    resources were exited and forgotten, [p] was written to the error
    pipe once, and the event was set once before the decision was
    read. *)
Theorem handler_signals_again_after_decision
        (env : worker_env) (e : exn) (p : pickled) (s : wstate) (a : bool) :
  pickle_dumps e = inr p ->
  attach_reply env = Some a ->
  let r := exception_handler env e s in
  fst r = (if a then match debugger_exit env with
                     | Some e' => Raise e'
                     | None => Ok tt
                     end
           else Ok tt)
  /\ ctx_managers (snd r) = []
  /\ exists evs,
       trace (snd r)
       = trace s ++ map Exit (ctx_managers s)
         ++ [ErrSend (Some p); FinishedSet; ErrRecv a]
         ++ evs ++ [FinishedSet]
       /\ filter is_finished_set evs = []
       /\ filter is_err_send evs = [].
Proof.
  intros Hdumps Hreply. cbv zeta.
  rewrite exception_handler_run, Hdumps, Hreply.
  cbn [fst snd ctx_managers trace].
  split; [reflexivity|]. split; [reflexivity|].
  exists (if a then [ReopenStdin; AttachDebugger e] else []).
  split; [reflexivity|]. destruct a; split; reflexivity.
Qed.

Lemma handler_signals_again_after_decision_witness :
  fst (exception_handler crashing_debugger_env
                         (TestException "AssertionError" "invariant broken")
                         wstate0)
  = Raise (ValueError "debugger gone").
Proof.
  exact (proj1 (handler_signals_again_after_decision
                  crashing_debugger_env
                  (TestException "AssertionError" "invariant broken")
                  (Pickle (TestException "AssertionError"
                                         "invariant broken"))
                  wstate0 true eq_refl eq_refl)).
Defined.

(** ** Exceptions that pickle refuses, and tests that never return *)

(** X20.  When the envelope a finished worker sent cannot be restored
    ([pickle.loads] raises [err]), the poll of that worker is left by
    [err] right after the read of the pipe: no traceback is shown, the
    person at the terminal is not asked, the worker's event is not
    cleared and no decision is sent to it; the lines on the terminal
    are left alone. *)
Theorem unloadable_envelope_ends_the_poll
        Snapshot (export_merged_ide_coverage : list Snapshot -> ide_cov_t)
        (cenv : campaign_env Snapshot) (passive verbose_coverage : bool)
        (round : nat) (n : Z) (to_be_removed : list Z) (i : Z)
        (p : pickled) (err : exn) (s : ostate Snapshot) :
  ev_wait Snapshot cenv i round = true ->
  err_pipe Snapshot cenv i = Some (Some p) ->
  pickle_loads p = inl err ->
  handshake Snapshot cenv passive i s
  = (Raise err, add_log [OErrRecv i (Some p)] s)
  /\ poll_worker Snapshot export_merged_ide_coverage cenv passive
                 verbose_coverage round n to_be_removed i s
     = (Raise err, add_log [OEventWait i true; OErrRecv i (Some p)] s).
Proof.
  intros Hset Hpipe Hloads.
  assert (Hshake : forall s0,
             handshake Snapshot cenv passive i s0
             = (Raise err, add_log [OErrRecv i (Some p)] s0))
    by (intro s0; now rewrite handshake_run, Hpipe, Hloads).
  split; [apply Hshake|].
  unfold poll_worker. rewrite Hset.
  unfold bind at 1. cbn [oemit].
  unfold bind at 1. unfold bind at 1. rewrite Hshake.
  unfold add_log. cbn [olog stdin exported_coverages
                       exported_coverages_per_trans].
  now rewrite <- app_assoc.
Qed.

Lemma unloadable_envelope_ends_the_poll_witness :
  let s := ostate0 (Snapshot := unit) ["y"] in
  let r := poll_worker unit no_coverage unloadable_env false false 0 3 [] 1
                       s in
  fst r = Raise (TypeError "__init__() missing 1 required positional argument: 'code'")
  /\ stdin (snd r) = ["y"]
  /\ filter is_decision (olog (snd r)) = [].
Proof.
  cbv zeta.
  destruct (unloadable_envelope_ends_the_poll
              unit no_coverage unloadable_env false false 0 3 [] 1
              (Pickle
                 (UnloadableException
                    "CodedError"
                    (TypeError "__init__() missing 1 required positional argument: 'code'")))
              (TypeError "__init__() missing 1 required positional argument: 'code'")
              (ostate0 ["y"]) eq_refl eq_refl eq_refl) as [_ H].
  rewrite H. repeat split.
Defined.

(** X21.  A worker whose test never returns (node launched and
    connected, parameters recognised) stays in the call: it writes
    nothing to its error pipe, never sets its completion event, exits
    none of its log resources and never kills its node. *)
Theorem hanging_test_blocks_worker
        Coverage env (f : fuzz_fn Coverage)
        (index port : Z) (random_seed : bytes) (log_file : string)
        (tee : bool) (network_id : string) (coverage : option Coverage)
        (popen_args : list string) (targs : list (test_arg Coverage)) :
  _setup_args port network_id = inr popen_args ->
  (refusals env <= budget env)%nat ->
  build_args Coverage env f coverage (fn_args f) [] = inr targs ->
  fn_body f targs = Hang ->
  let run := _run Coverage env f index port random_seed log_file tee
                  network_id coverage wstate0 in
  fst run = Hang
  /\ (exists before, trace (snd run) = before ++ [CallTest (fn_name f)])
  /\ filter is_err_send (trace (snd run)) = []
  /\ filter is_finished_set (trace (snd run)) = []
  /\ entered (trace (snd run)) = log_resources tee log_file
  /\ exited (trace (snd run)) = []
  /\ filter is_kill (trace (snd run)) = [].
Proof.
  intros Hargs Hconn Hbuild Hbody run. subst run.
  rewrite (run_hanging_trace Coverage env f index port random_seed log_file
             tee network_id coverage popen_args Hargs Hconn targs Hbuild
             Hbody).
  cbn [fst snd trace].
  destruct (until_call_facts index port random_seed log_file tee popen_args
              (refusals env) (reset_supported env))
    as (U1 & U2 & U3 & U4 & _ & U6 & _).
  split; [reflexivity|]. split; [eauto|].
  rewrite !filter_app, entered_app, exited_app.
  cbn [filter entered exited is_err_send is_finished_set is_kill].
  rewrite U1, U2, U3, U4, U6, ?app_nil_r. repeat split; reflexivity.
Qed.

Lemma hanging_test_blocks_worker_witness :
  let run := _run unit detach_env hanging_test 0 8545 (repeat Byte.x01 8)
                  "logs/t_0.ansi" true "anvil" None wstate0 in
  fst run = Hang
  /\ filter is_finished_set (trace (snd run)) = []
  /\ filter is_kill (trace (snd run)) = [].
Proof.
  pose proof
    (hanging_test_blocks_worker
       unit detach_env hanging_test 0 8545 (repeat Byte.x01 8)
       "logs/t_0.ansi" true "anvil" None
       ["anvil"; "--port"; "8545"; "--prune-history"; "--gas-price"; "0";
        "--base-fee"; "0"; "--steps-tracing"]
       [None] eq_refl ltac:(simpl; lia) eq_refl eq_refl) as H.
  cbv zeta in H. destruct H as (H1 & _ & _ & H4 & _ & _ & H7).
  repeat split; assumption.
Defined.

(** X22.  A worker whose test raises an [Exception] that [pickle.dumps]
    refuses with [err] (node launched and connected, parameters
    recognised) reports nothing: the handler exits the log resources,
    once, and is left by [err] before anything is written to the error
    pipe; the completion event is never set and no decision is waited
    for; [_run] then leaves the chain and kills the node, and [err] is
    swallowed when it is an [Exception]. *)
Theorem unpicklable_exception_is_never_reported
        Coverage env (f : fuzz_fn Coverage)
        (index port : Z) (random_seed : bytes) (log_file : string)
        (tee : bool) (network_id : string) (coverage : option Coverage)
        (popen_args : list string) (targs : list (test_arg Coverage))
        (e err : exn) :
  _setup_args port network_id = inr popen_args ->
  (refusals env <= budget env)%nat ->
  build_args Coverage env f coverage (fn_args f) [] = inr targs ->
  fn_body f targs = Raise e ->
  is_exception e = true ->
  pickle_dumps e = inl err ->
  let run := _run Coverage env f index port random_seed log_file tee
                  network_id coverage wstate0 in
  fst run = swallowed err
  /\ filter is_err_send (trace (snd run)) = []
  /\ filter is_finished_set (trace (snd run)) = []
  /\ filter is_err_recv (trace (snd run)) = []
  /\ exited (trace (snd run))
     = log_resources tee log_file
       ++ [RedirectStderr log_file; RedirectStdout log_file; LogFile log_file]
  /\ filter is_kill (trace (snd run)) = [Kill].
Proof.
  intros Hargs Hconn Hbuild Hbody Hexc Hdumps run. subst run.
  rewrite (run_unpicklable_trace Coverage env f index port random_seed
             log_file tee network_id coverage popen_args Hargs Hconn targs
             Hbuild e err Hbody Hexc Hdumps).
  cbn [fst snd trace].
  destruct (until_call_facts index port random_seed log_file tee popen_args
              (refusals env) (reset_supported env))
    as (_ & U2 & U3 & U4 & _ & U6 & _).
  destruct (kill_trace_facts log_file) as (_ & K2 & K3 & K4 & K5 & _).
  destruct (entered_exited_map (log_resources tee log_file))
    as (_ & _ & _ & E4).
  assert (Hrecv : filter is_err_recv
                         (until_call index port random_seed log_file tee
                                     popen_args (refusals env)
                                     (reset_supported env)) = []).
  { unfold until_call. rewrite !filter_app.
    assert (Hc : forall url k, filter is_err_recv (connect_trace url k) = [])
      by (intros url k; induction k as [|k IH]; cbn; auto).
    rewrite Hc. destruct tee, (reset_supported env); reflexivity. }
  split; [reflexivity|].
  rewrite !filter_app, !exited_app.
  cbn [filter exited is_err_send is_finished_set is_err_recv is_kill].
  rewrite U2, U3, U4, U6, K2, K3, K4, K5, E4, Hrecv.
  rewrite !(filter_map_ctx _ Exit) by reflexivity.
  repeat split; reflexivity.
Qed.

Lemma unpicklable_exception_is_never_reported_witness :
  let run := _run unit detach_env unpicklable_test 0 8545 (repeat Byte.x01 8)
                  "logs/t_0.ansi" true "anvil" None wstate0 in
  fst run = Ok tt
  /\ filter is_err_send (trace (snd run)) = []
  /\ filter is_kill (trace (snd run)) = [Kill].
Proof.
  pose proof
    (unpicklable_exception_is_never_reported
       unit detach_env unpicklable_test 0 8545 (repeat Byte.x01 8)
       "logs/t_0.ansi" true "anvil" None
       ["anvil"; "--port"; "8545"; "--prune-history"; "--gas-price"; "0";
        "--base-fee"; "0"; "--steps-tracing"]
       [None]
       (UnpicklableException
          "LockedError" (TypeError "cannot pickle '_thread.lock' object"))
       (TypeError "cannot pickle '_thread.lock' object")
       eq_refl ltac:(simpl; lia) eq_refl eq_refl eq_refl eq_refl) as H.
  cbv zeta in H. destruct H as (H1 & H2 & _ & _ & _ & H6).
  repeat split; assumption.
Defined.
